(** * Mesh surface sampling (blenkernel/intern/mesh_sample.c) and the
      soft-body solver options (extern/softbody/src/admmpd_types.h)

    A shallow embedding of the two source files and the properties the
    specification states about them.

    Conventions of the embedding.
    - C [float] is IEEE-754 binary32 and C++ [double] is binary64, both with
      round-to-nearest-even; they are the [spec_float] operations of the
      standard library at precision 24 / 53.  NaN payloads are not modelled.
    - [unsigned int] indices are [N], [int] and [short] values are [Z].
    - C arrays are lists; a read or write outside the array, and a remainder
      by zero, are undefined behaviour, which is the [None] of [option].
    - A failed [BLI_assert] is outside the contract of a function and is
      [None] as well.
    - Out-parameters become results, mutated buffers are passed through. *)

From Stdlib Require Import ZArith NArith Bool Lia.
From Stdlib Require Import Floats.SpecFloat.
From stdpp Require Import base option list.

Local Open Scope Z_scope.

(** ** Binary floating point *)

(** C [float]. *)
Module Float32.
Definition prec : Z := 24.
Definition emax : Z := 128.

Definition valid (x : spec_float) : bool := valid_binary prec emax x.

Definition add : spec_float -> spec_float -> spec_float := SFadd prec emax.
Definition sub : spec_float -> spec_float -> spec_float := SFsub prec emax.
Definition mul : spec_float -> spec_float -> spec_float := SFmul prec emax.
Definition div : spec_float -> spec_float -> spec_float := SFdiv prec emax.
Definition sqrt : spec_float -> spec_float := SFsqrt prec emax.

(** [a > b], [a >= b], [a == b] *)
Definition gtb (a b : spec_float) : bool := SFltb b a.
Definition geb (a b : spec_float) : bool := SFleb b a.
Definition eqb (a b : spec_float) : bool := SFeqb a b.

(** Conversion of an integer, [(float)n]. *)
Definition of_Z (n : Z) : spec_float := binary_normalize prec emax n 0 false.

Definition zero : spec_float := S754_zero false.          (* 0.0f *)
Definition one : spec_float := S754_finite false 8388608 (-23). (* 1.0f *)

(** The literal [1.0e-35f]: the binary32 value nearest to 10^-35. *)
Definition lit_1e_35 : spec_float := S754_finite false 13937966 (-140).

(** Finite values, the two zeros included. *)
Definition is_finite (x : spec_float) : bool :=
  match x with
  | S754_zero _ | S754_finite _ _ _ => true
  | _ => false
  end.

Definition is_zero (x : spec_float) : bool :=
  match x with
  | S754_zero _ => true
  | _ => false
  end.

(** [a <= b] *)
Definition leb (a b : spec_float) : bool := SFleb a b.

(** The value of a finite number in units of 2^-149, the smallest positive
    binary32 number; 0 for the infinities and NaN. *)
Definition units (x : spec_float) : Z :=
  match x with
  | S754_finite s m e => (if s then -1 else 1) * Zpos m * 2 ^ (e + 149)
  | _ => 0
  end.

(** A zero, or a positive finite number in its binary32 representation. *)
Definition nonneg_finite (x : spec_float) : bool :=
  match x with
  | S754_zero _ => true
  | S754_finite false m e => bounded prec emax m e
  | _ => false
  end.

(** A binary32 number in the interval [0, 1]. *)
Definition in_unit (x : spec_float) : bool :=
  valid x && leb zero x && leb x one.

(** The value with a negative zero replaced by the positive one; what
    [0.0f + x] is for every [x] that is not an infinity or a NaN. *)
Definition unsigned_zero (x : spec_float) : spec_float :=
  match x with
  | S754_zero _ => S754_zero false
  | _ => x
  end.
End Float32.

(** C++ [double]. *)
Module Float64.
Definition prec : Z := 53.
Definition emax : Z := 1024.

Definition valid (x : spec_float) : bool := valid_binary prec emax x.
Definition div : spec_float -> spec_float -> spec_float := SFdiv prec emax.
Definition gtb (a b : spec_float) : bool := SFltb b a.
Definition of_Z (n : Z) : spec_float := binary_normalize prec emax n 0 false.
Definition zero : spec_float := S754_zero false.

(** A decimal literal [n / 10^k] with [n] and [10^k] below 2^53: both are
    exact doubles, so the correctly rounded quotient is the double nearest
    to the literal. *)
Definition of_decimal (n : Z) (k : Z) : spec_float :=
  div (of_Z n) (of_Z (10 ^ k)).
End Float64.

Abbreviation float := spec_float.

(** ** BLI_math: three-component vectors *)

(** [float v[3]] *)
Definition float3 : Type := float * float * float.
(** [short v[3]] *)
Definition short3 : Type := Z * Z * Z.

(** The inline vector helpers of BLI_math that the sampling code calls.
    BLI_math is not among the sources at hand: the specification describes
    the evaluation as the "weighted sum of the 3 owning vertices' positions
    and normals", and the helpers are the componentwise operations of their
    names, as math_vector_inline.c writes them upstream. *)
Module BLI_math.
Import Float32.

(** Modelled from the spec: [zero_v3(r)] of BLI_math,
    r[0] = r[1] = r[2] = 0.0f *)
Definition zero_v3 : float3 := (zero, zero, zero).

(** Modelled from the spec: [madd_v3_v3fl(r, a, f)] of BLI_math,
    r[i] += a[i] * f, the step of a weighted sum *)
Definition madd_v3_v3fl (r a : float3) (f : float) : float3 :=
  let '(r0, r1, r2) := r in
  let '(a0, a1, a2) := a in
  (add r0 (mul a0 f), add r1 (mul a1 f), add r2 (mul a2 f)).

(** Modelled from the spec: [mul_v3_v3fl(r, a, f)] of BLI_math,
    r[i] = a[i] * f *)
Definition mul_v3_v3fl (a : float3) (f : float) : float3 :=
  let '(a0, a1, a2) := a in (mul a0 f, mul a1 f, mul a2 f).

(** Modelled from the spec: [sub_v3_v3v3(r, a, b)] of BLI_math,
    r[i] = a[i] - b[i] *)
Definition sub_v3_v3v3 (a b : float3) : float3 :=
  let '(a0, a1, a2) := a in
  let '(b0, b1, b2) := b in
  (sub a0 b0, sub a1 b1, sub a2 b2).

(** Modelled from the spec: [dot_v3v3(a, b)] of BLI_math,
    a[0] * b[0] + a[1] * b[1] + a[2] * b[2] *)
Definition dot_v3v3 (a b : float3) : float :=
  let '(a0, a1, a2) := a in
  let '(b0, b1, b2) := b in
  add (add (mul a0 b0) (mul a1 b1)) (mul a2 b2).

(** Modelled from the spec: [normal_short_to_float_v3(out, in)] of BLI_math,
    out[i] = in[i] * (1.0f / 32767.0f), the normal of a vertex as floats *)
Definition normal_short_to_float_v3 (n : short3) : float3 :=
  let '(n0, n1, n2) := n in
  let k := div one (of_Z 32767) in
  (mul (of_Z n0) k, mul (of_Z n1) k, mul (of_Z n2) k).

(** Modelled from the spec: [normalize_v3(n)] of BLI_math scales [n] to unit
    length in place and returns the former length; a vector whose squared
    length is not above 1.0e-35f becomes the zero vector.  The pair is
    (new n, returned length). *)
Definition normalize_v3 (n : float3) : float3 * float :=
  let d := dot_v3v3 n n in
  if gtb d lit_1e_35 then
    let d := sqrt d in
    (mul_v3_v3fl n (div one d), d)
  else
    (zero_v3, zero).
End BLI_math.

(** ** Mesh data (DNA_meshdata_types.h, BKE_DerivedMesh.h) *)

(** [MVert]: the fields the sampling code reads. *)
Record MVert : Type := {
  co : float3;   (* float co[3] *)
  no : short3    (* short no[3] *)
}.

(** [MFace]: a tessellated face, a triangle when [v4] is 0. *)
Record MFace : Type := {
  v1 : N;
  v2 : N;
  v3 : N;
  v4 : N
}.

(** [DerivedMesh] as the sampling code sees it: the vertex array and the
    tessellated-face array behind [getVertArray] and [getTessFaceArray]. *)
Record DerivedMesh : Type := {
  mverts : list MVert;
  mfaces : list MFace
}.

Definition getVertArray (dm : DerivedMesh) : list MVert := mverts dm.
Definition getNumVerts (dm : DerivedMesh) : Z := Z.of_nat (length (mverts dm)).
Definition getTessFaceArray (dm : DerivedMesh) : list MFace := mfaces dm.
Definition getNumTessFaces (dm : DerivedMesh) : Z := Z.of_nat (length (mfaces dm)).

(** [a[i]] for a signed index: undefined outside the array. *)
Definition array_get {A : Type} (a : list A) (i : Z) : option A :=
  if i <? 0 then None else a !! Z.to_nat i.

(** [a[i] = x] for a signed index: undefined outside the array. *)
Definition array_set {A : Type} (a : list A) (i : Z) (x : A) : option (list A) :=
  if (0 <=? i) && (i <? Z.of_nat (length a)) then Some (<[Z.to_nat i := x]> a)
  else None.

(** ** Surface samples (BKE_mesh_sample.h) *)

(** [MSurfaceSample]: three vertex indices and their barycentric weights. *)
Record MSurfaceSample : Type := {
  orig_verts : N * N * N;       (* unsigned int orig_verts[3] *)
  orig_weights : float3          (* float orig_weights[3] *)
}.

(** ** Evaluate *)

(** [BKE_mesh_sample_eval(dm, sample, loc, nor)]: the result is the returned
    flag with the final contents of [loc] and [nor]. *)
Definition BKE_mesh_sample_eval (dm : DerivedMesh) (sample : MSurfaceSample)
  : option (bool * float3 * float3) :=
  let mverts := getVertArray dm in
  let totverts := Z.to_N (getNumVerts dm) in
  let loc := BLI_math.zero_v3 in
  let nor := BLI_math.zero_v3 in
  let '(i0, i1, i2) := orig_verts sample in
  let '(w0, w1, w2) := orig_weights sample in
  if (totverts <=? i0)%N || (totverts <=? i1)%N || (totverts <=? i2)%N then
    Some (false, loc, nor)
  else
    v1 ← mverts !! N.to_nat i0;
    v2 ← mverts !! N.to_nat i1;
    v3 ← mverts !! N.to_nat i2;
    let loc := BLI_math.madd_v3_v3fl loc (co v1) w0 in
    let loc := BLI_math.madd_v3_v3fl loc (co v2) w1 in
    let loc := BLI_math.madd_v3_v3fl loc (co v3) w2 in
    let vnor := BLI_math.normal_short_to_float_v3 (no v1) in
    let nor := BLI_math.madd_v3_v3fl nor vnor w0 in
    let vnor := BLI_math.normal_short_to_float_v3 (no v2) in
    let nor := BLI_math.madd_v3_v3fl nor vnor w1 in
    let vnor := BLI_math.normal_short_to_float_v3 (no v3) in
    let nor := BLI_math.madd_v3_v3fl nor vnor w2 in
    let nor := (BLI_math.normalize_v3 nor).1 in
    Some (true, loc, nor).

(** ** Shape keys (DNA_key_types.h) *)

(** [unsigned int] arithmetic: the conversion [(unsigned int)i] of an [int]
    and the product, both modulo 2^32. *)
Definition uint_of_int (i : Z) : Z := i mod 2 ^ 32.
Definition uint_mul (a b : Z) : Z := (a * b) mod 2 ^ 32.

(** [sizeof(float)] *)
Definition sizeof_float : Z := 4.

(** [Key] and [KeyBlock]: the fields the sampling code reads.  The [void *data]
    of a key block is read as an array of floats. *)
Module DNA_key_types.
Record Key : Type := {
  elemsize : Z   (* int elemsize *)
}.

Record KeyBlock : Type := {
  totelem : Z;         (* int totelem *)
  data : list float    (* void *data *)
}.
End DNA_key_types.

(** Modelled from the spec: [BLI_assert(a)] of BLI_utildefines states a
    condition the caller has to meet; a call that fails it is outside the
    contract of the function, like undefined behaviour. *)
Definition BLI_assert (a : bool) : option unit :=
  if a then Some tt else None.

(** The three floats [v[0]], [v[1]], [v[2]] behind the pointer [v = a + off]
    into a float array, as [madd_v3_v3fl] reads them. *)
Definition float3_at (a : list float) (off : Z) : option float3 :=
  x ← array_get a off;
  y ← array_get a (off + 1);
  z ← array_get a (off + 2);
  Some (x, y, z).

(** [BKE_mesh_sample_shapekey(key, kb, sample, loc)]: the returned flag and
    the final contents of [loc], which the function does not clear. *)
Definition BKE_mesh_sample_shapekey (key : DNA_key_types.Key)
    (kb : DNA_key_types.KeyBlock) (sample : MSurfaceSample) (loc : float3)
  : option (bool * float3) :=
  let '(i0, i1, i2) := orig_verts sample in
  let '(w0, w1, w2) := orig_weights sample in
  let totelem := uint_of_int (DNA_key_types.totelem kb) in
  _ ← BLI_assert (DNA_key_types.elemsize key =? 3 * sizeof_float);
  _ ← BLI_assert (Z.of_N i0 <? totelem);
  _ ← BLI_assert (Z.of_N i1 <? totelem);
  _ ← BLI_assert (Z.of_N i2 <? totelem);
  v1 ← float3_at (DNA_key_types.data kb) (uint_mul (Z.of_N i0) 3);
  v2 ← float3_at (DNA_key_types.data kb) (uint_mul (Z.of_N i1) 3);
  v3 ← float3_at (DNA_key_types.data kb) (uint_mul (Z.of_N i2) 3);
  let loc := BLI_math.madd_v3_v3fl loc v1 w0 in
  let loc := BLI_math.madd_v3_v3fl loc v2 w1 in
  let loc := BLI_math.madd_v3_v3fl loc v3 w2 in
  Some (true, loc).

(** ** Sampling utilities *)

(** The barycentric interpolation helper of BLI_math,
    [interp_weights_face_v3_index(tri, w, v1, v2, v3, v4, co)], is not among
    the sources at hand: it is a parameter, returning [tri[3]] and [w[4]]
    ([v4] is [None] for the NULL pointer of a triangle). *)
Class BLI_math_interp : Type := {
  interp_weights_face_v3_index :
    float3 -> float3 -> float3 -> option float3 -> float3 ->
    (Z * Z * Z) * (float * float * float * float)
}.

(** [mesh_sample_weights_from_loc(sample, dm, face_index, loc)]: the sample
    it writes. *)
Definition mesh_sample_weights_from_loc `{BLI_math_interp}
    (dm : DerivedMesh) (face_index : Z) (loc : float3) : option MSurfaceSample :=
  face ← array_get (getTessFaceArray dm) face_index;
  let index := [v1 face; v2 face; v3 face; v4 face] in
  let mverts := getVertArray dm in
  p1 ← co <$> mverts !! N.to_nat (v1 face);
  p2 ← co <$> mverts !! N.to_nat (v2 face);
  p3 ← co <$> mverts !! N.to_nat (v3 face);
  p4 ← (if (v4 face =? 0)%N then Some None
        else Some <$> (co <$> mverts !! N.to_nat (v4 face)));
  let '((t0, t1, t2), (w0, w1, w2, w3)) :=
    interp_weights_face_v3_index p1 p2 p3 p4 loc in
  let w := [w0; w1; w2; w3] in
  i0 ← array_get index t0;
  i1 ← array_get index t1;
  i2 ← array_get index t2;
  x0 ← array_get w t0;
  x1 ← array_get w t1;
  x2 ← array_get w t2;
  Some {| orig_verts := (i0, i1, i2); orig_weights := (x0, x1, x2) |}.

(** ** Sample storage *)

(** [MSurfaceSampleStorage]: [store_sample(data, capacity, index, sample)]
    returns whether it stored the sample and may write to [data], whose
    representation [D] is the callback's own. *)
Record MSurfaceSampleStorage (D : Type) : Type := {
  store_sample : D -> Z -> Z -> MSurfaceSample -> option (bool * D);
  capacity : Z;
  data : D;
  free_data : bool
}.
Arguments store_sample {D} _ _ _ _ _.
Arguments capacity {D} _.
Arguments data {D} _.
Arguments free_data {D} _.

(** [mesh_sample_store_array_sample(vdata, capacity, index, sample)]: the
    returned flag and the array. *)
Definition mesh_sample_store_array_sample (vdata : list MSurfaceSample)
    (capacity index : Z) (sample : MSurfaceSample)
  : option (bool * list MSurfaceSample) :=
  if capacity <=? index then Some (false, vdata)
  else
    data ← array_set vdata index sample;
    Some (true, data).

(** [BKE_mesh_sample_storage_single(storage, sample)] *)
Definition BKE_mesh_sample_storage_single (sample : MSurfaceSample)
  : MSurfaceSampleStorage (list MSurfaceSample) :=
  {| store_sample := mesh_sample_store_array_sample;
     capacity := 1;
     data := [sample];
     free_data := false |}.

(** [BKE_mesh_sample_storage_array(storage, samples, capacity)] *)
Definition BKE_mesh_sample_storage_array (samples : list MSurfaceSample)
    (capacity : Z) : MSurfaceSampleStorage (list MSurfaceSample) :=
  {| store_sample := mesh_sample_store_array_sample;
     capacity := capacity;
     data := samples;
     free_data := false |}.

(** [BKE_mesh_sample_storage_release(storage)]: whether it hands the data to
    [MEM_freeN]. *)
Definition BKE_mesh_sample_storage_release {D : Type}
    (storage : MSurfaceSampleStorage D) : bool :=
  free_data storage.

(** ** Random sampling *)

(** BLI_rand's generator is not among the sources at hand: it is a
    parameter, a state [RNG] created from a seed and advanced by every draw. *)
Class BLI_rand : Type := {
  RNG : Type;
  BLI_rng_new : N -> RNG;
  BLI_rng_get_int : RNG -> Z * RNG;
  BLI_rng_get_float : RNG -> float * RNG
}.

(** [int % int]: undefined for a zero divisor, truncating otherwise. *)
Definition c_rem (a b : Z) : option Z :=
  if b =? 0 then None else Some (Z.rem a b).

(** The weights of a random sample from the two drawn floats
    (mesh_sample.c, lines 197-203). *)
Definition random_weights (a b : float) : float3 :=
  let '(a, b) :=
    if Float32.gtb (Float32.add a b) Float32.one
    then (Float32.sub Float32.one a, Float32.sub Float32.one b)
    else (a, b) in
  (Float32.sub Float32.one (Float32.add a b), a, b).

Section Random.
Context `{BLI_rand}.

(** The sample one iteration of the loop builds (lines 180-203), with the
    generator after its draws. *)
Definition random_sample (mfaces : list MFace) (totfaces : Z) (rng : RNG)
  : option (MSurfaceSample * RNG) :=
  let '(r, rng) := BLI_rng_get_int rng in
  k ← c_rem r totfaces;
  mface ← array_get mfaces k;
  let '(second_half, rng) :=
    if (v4 mface =? 0)%N then (false, rng)
    else let '(r, rng) := BLI_rng_get_int rng in (Z.rem r 2 =? 0, rng) in
  let verts :=
    if second_half then (v3 mface, v4 mface, v1 mface)
    else (v1 mface, v2 mface, v3 mface) in
  let '(a, rng) := BLI_rng_get_float rng in
  let '(b, rng) := BLI_rng_get_float rng in
  Some ({| orig_verts := verts; orig_weights := random_weights a b |}, rng).

Context {D : Type}.

(** The [for] loop with [n] iterations left; the result is the final
    [i], [stored], generator and storage data. *)
Fixpoint generate_random_loop (n : nat) (dst : MSurfaceSampleStorage D)
    (mfaces : list MFace) (totfaces : Z)
    (i stored : Z) (rng : RNG) (d : D) : option (Z * Z * RNG * D) :=
  match n with
  | O => Some (i, stored, rng, d)
  | S n =>
    '(sample, rng) ← random_sample mfaces totfaces rng;
    '(ok, d) ← store_sample dst d (capacity dst) i sample;
    if ok : bool
    then generate_random_loop n dst mfaces totfaces (i + 1) (stored + 1) rng d
    else Some (i, stored, rng, d)
  end.

(** [BKE_mesh_sample_generate_random(dst, dm, seed, totsample)]: the
    returned count and the storage data.  [dm] is the mesh as
    [DM_ensure_tessface] leaves it. *)
Definition BKE_mesh_sample_generate_random (dst : MSurfaceSampleStorage D)
    (dm : DerivedMesh) (seed : N) (totsample : Z) : option (Z * D) :=
  let rng := BLI_rng_new seed in
  let mfaces := getTessFaceArray dm in
  let totfaces := getNumTessFaces dm in
  '(_, stored, _, d) ←
    generate_random_loop (Z.to_nat totsample) dst mfaces totfaces 0 0 rng (data dst);
  Some (stored, d).
End Random.

(** ** Raycast sampling *)

(** [BVHTreeRayHit]: the fields the sampling code uses. *)
Record BVHTreeRayHit : Type := {
  hit_index : Z;     (* int index *)
  hit_co : float3;   (* float co[3] *)
  hit_dist : float   (* float dist *)
}.

(** BKE_bvhutils and BLI_kdopbvh are not among the sources at hand: they are
    parameters.  [bvhtree_from_mesh_faces] gives [None] when it leaves
    [bvhdata.tree] NULL; [BLI_bvhtree_ray_cast tree co dir radius index dist]
    takes the [index] and [dist] the caller put into the hit and returns its
    result with the hit it leaves. *)
Class BKE_bvhutils : Type := {
  BVHTreeFromMesh : Type;
  bvhtree_from_mesh_faces : DerivedMesh -> float -> Z -> Z -> option BVHTreeFromMesh;
  BLI_bvhtree_ray_cast :
    BVHTreeFromMesh -> float3 -> float3 -> float -> Z -> float -> Z * BVHTreeRayHit
}.

(** [MeshSampleRayCallback]: [ray_cb(userdata, ray_start, ray_end)] may update
    its user data and the two buffers; [U] is the type of the user data. *)
Definition MeshSampleRayCallback (U : Type) : Type :=
  U -> float3 -> float3 -> bool * float3 * float3 * U.

Section Raycast.
Context `{BLI_math_interp} `{BKE_bvhutils}.

(** [sample_bvh_raycast(sample, dm, bvhdata, ray_start, ray_end)]:
    [Some sample] for a hit, [None] for a miss. *)
Definition sample_bvh_raycast (dm : DerivedMesh) (bvhdata : BVHTreeFromMesh)
    (ray_start ray_end : float3) : option (option MSurfaceSample) :=
  let ray_normal := BLI_math.sub_v3_v3v3 ray_end ray_start in
  let '(ray_normal, dist) := BLI_math.normalize_v3 ray_normal in
  let '(r, hit) :=
    BLI_bvhtree_ray_cast bvhdata ray_start ray_normal Float32.zero (-1) dist in
  if 0 <=? r then
    sample ← mesh_sample_weights_from_loc dm (hit_index hit) (hit_co hit);
    Some (Some sample)
  else Some None.

Context {D U : Type}.

(** The [for] loop with [n] iterations left; the result is the final
    [i], [stored], user data and storage data. *)
Fixpoint generate_raycast_loop (n : nat) (dst : MSurfaceSampleStorage D)
    (dm : DerivedMesh) (bvhdata : BVHTreeFromMesh) (ray_cb : MeshSampleRayCallback U)
    (i stored : Z) (userdata : U) (ray_start ray_end : float3) (d : D)
  : option (Z * Z * U * D) :=
  match n with
  | O => Some (i, stored, userdata, d)
  | S n =>
    let '(ok, ray_start, ray_end, userdata) := ray_cb userdata ray_start ray_end in
    if ok : bool then
      hit ← sample_bvh_raycast dm bvhdata ray_start ray_end;
      match hit with
      | Some sample =>
        '(ok, d) ← store_sample dst d (capacity dst) i sample;
        if ok : bool
        then generate_raycast_loop n dst dm bvhdata ray_cb (i + 1) (stored + 1)
               userdata ray_start ray_end d
        else Some (i, stored, userdata, d)
      | None =>
        generate_raycast_loop n dst dm bvhdata ray_cb (i + 1) stored
          userdata ray_start ray_end d
      end
    else
      generate_raycast_loop n dst dm bvhdata ray_cb (i + 1) stored
        userdata ray_start ray_end d
  end.

(** [BKE_mesh_sample_generate_raycast(dst, dm, ray_cb, userdata, totsample)]:
    the returned count and the storage data.  [ray_start] and [ray_end] are
    the initial contents of the two local, uninitialised buffers; [dm] is
    the mesh as [DM_ensure_tessface] leaves it. *)
Definition BKE_mesh_sample_generate_raycast (dst : MSurfaceSampleStorage D)
    (dm : DerivedMesh) (ray_cb : MeshSampleRayCallback U) (userdata : U)
    (totsample : Z) (ray_start ray_end : float3) : option (Z * D) :=
  match bvhtree_from_mesh_faces dm Float32.zero 4 6 with
  | Some bvhdata =>
    '(_, stored, _, d) ←
      generate_raycast_loop (Z.to_nat totsample) dst dm bvhdata ray_cb 0 0
        userdata ray_start ray_end (data dst);
    Some (stored, d)
  | None => Some (0, data dst)
  end.
End Raycast.

(** ** Solver options (admmpd_types.h) *)

Module admmpd.
(** [struct Options] *)
Record Options : Type := {
  timestep_s : float;            (* double *)
  max_admm_iters : Z;            (* int *)
  max_cg_iters : Z;
  max_gs_iters : Z;
  mult_k : float;                (* double, stiffness multiplier *)
  min_res : float;               (* double, min residual for CG *)
  youngs : float;                (* double, Young's modulus *)
  poisson : float;               (* double, Poisson ratio *)
  grav : float * float * float   (* Eigen::Vector3d *)
}.

(** [Options()], the default constructor. *)
Definition Options_default : Options := {|
  timestep_s := Float64.div (Float64.of_Z 1) (Float64.of_Z 24);
  max_admm_iters := 50;
  max_cg_iters := 10;
  max_gs_iters := 30;
  mult_k := Float64.of_Z 1;
  min_res := Float64.of_decimal 1 6;
  youngs := Float64.of_Z 1000000;
  poisson := Float64.of_decimal 299 3;
  grav := (Float64.of_Z 0, Float64.of_Z 0, SFopp (Float64.of_decimal 98 1))
|}.

(** The invariant of the data model: every iteration cap is at least 1
    and the time step is positive. *)
Definition Options_invariant (o : Options) : Prop :=
  1 <= max_admm_iters o /\ 1 <= max_cg_iters o /\ 1 <= max_gs_iters o /\
  Float64.gtb (timestep_s o) Float64.zero = true.
End admmpd.

(** ** Concrete collaborators

    Instances of the parameters above, for running the code on examples. *)

(** The generator of BLI_rand as upstream rand.c implements it: a 48-bit
    linear congruential generator on a [uint64_t] state. *)
Module Rand48.
Definition MULTIPLIER : Z := 0x5DEECE66D.
Definition MASK : Z := 0x0000FFFFFFFFFFFF.
Definition ADDEND : Z := 0xB.
Definition LOWSEED : Z := 0x330E.

(** [BLI_rng_seed]: X = (((uint64_t) seed) << 16) | LOWSEED *)
Definition rng_seed (seed : N) : Z :=
  Z.lor (Z.shiftl (Z.of_N seed) 16) LOWSEED.

(** [rng_step]: X = (MULTIPLIER * X + ADDEND) & MASK *)
Definition rng_step (X : Z) : Z :=
  Z.land ((MULTIPLIER * X + ADDEND) mod 2 ^ 64) MASK.

(** [BLI_rng_get_int]: (int) (X >> 17) after a step *)
Definition rng_get_int (X : Z) : Z * Z :=
  let X := rng_step X in (Z.shiftr X 17, X).

(** [BLI_rng_get_float]: (float) BLI_rng_get_int(rng) / 0x80000000 *)
Definition rng_get_float (X : Z) : float * Z :=
  let '(n, X) := rng_get_int X in
  (Float32.div (Float32.of_Z n) (Float32.of_Z 0x80000000), X).

#[export] Instance rand48 : BLI_rand := {|
  RNG := Z;
  BLI_rng_new := rng_seed;
  BLI_rng_get_int := rng_get_int;
  BLI_rng_get_float := rng_get_float
|}.
End Rand48.

(** A stand-in for the bounding-volume hierarchy: the tree is the face array
    (absent for a mesh without faces), and a ray of positive length hits
    face 0 at its start point. *)
Module FirstFace.
#[export] Instance bvh : BKE_bvhutils := {|
  BVHTreeFromMesh := list MFace;
  bvhtree_from_mesh_faces dm _ _ _ :=
    match mfaces dm with
    | [] => None
    | fs => Some fs
    end;
  BLI_bvhtree_ray_cast tree co dir radius index dist :=
    if Float32.gtb dist Float32.zero
    then (0, {| hit_index := 0; hit_co := co; hit_dist := Float32.zero |})
    else (index, {| hit_index := index; hit_co := co; hit_dist := dist |})
|}.

(** The interpolation stand-in: all the weight on the first corner. *)
#[export] Instance interp : BLI_math_interp := {|
  interp_weights_face_v3_index _ _ _ _ _ :=
    ((0, 1, 2), (Float32.one, Float32.zero, Float32.zero, Float32.zero))
|}.
End FirstFace.

(** ** Vocabulary of the statements *)

(** The single-precision sum of a list, accumulated from 0.0f. *)
Definition sum_f32 (l : list float) : float :=
  fold_left Float32.add l Float32.zero.

(** The weighted sum of three points, coordinate by coordinate. *)
Definition weighted_sum (w p1 p2 p3 : float3) : float3 :=
  let '(w0, w1, w2) := w in
  let '(x1, y1, z1) := p1 in
  let '(x2, y2, z2) := p2 in
  let '(x3, y3, z3) := p3 in
  (sum_f32 [Float32.mul x1 w0; Float32.mul x2 w1; Float32.mul x3 w2],
   sum_f32 [Float32.mul y1 w0; Float32.mul y2 w1; Float32.mul y3 w2],
   sum_f32 [Float32.mul z1 w0; Float32.mul z2 w1; Float32.mul z3 w2]).

(** The normal of a vertex as a float vector. *)
Definition vert_normal (v : MVert) : float3 :=
  BLI_math.normal_short_to_float_v3 (no v).

Definition float3_map (f : float -> float) (v : float3) : float3 :=
  let '(x, y, z) := v in (f x, f y, f z).

Definition float3_all (f : float -> bool) (v : float3) : bool :=
  let '(x, y, z) := v in f x && f y && f z.

(** A [short v[3]] whose components fit the type. *)
Definition short3_in_range (v : short3) : Prop :=
  let '(x, y, z) := v in
  (-32768 <= x <= 32767) /\ (-32768 <= y <= 32767) /\ (-32768 <= z <= 32767).

(** The weights put 1.0f on corner [k] (0, 1 or 2) of the sample and a zero
    on the other two. *)
Definition weight_one_at (k : nat) (w : float3) : Prop :=
  let '(w0, w1, w2) := w in
  match k with
  | 0%nat => w0 = Float32.one /\ Float32.is_zero w1 = true /\ Float32.is_zero w2 = true
  | 1%nat => Float32.is_zero w0 = true /\ w1 = Float32.one /\ Float32.is_zero w2 = true
  | 2%nat => Float32.is_zero w0 = true /\ Float32.is_zero w1 = true /\ w2 = Float32.one
  | _ => False
  end.

(** A component of a vertex normal converted to float,
    [s * (1.0f / 32767.0f)]. *)
Definition short_to_float (s : Z) : float :=
  Float32.mul (Float32.of_Z s) (Float32.div Float32.one (Float32.of_Z 32767)).

(** The [n] integers from [a] on. *)
Fixpoint Z_range (n : nat) (a : Z) : list Z :=
  match n with
  | O => []
  | S n => a :: Z_range n (a + 1)
  end.

(** All the values of a [short]. *)
Definition all_shorts : list Z := Z_range (Z.to_nat 65536) (-32768).

(** The samples of [n] consecutive iterations of the random loop, with the
    generator after them: what the loop builds, apart from where it stores. *)
Fixpoint random_samples `{BLI_rand} (n : nat) (mfaces : list MFace) (totfaces : Z)
    (rng : RNG) : option (list MSurfaceSample * RNG) :=
  match n with
  | O => Some ([], rng)
  | S n =>
    '(sample, rng) ← random_sample mfaces totfaces rng;
    '(samples, rng) ← random_samples n mfaces totfaces rng;
    Some (sample :: samples, rng)
  end.

(** The buffer [d] with the entries from index [i] on overwritten by [l]. *)
Definition overwrite {A : Type} (d : list A) (i : nat) (l : list A) : list A :=
  take i d ++ l ++ drop (i + length l) d.

(** Every draw of an integer is a non-negative [int]. *)
Definition rng_int_range `{BLI_rand} : Prop :=
  forall rng : RNG, 0 <= (BLI_rng_get_int rng).1 < 2 ^ 31.

(** The returned count together with the samples it counts, the first
    [stored] entries of the array. *)
Definition stored_samples (r : option (Z * list MSurfaceSample))
  : option (Z * list MSurfaceSample) :=
  '(stored, d) ← r; Some (stored, take (Z.to_nat stored) d).

(** For each of [n] consecutive iterations of the raycast loop, whether its
    ray callback succeeded and its raycast hit the mesh. *)
Fixpoint raycast_hits `{BLI_math_interp} `{BKE_bvhutils} {U : Type} (n : nat)
    (dm : DerivedMesh) (bvhdata : BVHTreeFromMesh) (ray_cb : MeshSampleRayCallback U)
    (userdata : U) (ray_start ray_end : float3) : list bool :=
  match n with
  | O => []
  | S n =>
    let '(ok, ray_start, ray_end, userdata) := ray_cb userdata ray_start ray_end in
    (ok && match sample_bvh_raycast dm bvhdata ray_start ray_end with
           | Some (Some _) => true
           | _ => false
           end)
    :: raycast_hits n dm bvhdata ray_cb userdata ray_start ray_end
  end.

(** The number of [true] entries. *)
Fixpoint count_true (l : list bool) : Z :=
  match l with
  | [] => 0
  | b :: l => (if b then 1 else 0) + count_true l
  end.

(** The weights are non-negative and their exact sum is within 2^-24 of 1
    (within 2^125 units of 2^149). *)
Definition weights_ok (w : float3) : Prop :=
  let '(w0, w1, w2) := w in
  Float32.geb w0 Float32.zero = true /\
  Float32.geb w1 Float32.zero = true /\
  Float32.geb w2 Float32.zero = true /\
  - 2 ^ 125 <= Float32.units w0 + Float32.units w1 + Float32.units w2 - 2 ^ 149 <= 2 ^ 125.

(** A bit as an integer. *)
Definition b2z (b : bool) : Z := if b then 1 else 0.

(** [u] is [v] rounded to nearest, ties to even, on the grid [2^k] of the
    binade of [v]. *)
Definition rounds_to (v u : Z) : Prop :=
  exists q k,
    0 <= k /\ u = q * 2 ^ k /\ v < 2 ^ (k + 24) /\ (0 < k -> 2 ^ (k + 23) <= v) /\
    - 2 ^ k <= 2 * (u - v) <= 2 ^ k /\
    (2 * (u - v) = 2 ^ k \/ 2 * (u - v) = - 2 ^ k -> Z.even q = true).

(** [r] is the correctly rounded [v]: a zero for 0, the nearest binary32
    value otherwise. *)
Definition rounded (v : Z) (r : float) : Prop :=
  (v = 0 /\ Float32.units r = 0) \/ (0 < v /\ rounds_to v (Float32.units r)).

(** Every draw of a float lies in [0, 1]. *)
Definition rng_float_range `{BLI_rand} : Prop :=
  forall rng : RNG, Float32.in_unit (BLI_rng_get_float rng).1 = true.

(** All three vertex indices of the sample are below the vertex count. *)
Definition sample_in_range (dm : DerivedMesh) (sample : MSurfaceSample) : Prop :=
  let '(i0, i1, i2) := orig_verts sample in
  Z.of_N i0 < getNumVerts dm /\ Z.of_N i1 < getNumVerts dm /\ Z.of_N i2 < getNumVerts dm.

(** The three-float elements of a key block, laid out one after the other. *)
Definition flatten_v3 (l : list float3) : list float :=
  flat_map (fun p : float3 => let '(x, y, z) := p in [x; y; z]) l.

(** The key block that holds the vertex coordinates of a mesh. *)
Definition key_of_mesh (dm : DerivedMesh) : DNA_key_types.KeyBlock :=
  {| DNA_key_types.totelem := getNumVerts dm;
     DNA_key_types.data := flatten_v3 (co <$> mverts dm) |}.

(** The four vertex indices of a face, [v4] being 0 for a triangle. *)
Definition face_corners (f : MFace) : list N := [v1 f; v2 f; v3 f; v4 f].

(** The sample sits on one of the two triangles the random sampling picks
    from a face: (v1, v2, v3), or (v3, v4, v1) for a quad. *)
Definition on_face_half (f : MFace) (sample : MSurfaceSample) : Prop :=
  orig_verts sample = (v1 f, v2 f, v3 f) \/
  (v4 f <> 0%N /\ orig_verts sample = (v3 f, v4 f, v1 f)).

(** Every face of the mesh refers to vertices of the mesh. *)
Definition faces_valid (dm : DerivedMesh) : Prop :=
  forall f i, f ∈ mfaces dm -> i ∈ face_corners f -> Z.of_N i < getNumVerts dm.

(** The three corner numbers the interpolation helper returns index the four
    corners of a face. *)
Definition interp_in_range `{BLI_math_interp} : Prop :=
  forall p1 p2 p3 p4 loc,
    let '(t0, t1, t2) := (interp_weights_face_v3_index p1 p2 p3 p4 loc).1 in
    0 <= t0 < 4 /\ 0 <= t1 < 4 /\ 0 <= t2 < 4.

(** For each of [n] consecutive iterations of the raycast loop, the sample
    of its raycast, if its ray callback succeeded and the ray hit. *)
Fixpoint raycast_samples `{BLI_math_interp} `{BKE_bvhutils} {U : Type} (n : nat)
    (dm : DerivedMesh) (bvhdata : BVHTreeFromMesh) (ray_cb : MeshSampleRayCallback U)
    (userdata : U) (ray_start ray_end : float3) : list (option MSurfaceSample) :=
  match n with
  | O => []
  | S n =>
    let '(ok, ray_start, ray_end, userdata) := ray_cb userdata ray_start ray_end in
    (if ok : bool
     then default None (sample_bvh_raycast dm bvhdata ray_start ray_end)
     else None)
    :: raycast_samples n dm bvhdata ray_cb userdata ray_start ray_end
  end.

(** ** Example data *)

Module Examples.
(** 0.5f and 0.25f *)
Definition half : float := Float32.div Float32.one (Float32.of_Z 2).
Definition quarter : float := Float32.div Float32.one (Float32.of_Z 4).

(** 0.1f and 0.2f *)
Definition tenth : float := Float32.div Float32.one (Float32.of_Z 10).
Definition fifth : float := Float32.div Float32.one (Float32.of_Z 5).

Definition vert (x y z : Z) (n : short3) : MVert :=
  {| co := (Float32.of_Z x, Float32.of_Z y, Float32.of_Z z); no := n |}.

(** One triangle; the normal of its first vertex has the length of a unit
    normal, (23170, 23170, 0) / 32767. *)
Definition triangle : DerivedMesh :=
  {| mverts := [vert 1 2 3 (23170, 23170, 0);
                vert 4 5 6 (0, 32767, 0);
                vert 7 8 9 (0, 0, 32767)];
     mfaces := [{| v1 := 0; v2 := 1; v3 := 2; v4 := 0 |}] |}.

(** The triangle with an infinite coordinate at its second vertex. *)
Definition triangle_inf : DerivedMesh :=
  {| mverts := [vert 1 2 3 (0, 0, 32767);
                {| co := (S754_infinity false, Float32.zero, Float32.zero);
                   no := (0, 32767, 0) |};
                vert 7 8 9 (0, 0, 32767)];
     mfaces := [{| v1 := 0; v2 := 1; v3 := 2; v4 := 0 |}] |}.

(** The triangle with a negative zero coordinate at its first vertex. *)
Definition triangle_negzero : DerivedMesh :=
  {| mverts := [{| co := (S754_zero true, Float32.one, Float32.one);
                   no := (0, 0, 32767) |};
                vert 4 5 6 (0, 32767, 0);
                vert 7 8 9 (0, 0, 32767)];
     mfaces := [{| v1 := 0; v2 := 1; v3 := 2; v4 := 0 |}] |}.

(** A mesh with vertices and no tessellated face. *)
Definition no_faces : DerivedMesh :=
  {| mverts := mverts triangle; mfaces := [] |}.

(** A quad and a triangle. *)
Definition quad_tri : DerivedMesh :=
  {| mverts := [vert 0 0 0 (0, 0, 32767); vert 1 0 0 (0, 0, 32767);
                vert 1 1 0 (0, 0, 32767); vert 0 1 0 (0, 0, 32767);
                vert 2 0 0 (0, 0, 32767)];
     mfaces := [{| v1 := 0; v2 := 1; v3 := 2; v4 := 3 |};
                {| v1 := 1; v2 := 4; v3 := 2; v4 := 0 |}] |}.

Definition sample_at (i0 i1 i2 : N) (w0 w1 w2 : float) : MSurfaceSample :=
  {| orig_verts := (i0, i1, i2); orig_weights := (w0, w1, w2) |}.

(** A sample no generator produces, to fill buffers with. *)
Definition blank : MSurfaceSample :=
  sample_at 99 99 99 Float32.zero Float32.zero Float32.zero.
End Examples.

Module RayExamples.
(** A ray callback with a counter as user data: it succeeds on every
    other call, with a ray from the origin along z. *)
Definition every_other : MeshSampleRayCallback nat :=
  fun n _ _ =>
    (Nat.even n,
     (Float32.zero, Float32.zero, Float32.zero),
     (Float32.zero, Float32.zero, Float32.one),
     S n).

Definition origin : float3 := (Float32.zero, Float32.zero, Float32.zero).
End RayExamples.

Module DeformedExamples.
(** The quad and the triangle of [Examples.quad_tri] with moved vertices and
    no face data. *)
Definition quad_tri_moved : DerivedMesh :=
  {| mverts := [Examples.vert 0 0 1 (0, 0, 32767); Examples.vert 1 0 2 (0, 0, 32767);
                Examples.vert 1 1 3 (0, 0, 32767); Examples.vert 0 1 4 (0, 0, 32767);
                Examples.vert 2 0 5 (0, 0, 32767)];
     mfaces := [] |}.
End DeformedExamples.

(** A generator that is not BLI_rand's, for the draws the sampling code does
    not expect: every integer it draws is -1. *)
Module MinusOne.
#[export] Instance rand : BLI_rand := {|
  RNG := unit;
  BLI_rng_new _ := tt;
  BLI_rng_get_int _ := (-1, tt);
  BLI_rng_get_float _ := (Float32.zero, tt)
|}.
End MinusOne.

(** A storage that mesh_sample.c does not set up: its store callback does
    not look at the capacity and appends every sample to its data. *)
Module GreedyStorage.
Definition store_append (vdata : list MSurfaceSample) (capacity index : Z)
    (sample : MSurfaceSample) : option (bool * list MSurfaceSample) :=
  Some (true, vdata ++ [sample]).

Definition storage (capacity : Z) : MSurfaceSampleStorage (list MSurfaceSample) :=
  {| store_sample := store_append;
     capacity := capacity;
     data := [];
     free_data := false |}.
End GreedyStorage.


(** * Properties *)

(** ** Binary32 arithmetic with 0 and 1 *)

(** [lit_1e_35] is within half a unit in the last place (2^-141) of 10^-35. *)
Example lit_1e_35_nearest :
  2 * Z.abs (Float32.units Float32.lit_1e_35 * 10 ^ 35 - 2 ^ 149) <= 2 ^ 9 * 10 ^ 35.
Proof. vm_compute. discriminate. Qed.

Module Float32_facts.
Import Float32.

Lemma add_zero_l x : add zero x = unsigned_zero x.
Proof. by destruct x as [[]|[]| |]. Qed.

Lemma add_zero_r x z :
  is_zero z = true -> add (unsigned_zero x) z = unsigned_zero x.
Proof. by destruct x as [[]|[]| |], z as [[]|[]| |]. Qed.

Lemma mul_zero_r x z :
  is_finite x = true -> is_zero z = true -> is_zero (mul x z) = true.
Proof. by destruct x as [[]|[]| |], z as [[]|[]| |]. Qed.

Lemma unsigned_zero_is_zero z : is_zero z = true -> unsigned_zero z = zero.
Proof. by destruct z. Qed.

Lemma digits2_pos_shift23 (m : positive) :
  Zpos (digits2_pos (8388608 * m)) = Zpos (digits2_pos m) + 23.
Proof. cbv [Pos.mul]. cbn [digits2_pos]. lia. Qed.

(** Multiplying a binary32 value by 1.0f gives the value back. *)
Lemma mul_one_r x : valid x = true -> mul x one = x.
Proof.
  destruct x as [[]|[]| |s m e]; try done.
  unfold valid, valid_binary, bounded, canonical_mantissa.
  intros [Hc He]%andb_true_iff.
  apply Z.eqb_eq in Hc. apply Z.leb_le in He.
  unfold mul, one, SFmul, binary_round_aux, shr_fexp.
  rewrite xorb_false_r, (Pos.mul_comm m).
  cbn [Zdigits2]. rewrite digits2_pos_shift23.
  replace (Z.pos (digits2_pos m) + 23 + (e + -23)) with (Z.pos (digits2_pos m) + e) by lia.
  rewrite Hc.
  replace (e - (e + -23)) with 23 by lia.
  cbv [Pos.mul].
  cbn [shr shr_record_of_loc SpecFloat.iter_pos shr_1 orb shr_m loc_of_shr_record
       round_nearest_even Zdigits2].
  replace (e + -23 + 23) with e by lia.
  rewrite Hc, Z.sub_diag. cbn [shr shr_m].
  by apply Z.leb_le in He as ->.
Qed.

(** The three-term sums of the evaluation when one weight is 1.0f and the
    other two are zeros. *)
Lemma sum_unit_0 x y z w1 w2 :
  valid x = true -> is_finite y = true -> is_finite z = true ->
  is_zero w1 = true -> is_zero w2 = true ->
  sum_f32 [mul x one; mul y w1; mul z w2] = unsigned_zero x.
Proof.
  intros Hx Hy Hz H1 H2. unfold sum_f32. cbn [fold_left].
  rewrite (mul_one_r x Hx), add_zero_l.
  rewrite add_zero_r by by apply mul_zero_r.
  by rewrite add_zero_r by by apply mul_zero_r.
Qed.

Lemma sum_unit_1 x y z w0 w2 :
  is_finite x = true -> valid y = true -> is_finite z = true ->
  is_zero w0 = true -> is_zero w2 = true ->
  sum_f32 [mul x w0; mul y one; mul z w2] = unsigned_zero y.
Proof.
  intros Hx Hy Hz H0 H2. unfold sum_f32. cbn [fold_left].
  rewrite (mul_one_r y Hy), add_zero_l.
  rewrite (unsigned_zero_is_zero (mul x w0)) by by apply mul_zero_r.
  rewrite add_zero_l.
  by rewrite add_zero_r by by apply mul_zero_r.
Qed.

Lemma sum_unit_2 x y z w0 w1 :
  is_finite x = true -> is_finite y = true -> valid z = true ->
  is_zero w0 = true -> is_zero w1 = true ->
  sum_f32 [mul x w0; mul y w1; mul z one] = unsigned_zero z.
Proof.
  intros Hx Hy Hz H0 H1. unfold sum_f32. cbn [fold_left].
  rewrite (mul_one_r z Hz), add_zero_l.
  rewrite (unsigned_zero_is_zero (mul x w0)) by by apply mul_zero_r.
  replace zero with (unsigned_zero zero) by done.
  rewrite add_zero_r by by apply mul_zero_r.
  cbn [unsigned_zero zero]. apply add_zero_l.
Qed.
End Float32_facts.

(** ** Rounding in binary32 *)

Lemma Zpos_digits_succ (p : positive) :
  Zpos (digits2_pos p~0) = Zpos (digits2_pos p) + 1 /\
  Zpos (digits2_pos p~1) = Zpos (digits2_pos p) + 1.
Proof. cbn [digits2_pos]. lia. Qed.

Lemma digits2_pos_spec (p : positive) :
  2 ^ (Zpos (digits2_pos p) - 1) <= Zpos p < 2 ^ Zpos (digits2_pos p).
Proof.
  induction p as [p IH|p IH|].
  - rewrite (proj2 (Zpos_digits_succ p)).
    set (d := Z.pos (digits2_pos p)) in *.
    replace (d + 1 - 1) with (Z.succ (d - 1)) by lia.
    replace (d + 1) with (Z.succ d) by lia.
    rewrite !Z.pow_succ_r by lia. lia.
  - rewrite (proj1 (Zpos_digits_succ p)).
    set (d := Z.pos (digits2_pos p)) in *.
    replace (d + 1 - 1) with (Z.succ (d - 1)) by lia.
    replace (d + 1) with (Z.succ d) by lia.
    rewrite !Z.pow_succ_r by lia. lia.
  - cbn. lia.
Qed.

Lemma pos_iter_xO (m d : positive) : Zpos (Pos.iter xO m d) = Zpos m * 2 ^ Zpos d.
Proof.
  induction d as [|d IH] using Pos.peano_ind.
  - cbn. lia.
  - rewrite Pos.iter_succ, Pos2Z.inj_succ, Z.pow_succ_r by lia.
    rewrite Pos2Z.inj_xO, IH. lia.
Qed.

Lemma iter_pos_nat {A} (f : A -> A) (p : positive) (x : A) :
  SpecFloat.iter_pos f p x = Nat.iter (Pos.to_nat p) f x.
Proof.
  revert x. induction p as [p IH|p IH|]; intros x; cbn [SpecFloat.iter_pos].
  - rewrite !IH, Pos2Nat.inj_xI.
    replace (S (2 * Pos.to_nat p))%nat with (Pos.to_nat p + (Pos.to_nat p + 1))%nat by lia.
    by rewrite !Nat.iter_add.
  - rewrite !IH, Pos2Nat.inj_xO.
    replace (2 * Pos.to_nat p)%nat with (Pos.to_nat p + Pos.to_nat p)%nat by lia.
    by rewrite Nat.iter_add.
  - done.
Qed.

Lemma shr_1_spec m r s :
  0 <= m ->
  exists m' r', shr_1 {| shr_m := m; shr_r := r; shr_s := s |} =
                {| shr_m := m'; shr_r := r'; shr_s := r || s |} /\
                m = 2 * m' + b2z r' /\ 0 <= m'.
Proof.
  intros Hm. destruct m as [|[p|p|]|p]; try lia; cbn [shr_1].
  - by exists 0, false.
  - exists (Zpos p), true. cbn [b2z]. repeat split; lia.
  - exists (Zpos p), false. cbn [b2z]. repeat split; lia.
  - by exists 0, true.
Qed.

(** [n] right shifts of [N]: N = (2 m + r) 2^(n-1) + t with the sticky bit
    telling whether t is 0. *)
Lemma shr_iter_spec (N : Z) (n : nat) :
  0 <= N ->
  exists m r s t,
    Nat.iter (S n) shr_1 {| shr_m := N; shr_r := false; shr_s := false |} =
    {| shr_m := m; shr_r := r; shr_s := s |} /\
    N = (2 * m + b2z r) * 2 ^ Z.of_nat n + t /\
    0 <= t < 2 ^ Z.of_nat n /\ 0 <= m /\ (s = negb (t =? 0)).
Proof.
  intros HN. induction n as [|n IH].
  - unfold Nat.iter. cbn [nat_rect]. destruct (shr_1_spec N false false HN) as (m & r & -> & Hm & Hm0).
    exists m, r, false, 0. cbn. repeat split; lia.
  - rewrite Nat.iter_succ.
    destruct IH as (m & r & s & t & -> & HNm & Ht & Hm0 & Hs).
    destruct (shr_1_spec m r s Hm0) as (m' & r' & -> & Hm & Hm0').
    exists m', r', (r || s), (b2z r * 2 ^ Z.of_nat n + t).
    rewrite Nat2Z.inj_succ, Z.pow_succ_r by lia.
    assert (0 < 2 ^ Z.of_nat n) as Hg by (apply Z.pow_pos_nonneg; lia).
    set (g := 2 ^ Z.of_nat n) in *.
    split; [done|]. split; [subst N m; ring|].
    split; [destruct r; cbn [b2z]; lia|]. split; [done|].
    subst s. destruct r; cbn [b2z orb].
    + symmetry. apply negb_true_iff, Z.eqb_neq. lia.
    + by rewrite Z.mul_0_l, Z.add_0_l.
Qed.

Lemma rne_spec m r s t g :
  0 <= t < g -> s = negb (t =? 0) ->
  let N := (2 * m + b2z r) * g + t in
  let q := round_nearest_even m
             (loc_of_shr_record {| shr_m := m; shr_r := r; shr_s := s |}) in
  m <= q <= m + 1 /\
  - g <= q * (2 * g) - N <= g /\
  (q * (2 * g) - N = g \/ q * (2 * g) - N = - g -> Z.even q = true).
Proof.
  intros Ht Hs N q. subst N q s.
  destruct (Z.eqb_spec t 0) as [->|Hne]; destruct r; cbn [negb loc_of_shr_record
    round_nearest_even b2z].
  - destruct (Z.even m) eqn:Hev; (repeat split; try lia); intros _;
      [done|]. by rewrite Z.even_add, Hev.
  - repeat split; lia.
  - repeat split; lia.
  - repeat split; lia.
Qed.

Lemma pow2_pos (k : Z) : 0 <= k -> 0 < 2 ^ k.
Proof. intros. apply Z.pow_pos_nonneg; lia. Qed.

Lemma pow2_le (a b : Z) : 0 <= a <= b -> 2 ^ a <= 2 ^ b.
Proof. intros. apply Z.pow_le_mono_r; lia. Qed.

Lemma pow2_lt (a b : Z) : 0 <= a < b -> 2 ^ a < 2 ^ b.
Proof. intros. apply Z.pow_lt_mono_r; lia. Qed.

(** The number of digits is determined by the binade. *)
Lemma digits2_pos_unique (p : positive) (d : Z) :
  0 < d -> 2 ^ (d - 1) <= Zpos p < 2 ^ d -> Zpos (digits2_pos p) = d.
Proof.
  intros Hd Hp. pose proof (digits2_pos_spec p) as Hs.
  set (d' := Zpos (digits2_pos p)) in *.
  assert (0 < d') by (unfold d'; lia).
  destruct (Z.lt_trichotomy d' d) as [Hlt|[->|Hgt]]; [|done|].
  - pose proof (pow2_le d' (d - 1) ltac:(lia)). lia.
  - pose proof (pow2_le d (d' - 1) ltac:(lia)). lia.
Qed.

Lemma fexp_normal (x : Z) : -125 <= x -> fexp 24 128 x = x - 24.
Proof. unfold fexp, emin. lia. Qed.

Lemma fexp_subnormal (x : Z) : x <= -125 -> fexp 24 128 x = -149.
Proof. unfold fexp, emin. lia. Qed.

Lemma bounded_normal (m : positive) (e : Z) :
  Zpos (digits2_pos m) = 24 -> -149 <= e <= 104 -> bounded 24 128 m e = true.
Proof.
  intros Hd He. unfold bounded, canonical_mantissa.
  rewrite Hd, fexp_normal by lia.
  apply andb_true_iff. split; [apply Z.eqb_eq|apply Z.leb_le]; lia.
Qed.

(** Rounding a mantissa of [24 + k] digits, [k > 0]. *)
Lemma round_aux_long (p : positive) (e k : Z) :
  0 < k -> Zpos (digits2_pos p) = 24 + k -> -149 <= e -> e + k + 1 <= 104 ->
  exists m' e' q,
    binary_round_aux 24 128 false (Zpos p) e loc_Exact = S754_finite false m' e' /\
    bounded 24 128 m' e' = true /\
    Zpos m' * 2 ^ (e' + 149) = q * 2 ^ (e + k + 149) /\
    - 2 ^ (k - 1) <= q * 2 ^ k - Zpos p <= 2 ^ (k - 1) /\
    (q * 2 ^ k - Zpos p = 2 ^ (k - 1) \/ q * 2 ^ k - Zpos p = - 2 ^ (k - 1) ->
     Z.even q = true).
Proof.
  intros Hk Hd He Hmax.
  unfold binary_round_aux, shr_fexp. cbn [Zdigits2]. rewrite Hd.
  rewrite fexp_normal by lia.
  replace (24 + k + e - 24 - e) with k by lia.
  destruct k as [|kp|]; try lia. cbn [shr shr_record_of_loc].
  rewrite iter_pos_nat.
  destruct (Pos2Nat.is_succ kp) as [n Hn]. rewrite Hn.
  assert (Z.of_nat n = Zpos kp - 1) as Hnk by lia.
  destruct (shr_iter_spec (Zpos p) n ltac:(lia)) as (m & r & s & t & -> & HN & Ht & Hm0 & Hs).
  cbn [shr_m].
  pose proof (rne_spec m r s t (2 ^ Z.of_nat n) Ht Hs) as Hq. cbn zeta in Hq.
  rewrite <- HN in Hq.
  set (q := round_nearest_even m _) in *.
  pose proof (digits2_pos_spec p) as Hp. rewrite Hd in Hp.
  rewrite Hnk in *.
  replace (24 + Zpos kp - 1) with (24 + (Zpos kp - 1)) in Hp by lia.
  replace (24 + Zpos kp) with (25 + (Zpos kp - 1)) in Hp by lia.
  rewrite !Z.pow_add_r in Hp by lia.
  replace (2 ^ Zpos kp) with (2 * 2 ^ (Zpos kp - 1))
    by (rewrite <- Z.pow_succ_r by lia; f_equal; lia).
  pose proof (pow2_pos (Zpos kp - 1) ltac:(lia)) as Hg.
  set (g := 2 ^ (Zpos kp - 1)) in *.
  change (2 ^ 24) with 16777216 in Hp. change (2 ^ 25) with 33554432 in Hp.
  assert (8388608 <= m < 16777216) as Hm by (destruct r; cbn [b2z] in HN; nia).
  destruct Hq as (Hqm & Hqe & Hqt).
  destruct (Z.eq_dec q 16777216) as [Hq24|Hq24].
  - rewrite Hq24 in *.
    exists 8388608%positive, (e + Zpos kp + 1), 16777216.
    change (Zdigits2 16777216) with 25.
    rewrite fexp_normal by lia.
    replace (25 + (e + Zpos kp) - 24 - (e + Zpos kp)) with 1 by lia.
    cbn [shr SpecFloat.iter_pos shr_record_of_loc shr_1 shr_m].
    destruct (Z.leb_spec (e + Zpos kp + 1) (128 - 24)); [|lia].
    repeat split; try lia; try exact Hqt.
    + apply bounded_normal; [done|lia].
    + replace (e + Zpos kp + 1 + 149) with (Z.succ (e + Zpos kp + 149)) by lia.
      rewrite Z.pow_succ_r by lia. lia.
  - destruct q as [|qp|qp]; try lia.
    assert (Zpos (digits2_pos qp) = 24) as Hdq
      by (apply digits2_pos_unique; [lia|change (2 ^ (24 - 1)) with 8388608;
          change (2 ^ 24) with 16777216; lia]).
    exists qp, (e + Zpos kp), (Zpos qp).
    cbn [Zdigits2]. rewrite Hdq, fexp_normal by lia.
    replace (24 + (e + Zpos kp) - 24 - (e + Zpos kp)) with 0 by lia.
    cbn [shr shr_record_of_loc shr_m].
    destruct (Z.leb_spec (e + Zpos kp) (128 - 24)); [|lia].
    repeat split; try lia; try exact Hqt.
    apply bounded_normal; [done|lia].
Qed.

Lemma digits_iter_xO (p d : positive) :
  Zpos (digits2_pos (Pos.iter xO p d)) = Zpos (digits2_pos p) + Zpos d.
Proof.
  induction d as [|d IH] using Pos.peano_ind.
  - cbn [Pos.iter]. rewrite (proj1 (Zpos_digits_succ p)). lia.
  - rewrite Pos.iter_succ, (proj1 (Zpos_digits_succ _)), IH. lia.
Qed.

(** A mantissa already at its exponent is left alone. *)
Lemma round_aux_canonical (m : positive) (e : Z) :
  fexp 24 128 (Zpos (digits2_pos m) + e) = e -> e <= 104 ->
  binary_round_aux 24 128 false (Zpos m) e loc_Exact = S754_finite false m e.
Proof.
  intros Hc He. unfold binary_round_aux, shr_fexp. cbn [Zdigits2].
  rewrite Hc, Z.sub_diag.
  cbn [shr shr_record_of_loc shr_m loc_of_shr_record round_nearest_even Zdigits2].
  rewrite Hc, Z.sub_diag. cbn [shr shr_m].
  by destruct (Z.leb_spec e (128 - 24)); [|lia].
Qed.

(** Rounding a mantissa of at most 24 digits is exact. *)
Lemma round_short (p : positive) (e : Z) :
  Zpos (digits2_pos p) <= 24 -> -149 <= e <= 104 ->
  exists m' e',
    binary_round 24 128 false p e = S754_finite false m' e' /\
    bounded 24 128 m' e' = true /\
    e' = fexp 24 128 (Zpos (digits2_pos p) + e) /\ -149 <= e' <= e /\
    Zpos m' * 2 ^ (e' + 149) = Zpos p * 2 ^ (e + 149).
Proof.
  intros Hd He. unfold binary_round, shl_align.
  set (e0 := fexp 24 128 (Zpos (digits2_pos p) + e)).
  assert (-149 <= e0 <= e) as He0 by (unfold e0, fexp, emin; lia).
  destruct (e0 - e) as [|d|d] eqn:Hd0; [|lia|].
  - assert (e0 = e) as Hee by lia.
    exists p, e. rewrite round_aux_canonical by (fold e0; lia).
    repeat split; try lia.
    unfold bounded, canonical_mantissa. fold e0. rewrite Hee.
    apply andb_true_iff. split; [apply Z.eqb_eq|apply Z.leb_le]; lia.
  - assert (e = e0 + Zpos d) as Hee by lia.
    assert (fexp 24 128 (Zpos (digits2_pos (Pos.iter xO p d)) + e0) = e0) as Hc.
    { rewrite digits_iter_xO.
      replace (Zpos (digits2_pos p) + Zpos d + e0) with (Zpos (digits2_pos p) + e) by lia.
      done. }
    exists (Pos.iter xO p d), e0. rewrite round_aux_canonical by (done || lia).
    repeat split; try lia.
    + unfold bounded, canonical_mantissa. rewrite Hc.
      apply andb_true_iff. split; [apply Z.eqb_eq|apply Z.leb_le]; lia.
    + rewrite pos_iter_xO.
      replace (e + 149) with (Zpos d + (e0 + 149)) by lia.
      rewrite (Z.pow_add_r 2 (Zpos d) (e0 + 149)) by lia. ring.
Qed.

Lemma normalize_spec (N e : Z) :
  0 < N -> -149 <= e <= 104 -> N * 2 ^ (e + 149) < 2 ^ 200 ->
  exists m' e',
    binary_normalize 24 128 N e false = S754_finite false m' e' /\
    bounded 24 128 m' e' = true /\ -149 <= e' /\
    rounds_to (N * 2 ^ (e + 149)) (Zpos m' * 2 ^ (e' + 149)).
Proof.
  intros HN He Hv. destruct N as [|p|]; try lia. cbn [binary_normalize].
  pose proof (digits2_pos_spec p) as Hp.
  set (d := Zpos (digits2_pos p)) in *.
  assert (0 < d) as Hd0 by (unfold d; lia).
  pose proof (pow2_pos (e + 149) ltac:(lia)) as Hs.
  assert (d + e + 148 < 200) as Hde.
  { destruct (Z.lt_ge_cases (d + e + 148) 200) as [|Hge]; [done|].
    pose proof (pow2_le 200 (d - 1 + (e + 149)) ltac:(lia)) as Hle.
    rewrite Z.pow_add_r in Hle by lia. nia. }
  assert (2 ^ (d - 1 + (e + 149)) <= Zpos p * 2 ^ (e + 149) < 2 ^ (d + (e + 149))) as Hv2.
  { rewrite (Z.pow_add_r 2 (d - 1) (e + 149)), (Z.pow_add_r 2 d (e + 149)) by lia. nia. }
  destruct (Z.le_gt_cases d 24) as [Hshort|Hlong].
  - destruct (round_short p e Hshort ltac:(lia)) as (m' & e' & -> & Hb & He' & Hr & Hu).
    exists m', e'. repeat split; [done|lia|].
    fold d in He'. rewrite Hu.
    exists (Zpos m'), (e' + 149).
    pose proof (pow2_pos (e' + 149) ltac:(lia)).
    split; [lia|]. split; [done|]. split.
    { eapply Z.lt_le_trans; [apply Hv2|]. apply pow2_le.
      unfold fexp, emin in He'. lia. }
    split.
    { intros Hk. eapply Z.le_trans; [|apply Hv2]. apply pow2_le.
      unfold fexp, emin in He'. lia. }
    split; lia.
  - unfold binary_round, shl_align. fold d.
    rewrite fexp_normal by lia.
    destruct (d + e - 24 - e) as [|k|k] eqn:Hk; try lia.
    destruct (round_aux_long p e (Zpos k) ltac:(lia) ltac:(fold d; lia) ltac:(lia)
                ltac:(lia)) as (m' & e' & q & -> & Hb & Hu & Hq & Hqt).
    exists m', e'.
    assert (-149 <= e') as He'.
    { unfold bounded, canonical_mantissa, fexp, emin in Hb.
      apply andb_true_iff in Hb as [Hc%Z.eqb_eq _]. lia. }
    repeat split; [done|done|].
    exists q, (e + Zpos k + 149). rewrite Hu.
    replace (e + Zpos k + 149) with (Zpos k + (e + 149)) by lia.
    replace (Zpos k + (e + 149) + 24) with (d + (e + 149)) by lia.
    replace (Zpos k + (e + 149) + 23) with (d - 1 + (e + 149)) by lia.
    pose proof (pow2_pos (Zpos k - 1) ltac:(lia)) as Hg.
    replace (2 ^ Zpos k) with (2 * 2 ^ (Zpos k - 1)) in *
      by (rewrite <- Z.pow_succ_r by lia; f_equal; lia).
    rewrite (Z.pow_add_r 2 (Zpos k)) by lia.
    replace (2 ^ Zpos k) with (2 * 2 ^ (Zpos k - 1))
      by (rewrite <- Z.pow_succ_r by lia; f_equal; lia).
    set (g := 2 ^ (Zpos k - 1)) in *. set (s := 2 ^ (e + 149)) in *.
    repeat split; try lia; try nia.
    intros Ht. apply Hqt. nia.
Qed.

Lemma pow2_le_inv (a b : Z) : 0 <= b -> 2 ^ a <= 2 ^ b -> a <= b.
Proof. intros Hb H. by apply (Z.pow_le_mono_r_iff 2). Qed.

Lemma pow2_lt_inv (a b : Z) : 0 <= b -> 2 ^ a < 2 ^ b -> a < b.
Proof. intros Hb H. by apply (Z.pow_lt_mono_r_iff 2). Qed.

Lemma grid_le (q B g v : Z) :
  0 < g -> 2 * (q * g - v) <= g -> v <= B * g -> q <= B.
Proof. intros. nia. Qed.

Lemma grid_ge (q B g v : Z) :
  0 < g -> - g <= 2 * (q * g - v) -> B * g <= v -> B <= q.
Proof. intros. nia. Qed.

(** Rounding does not cross 1. *)
Lemma rounds_to_le_one (v u : Z) :
  rounds_to v u -> 0 < v <= 2 ^ 149 -> u <= 2 ^ 149.
Proof.
  intros (q & k & Hk & -> & Hlt & Hge & Herr & _) Hv.
  destruct (Z.eq_dec k 0) as [->|Hk0].
  { change (2 ^ 0) with 1 in *. lia. }
  assert (k + 23 <= 149) as Hk'.
  { apply pow2_le_inv; [lia|]. specialize (Hge ltac:(lia)). lia. }
  replace (2 ^ 149) with (2 ^ (149 - k) * 2 ^ k) in *
    by (rewrite <- Z.pow_add_r by lia; f_equal; lia).
  pose proof (pow2_pos k Hk) as Hg.
  apply Z.mul_le_mono_nonneg_r; [lia|].
  apply (grid_le q _ (2 ^ k) v); lia.
Qed.

(** A value up to half a grid step above 1 rounds to 1 or below. *)
Lemma rounds_to_above_one (v u : Z) :
  rounds_to v u -> 2 ^ 149 < v <= 2 ^ 149 + 2 ^ 125 -> u <= 2 ^ 149.
Proof.
  intros (q & k & Hk & -> & Hlt & Hge & Herr & Htie) Hv.
  assert (k = 126) as ->.
  { assert (149 < k + 24) by (apply pow2_lt_inv; lia).
    assert (k + 23 < 150); [|lia].
    apply pow2_lt_inv; [lia|]. specialize (Hge ltac:(lia)).
    change (2 ^ 150) with (2 * 2 ^ 149). change (2 ^ 125) with (2 ^ 125) in Hv.
    assert (2 ^ 125 < 2 ^ 149) by (apply pow2_lt; lia). lia. }
  clear Hlt Hge.
  change (2 ^ 149) with (8388608 * 2 ^ 126) in *.
  change (2 ^ 125) with (2 ^ 125) in *.
  assert (2 * 2 ^ 125 = 2 ^ 126) as H2 by reflexivity.
  set (g := 2 ^ 126) in *. set (h := 2 ^ 125) in *.
  assert (0 < h) by (apply pow2_pos; lia).
  assert (q <= 8388609) as Hq by nia.
  destruct (Z.eq_dec q 8388609) as [->|]; [|nia].
  assert (Z.even 8388609 = true); [|done].
  apply Htie. left. lia.
Qed.

(** In the binade below 1 the rounding error is at most 2^-25. *)
Lemma rounds_to_error (v u : Z) :
  rounds_to v u -> 2 ^ 148 <= v <= 2 ^ 149 -> - 2 ^ 124 <= u - v <= 2 ^ 124.
Proof.
  intros (q & k & Hk & -> & Hlt & Hge & Herr & _) Hv.
  assert (148 < k + 24) as Hk1 by (apply pow2_lt_inv; lia).
  assert (k + 23 <= 149) as Hk2.
  { apply pow2_le_inv; [lia|]. specialize (Hge ltac:(lia)). lia. }
  assert (k = 125 \/ k = 126) as [->| ->] by lia.
  - change (2 ^ 125) with (2 * 2 ^ 124) in Herr. lia.
  - specialize (Hge ltac:(lia)). change (126 + 23) with 149 in Hge.
    assert (v = 2 ^ 149) as -> by lia.
    change (2 ^ 149) with (8388608 * 2 ^ 126) in *.
    assert (0 < 2 ^ 126) by (apply pow2_pos; lia).
    assert (0 < 2 ^ 124) by (apply pow2_pos; lia).
    set (g := 2 ^ 126) in *. assert (q = 8388608) as -> by nia. lia.
Qed.

(** Multiples of 2^-24 up to 1/2 are representable. *)
Lemma rounds_to_exact (v u c : Z) :
  rounds_to v u -> 0 < v <= 2 ^ 148 -> v = c * 2 ^ 125 -> u = v.
Proof.
  intros (q & k & Hk & -> & Hlt & Hge & Herr & _) Hv Hc.
  destruct (Z.eq_dec k 0) as [->|Hk0].
  { change (2 ^ 0) with 1 in *. lia. }
  assert (k + 23 <= 148) as Hk'.
  { apply pow2_le_inv; [lia|]. specialize (Hge ltac:(lia)). lia. }
  replace (2 ^ 125) with (2 ^ (125 - k) * 2 ^ k) in Hc
    by (rewrite <- Z.pow_add_r by lia; f_equal; lia).
  pose proof (pow2_pos k Hk) as Hg.
  set (g := 2 ^ k) in *. set (b := 2 ^ (125 - k)) in *.
  assert (q = c * b) as -> by nia. lia.
Qed.

(** ** Comparison with 1.0f, addition and subtraction in [0, 1] *)

Lemma bounded_digits (m : positive) (e : Z) :
  bounded 24 128 m e = true ->
  -149 <= e <= 104 /\ Zpos (digits2_pos m) <= 24 /\
  (-149 < e -> Zpos (digits2_pos m) = 24).
Proof.
  unfold bounded, canonical_mantissa, fexp, emin.
  intros [Hc%Z.eqb_eq He%Z.leb_le]%andb_true_iff. lia.
Qed.

Lemma units_bounds (m : positive) (e : Z) :
  bounded 24 128 m e = true ->
  (e <= -24 -> Zpos m * 2 ^ (e + 149) < 2 ^ 149) /\
  (-23 < e -> 2 ^ 149 < Zpos m * 2 ^ (e + 149)).
Proof.
  intros (He & Hd & Hn)%bounded_digits.
  pose proof (digits2_pos_spec m) as Hm.
  pose proof (pow2_pos (e + 149) ltac:(lia)) as Hs.
  split; intros He'.
  - assert (Zpos m < 2 ^ 24).
    { eapply Z.lt_le_trans; [apply Hm|]. apply pow2_le. lia. }
    assert (2 ^ (e + 149) <= 2 ^ 125) by (apply pow2_le; lia).
    change (2 ^ 149) with (2 ^ 24 * 2 ^ 125).
    assert (0 < 2 ^ 24) by (apply pow2_pos; lia).
    nia.
  - rewrite Hn in Hm by lia. change (2 ^ (24 - 1)) with (2 ^ 23) in Hm.
    assert (2 ^ 127 <= 2 ^ (e + 149)) by (apply pow2_le; lia).
    change (2 ^ 149) with (2 ^ 22 * 2 ^ 127).
    assert (0 < 2 ^ 127) by (apply pow2_pos; lia).
    change (2 ^ 23) with (2 * 2 ^ 22) in Hm.
    assert (0 < 2 ^ 22) by (apply pow2_pos; lia).
    nia.
Qed.

Lemma compare_cont_Z (p q : positive) :
  Pos.compare_cont Eq p q = (Zpos p ?= Zpos q).
Proof.
  rewrite Pos.compare_cont_spec. change (Zpos p ?= Zpos q) with (p ?= q)%positive.
  by destruct (p ?= q)%positive.
Qed.

Lemma compare_one_l (x : float) :
  Float32.nonneg_finite x = true ->
  SFcompare Float32.one x = Some (2 ^ 149 ?= Float32.units x).
Proof.
  destruct x as [s| | |[] m e]; try done. cbn [Float32.nonneg_finite Float32.units].
  intros Hb. pose proof (units_bounds m e Hb) as [Hlo Hhi].
  unfold Float32.one. cbn [SFcompare]. rewrite Z.mul_1_l. f_equal.
  destruct (Z.compare_spec (-23) e) as [<-|Hlt|Hgt].
  - change (-23 + 149) with 126. change (2 ^ 149) with (8388608 * 2 ^ 126).
    pose proof (pow2_pos 126 ltac:(lia)).
    rewrite compare_cont_Z.
    destruct (Z.compare_spec 8388608 (Zpos m)); symmetry;
      [apply Z.compare_eq_iff|apply Z.compare_lt_iff|apply Z.compare_gt_iff]; nia.
  - symmetry. apply Z.compare_lt_iff. lia.
  - symmetry. apply Z.compare_gt_iff. lia.
Qed.

Lemma compare_one_r (x : float) :
  Float32.nonneg_finite x = true ->
  SFcompare x Float32.one = Some (Float32.units x ?= 2 ^ 149).
Proof.
  destruct x as [s| | |[] m e]; try done. cbn [Float32.nonneg_finite Float32.units].
  intros Hb. pose proof (units_bounds m e Hb) as [Hlo Hhi].
  unfold Float32.one. cbn [SFcompare]. rewrite Z.mul_1_l. f_equal.
  destruct (Z.compare_spec e (-23)) as [->|Hlt|Hgt].
  - change (-23 + 149) with 126. change (2 ^ 149) with (8388608 * 2 ^ 126).
    pose proof (pow2_pos 126 ltac:(lia)).
    rewrite compare_cont_Z.
    destruct (Z.compare_spec (Zpos m) 8388608); symmetry;
      [apply Z.compare_eq_iff|apply Z.compare_lt_iff|apply Z.compare_gt_iff]; nia.
  - symmetry. apply Z.compare_lt_iff. lia.
  - symmetry. apply Z.compare_gt_iff. lia.
Qed.

Lemma gtb_one (x : float) :
  Float32.nonneg_finite x = true ->
  Float32.gtb x Float32.one = true <-> 2 ^ 149 < Float32.units x.
Proof.
  intros Hx. unfold Float32.gtb, SFltb. rewrite compare_one_l by done.
  destruct (Z.compare_spec (2 ^ 149) (Float32.units x)); split; (done || lia).
Qed.

Lemma in_unit_spec (x : float) :
  Float32.in_unit x = true ->
  Float32.nonneg_finite x = true /\ 0 <= Float32.units x <= 2 ^ 149.
Proof.
  unfold Float32.in_unit, Float32.leb.
  intros [[Hv H0]%andb_true_iff H1]%andb_true_iff.
  assert (Float32.nonneg_finite x = true) as Hnn by by destruct x as [|[]| |[]].
  split; [done|]. unfold SFleb in H1. rewrite compare_one_r in H1 by done.
  split.
  - destruct x as [| | |[] m e]; try done. cbn [Float32.units].
    pose proof (pow2_pos (e + 149)). apply bounded_digits in Hnn. nia.
  - by destruct (Z.compare_spec (Float32.units x) (2 ^ 149)); [lia|lia|].
Qed.

Lemma nonneg_finite_geb (x : float) :
  Float32.nonneg_finite x = true -> Float32.geb x Float32.zero = true.
Proof. by destruct x as [| | |[]]. Qed.

Lemma shl_align_spec (m : positive) (e e' : Z) :
  e' <= e -> Zpos (shl_align m e e').1 = Zpos m * 2 ^ (e - e').
Proof.
  intros He. unfold shl_align.
  destruct (e' - e) as [|d|d] eqn:Hd; try lia; cbn [fst].
  - replace (e - e') with 0 by lia. lia.
  - rewrite pos_iter_xO. f_equal. f_equal. lia.
Qed.

Lemma units_nonneg (x : float) :
  Float32.nonneg_finite x = true -> 0 <= Float32.units x.
Proof.
  destruct x as [| | |[] m e]; try done. cbn [Float32.nonneg_finite Float32.units].
  intros (He & _)%bounded_digits. pose proof (pow2_pos (e + 149) ltac:(lia)). nia.
Qed.

(** A binary32 value rounds to itself. *)
Lemma rounds_to_refl (m : positive) (e : Z) :
  bounded 24 128 m e = true ->
  rounds_to (Zpos m * 2 ^ (e + 149)) (Zpos m * 2 ^ (e + 149)).
Proof.
  intros (He & Hd & Hn)%bounded_digits.
  pose proof (digits2_pos_spec m) as Hm.
  pose proof (pow2_pos (e + 149) ltac:(lia)) as Hs.
  exists (Zpos m), (e + 149).
  split; [lia|]. split; [done|]. split.
  { replace (e + 149 + 24) with (24 + (e + 149)) by lia.
    rewrite (Z.pow_add_r 2 24 (e + 149)) by lia.
    assert (Zpos m < 2 ^ 24); [|nia].
    eapply Z.lt_le_trans; [apply Hm|]. apply pow2_le. lia. }
  split.
  { intros Hk. replace (e + 149 + 23) with (23 + (e + 149)) by lia.
    rewrite (Z.pow_add_r 2 23 (e + 149)) by lia.
    rewrite Hn in Hm by lia. change (2 ^ (24 - 1)) with (2 ^ 23) in Hm. nia. }
  split; lia.
Qed.

Lemma add_spec (x y : float) :
  Float32.nonneg_finite x = true -> Float32.nonneg_finite y = true ->
  Float32.units x + Float32.units y < 2 ^ 200 ->
  Float32.nonneg_finite (Float32.add x y) = true /\
  rounded (Float32.units x + Float32.units y) (Float32.add x y).
Proof.
  destruct x as [sx| | |[] mx ex]; try done; destruct y as [sy| | |[] my ey]; try done;
    cbn [Float32.nonneg_finite]; intros Hx Hy Hsum.
  - split; [by destruct sx, sy|]. left. by destruct sx, sy.
  - split; [done|]. right. cbn [Float32.add SFadd Float32.units] in *.
    pose proof (bounded_digits _ _ Hy) as (He & _).
    pose proof (pow2_pos (ey + 149) ltac:(lia)).
    rewrite Z.add_0_l, Z.mul_1_l. split; [nia|]. by apply rounds_to_refl.
  - split; [done|]. right. cbn [Float32.add SFadd Float32.units] in *.
    pose proof (bounded_digits _ _ Hx) as (He & _).
    pose proof (pow2_pos (ex + 149) ltac:(lia)).
    rewrite Z.add_0_r, Z.mul_1_l. split; [nia|]. by apply rounds_to_refl.
  - pose proof (bounded_digits _ _ Hx) as (Hex & _).
    pose proof (bounded_digits _ _ Hy) as (Hey & _).
    unfold Float32.add, SFadd, Float32.prec, Float32.emax. cbn [cond_Zopp Float32.units] in *.
    rewrite !Z.mul_1_l in *.
    set (ez := Z.min ex ey).
    rewrite !shl_align_spec by (unfold ez; lia).
    assert ((Zpos mx * 2 ^ (ex - ez) + Zpos my * 2 ^ (ey - ez)) * 2 ^ (ez + 149) =
            Zpos mx * 2 ^ (ex + 149) + Zpos my * 2 ^ (ey + 149)) as HN.
    { replace (ex + 149) with (ex - ez + (ez + 149)) by lia.
      replace (ey + 149) with (ey - ez + (ez + 149)) by lia.
      rewrite (Z.pow_add_r 2 (ex - ez)), (Z.pow_add_r 2 (ey - ez)) by (unfold ez; lia).
      ring. }
    pose proof (pow2_pos (ex - ez) ltac:(unfold ez; lia)).
    pose proof (pow2_pos (ey - ez) ltac:(unfold ez; lia)).
    pose proof (pow2_pos (ex + 149) ltac:(lia)).
    destruct (normalize_spec (Zpos mx * 2 ^ (ex - ez) + Zpos my * 2 ^ (ey - ez)) ez
                ltac:(nia) ltac:(unfold ez; lia) ltac:(rewrite HN; exact Hsum))
      as (m' & e' & -> & Hb & He' & Hr).
    split; [done|]. right. cbn [Float32.units]. rewrite Z.mul_1_l, <- HN.
    split; [nia|done].
Qed.

Lemma sub_one_spec (x : float) :
  Float32.nonneg_finite x = true -> Float32.units x <= 2 ^ 149 ->
  Float32.nonneg_finite (Float32.sub Float32.one x) = true /\
  rounded (2 ^ 149 - Float32.units x) (Float32.sub Float32.one x).
Proof.
  destruct x as [sx| | |[] m e]; try done; cbn [Float32.nonneg_finite]; intros Hx Hle.
  - split; [done|]. right. cbn [Float32.units]. split; [done|].
    rewrite Z.sub_0_r. apply (rounds_to_refl 8388608 (-23)). reflexivity.
  - pose proof (bounded_digits _ _ Hx) as (He & _).
    pose proof (units_bounds _ _ Hx) as [_ Hhi].
    cbn [Float32.units] in *. rewrite Z.mul_1_l in *.
    assert (e <= -23) as He23 by lia.
    unfold Float32.sub, Float32.one, SFsub, Float32.prec, Float32.emax. cbn [cond_Zopp].
    rewrite Z.min_r by lia. rewrite !shl_align_spec by lia.
    rewrite Z.sub_diag, Z.mul_1_r.
    assert ((8388608 * 2 ^ (-23 - e) - Zpos m) * 2 ^ (e + 149) =
            2 ^ 149 - Zpos m * 2 ^ (e + 149)) as HN.
    { change (2 ^ 149) with (8388608 * 2 ^ 126).
      replace 126 with (-23 - e + (e + 149)) by lia.
      rewrite (Z.pow_add_r 2 (-23 - e)) by lia. ring. }
    pose proof (pow2_pos (e + 149) ltac:(lia)) as Hs.
    destruct (8388608 * 2 ^ (-23 - e) - Zpos m) as [|n|n] eqn:Hn.
    + split; [done|]. left. split; [lia|done].
    + destruct (normalize_spec (Zpos n) e ltac:(lia) ltac:(lia)) as (m' & e' & Hr & Hb & He' & Hrt).
      { rewrite HN. assert (2 ^ 149 < 2 ^ 200) by (apply pow2_lt; lia). nia. }
      rewrite Hr. split; [done|]. right. cbn [Float32.units].
      rewrite Z.mul_1_l, <- HN. split; [nia|done].
    + nia.
Qed.

Lemma rounded_le_one (v : Z) (r : float) :
  rounded v r -> v <= 2 ^ 149 -> Float32.units r <= 2 ^ 149.
Proof.
  pose proof (pow2_pos 149 ltac:(lia)) as H149.
  intros [[_ Hz]|[Hv Hr]] Hle; [rewrite Hz; lia|]. by apply (rounds_to_le_one v).
Qed.

Lemma rounded_gt_one (v : Z) (r : float) :
  rounded v r -> 2 ^ 149 < Float32.units r -> 2 ^ 149 + 2 ^ 125 < v.
Proof.
  pose proof (pow2_pos 149 ltac:(lia)) as H149.
  intros [[_ Hz]|[Hv Hr]] Hgt; [rewrite Hz in Hgt; lia|].
  destruct (Z.le_gt_cases v (2 ^ 149)) as [Hle|Hgt1].
  { pose proof (rounds_to_le_one v _ Hr ltac:(lia)). lia. }
  destruct (Z.le_gt_cases v (2 ^ 149 + 2 ^ 125)) as [Hle|Hgt2]; [|done].
  pose proof (rounds_to_above_one v _ Hr ltac:(lia)). lia.
Qed.

(** From 1/2 on, the binary32 values are multiples of 2^-24. *)
Lemma units_multiple (x : float) :
  Float32.nonneg_finite x = true -> 2 ^ 148 <= Float32.units x ->
  exists c, Float32.units x = c * 2 ^ 125.
Proof.
  destruct x as [| | |[] m e]; try done; cbn [Float32.nonneg_finite Float32.units].
  intros Hb Hle. rewrite Z.mul_1_l in *.
  pose proof (bounded_digits _ _ Hb) as (He & Hd & _).
  pose proof (digits2_pos_spec m) as Hm.
  assert (Zpos m < 2 ^ 24) as Hm24.
  { eapply Z.lt_le_trans; [apply Hm|]. apply pow2_le. lia. }
  assert (124 < e + 149) as He'.
  { apply pow2_lt_inv; [lia|].
    pose proof (pow2_pos (e + 149) ltac:(lia)).
    change (2 ^ 148) with (2 ^ 24 * 2 ^ 124) in Hle.
    assert (0 < 2 ^ 124) by (apply pow2_pos; lia).
    assert (0 < 2 ^ 24) by (apply pow2_pos; lia). nia. }
  exists (Zpos m * 2 ^ (e + 149 - 125)).
  rewrite <- Z.mul_assoc, <- Z.pow_add_r by lia. do 2 f_equal. lia.
Qed.

(** [1.0f - x] for [x] in [0, 1]: exact when [x >= 1/2], within 2^-25 of
    the difference otherwise. *)
Lemma sub_one_units (x : float) :
  Float32.nonneg_finite x = true -> Float32.units x <= 2 ^ 149 ->
  let u := Float32.units (Float32.sub Float32.one x) in
  (2 ^ 148 <= Float32.units x -> u = 2 ^ 149 - Float32.units x) /\
  - 2 ^ 124 <= u - (2 ^ 149 - Float32.units x) <= 2 ^ 124.
Proof.
  intros Hx Hle. cbn zeta.
  pose proof (units_nonneg x Hx) as H0.
  destruct (sub_one_spec x Hx Hle) as [_ Hr]. unfold rounded in Hr.
  set (u := Float32.units (Float32.sub Float32.one x)) in *.
  set (v := Float32.units x) in *.
  assert (0 < 2 ^ 124) as H124 by (apply pow2_pos; lia).
  assert (2 ^ 124 < 2 ^ 148) as H148 by (apply pow2_lt; lia).
  assert (2 ^ 149 = 2 * 2 ^ 148) as E149 by reflexivity.
  destruct (Z.le_gt_cases (2 ^ 148) v) as [Hhalf|Hsmall].
  - assert (u = 2 ^ 149 - v) as ->; [|lia].
    destruct Hr as [[Hv ->]|[Hv Hr]]; [lia|].
    destruct (units_multiple x Hx Hhalf) as [c Hc]. fold v in Hc.
    apply (rounds_to_exact _ _ (16777216 - c) Hr); [lia|].
    rewrite Hc. change (2 ^ 149) with (16777216 * 2 ^ 125). ring.
  - split; [lia|]. destruct Hr as [[Hv ->]|[Hv Hr]]; [lia|].
    apply rounds_to_error in Hr; lia.
Qed.

(** Up to 1 the rounding error is at most 2^-25. *)
Lemma rounds_to_error_le (v u : Z) :
  rounds_to v u -> 0 < v <= 2 ^ 149 -> - 2 ^ 124 <= u - v <= 2 ^ 124.
Proof.
  intros Hr Hv.
  assert (0 < 2 ^ 124) as H124 by (apply pow2_pos; lia).
  destruct (Z.le_gt_cases (2 ^ 148) v) as [Hhi|Hlo].
  { apply rounds_to_error; [done|lia]. }
  destruct Hr as (q & k & Hk & -> & Hlt & Hge & Herr & _).
  destruct (Z.eq_dec k 0) as [->|Hk0].
  { change (2 ^ 0) with 1 in *. lia. }
  assert (k + 23 < 148) as Hk'.
  { apply pow2_lt_inv; [lia|]. specialize (Hge ltac:(lia)). lia. }
  assert (2 ^ k <= 2 ^ 124) by (apply pow2_le; lia).
  lia.
Qed.

(** A sum above 1 that rounds to 1 or below is within 2^-24 of 1 and
    rounds to 1. *)
Lemma rounds_to_back (v u : Z) :
  rounds_to v u -> 2 ^ 149 < v <= 2 ^ 150 -> u <= 2 ^ 149 ->
  u = 2 ^ 149 /\ v <= 2 ^ 149 + 2 ^ 125.
Proof.
  intros (q & k & Hk & -> & Hlt & Hge & Herr & _) Hv Hu.
  assert (149 < k + 24) as Hk1 by (apply pow2_lt_inv; lia).
  assert (k + 23 <= 150) as Hk2.
  { apply pow2_le_inv; [lia|]. specialize (Hge ltac:(lia)). lia. }
  assert (k = 126 \/ k = 127) as [->| ->] by lia.
  - change (2 ^ 149) with (8388608 * 2 ^ 126) in *.
    change (2 ^ 126) with (2 * 2 ^ 125) in *.
    assert (0 < 2 ^ 125) by (apply pow2_pos; lia).
    set (h := 2 ^ 125) in *.
    assert (q = 8388608) as -> by nia. lia.
  - specialize (Hge ltac:(lia)). change (127 + 23) with 150 in Hge.
    assert (v = 2 ^ 150) as -> by lia.
    change (2 ^ 150) with (8388608 * 2 ^ 127) in *.
    change (2 ^ 149) with (4194304 * 2 ^ 127) in *.
    assert (0 < 2 ^ 127) by (apply pow2_pos; lia).
    set (g := 2 ^ 127) in *. nia.
Qed.

Lemma rounded_error (v : Z) (r : float) :
  rounded v r -> v <= 2 ^ 149 -> - 2 ^ 124 <= Float32.units r - v <= 2 ^ 124.
Proof.
  assert (0 < 2 ^ 124) as H124 by (apply pow2_pos; lia).
  intros [[-> Hz]|[Hv Hr]] Hle; [rewrite Hz; lia|].
  apply rounds_to_error_le; [done|lia].
Qed.

(** The weights of a random sample drawn from [0, 1]. *)
Lemma random_weights_ok (a b : float) :
  Float32.in_unit a = true -> Float32.in_unit b = true ->
  weights_ok (random_weights a b).
Proof.
  intros [Hna HA]%in_unit_spec [Hnb HB]%in_unit_spec.
  assert (0 < 2 ^ 124) as H124 by (apply pow2_pos; lia).
  assert (2 ^ 125 = 2 * 2 ^ 124) as E125 by reflexivity.
  assert (2 ^ 148 = 16777216 * 2 ^ 124) as E148 by reflexivity.
  assert (2 ^ 149 = 2 * 2 ^ 148) as E149 by reflexivity.
  assert (2 ^ 150 = 2 * 2 ^ 149) as E150 by reflexivity.
  assert (2 ^ 150 < 2 ^ 200) as E200 by (apply pow2_lt; lia).
  destruct (add_spec a b Hna Hnb ltac:(lia)) as [Hns Hrs].
  unfold random_weights.
  destruct (Float32.gtb (Float32.add a b) Float32.one) eqn:Hgt.
  - apply gtb_one in Hgt; [|done].
    apply (rounded_gt_one _ _ Hrs) in Hgt.
    destruct (sub_one_spec a Hna ltac:(lia)) as [Hna' _].
    destruct (sub_one_spec b Hnb ltac:(lia)) as [Hnb' _].
    destruct (sub_one_units a Hna ltac:(lia)) as [Hea Hra].
    destruct (sub_one_units b Hnb ltac:(lia)) as [Heb Hrb].
    pose proof (units_nonneg _ Hna') as H0a. pose proof (units_nonneg _ Hnb') as H0b.
    set (a' := Float32.sub Float32.one a) in *.
    set (b' := Float32.sub Float32.one b) in *.
    assert (Float32.units a' + Float32.units b' < 2 ^ 149) as Hsum.
    { destruct (Z.le_gt_cases (2 ^ 148) (Float32.units a)) as [Ha2|Ha2];
        destruct (Z.le_gt_cases (2 ^ 148) (Float32.units b)) as [Hb2|Hb2];
        try specialize (Hea Ha2); try specialize (Heb Hb2); lia. }
    destruct (add_spec a' b' Hna' Hnb' ltac:(lia)) as [Hns' Hrs'].
    pose proof (rounded_le_one _ _ Hrs' ltac:(lia)) as Hs1.
    pose proof (rounded_error _ _ Hrs' ltac:(lia)) as Hse.
    destruct (sub_one_spec _ Hns' Hs1) as [Hn0 _].
    destruct (sub_one_units _ Hns' Hs1) as [_ Hr0].
    repeat split; try by apply nonneg_finite_geb.
    + lia.
    + lia.
  - assert (Float32.units (Float32.add a b) <= 2 ^ 149) as Hs1.
    { destruct (Z.le_gt_cases (Float32.units (Float32.add a b)) (2 ^ 149)); [done|].
      assert (Float32.gtb (Float32.add a b) Float32.one = true) by by apply gtb_one.
      congruence. }
    destruct (sub_one_spec _ Hns Hs1) as [Hn0 _].
    destruct (sub_one_units _ Hns Hs1) as [He0 Hr0].
    repeat split; try by apply nonneg_finite_geb.
    + destruct (Z.le_gt_cases (Float32.units a + Float32.units b) (2 ^ 149)) as [Hle|Hgt1].
      * pose proof (rounded_error _ _ Hrs Hle). lia.
      * destruct Hrs as [[Hv _]|[_ Hrt]]; [lia|].
        apply rounds_to_back in Hrt as [Hu Hv]; [|lia|done].
        specialize (He0 ltac:(lia)). lia.
    + destruct (Z.le_gt_cases (Float32.units a + Float32.units b) (2 ^ 149)) as [Hle|Hgt1].
      * pose proof (rounded_error _ _ Hrs Hle). lia.
      * destruct Hrs as [[Hv _]|[_ Hrt]]; [lia|].
        apply rounds_to_back in Hrt as [Hu Hv]; [|lia|done].
        specialize (He0 ltac:(lia)). lia.
Qed.

(** ** Evaluation of a sample *)

Section Eval.
Implicit Types (dm : DerivedMesh) (w : float3) (p : MVert).

Lemma index_in_range dm (i : N) p :
  mverts dm !! N.to_nat i = Some p ->
  (Z.to_N (getNumVerts dm) <=? i)%N = false.
Proof.
  intros Hp%lookup_lt_Some. unfold getNumVerts. apply N.leb_gt. lia.
Qed.

Lemma madd3_weighted_sum w a1 a2 a3 :
  let '(w0, w1, w2) := w in
  BLI_math.madd_v3_v3fl
    (BLI_math.madd_v3_v3fl (BLI_math.madd_v3_v3fl BLI_math.zero_v3 a1 w0) a2 w1)
    a3 w2 = weighted_sum w a1 a2 a3.
Proof. by destruct w as [[??]?], a1 as [[??]?], a2 as [[??]?], a3 as [[??]?]. Qed.

(** The evaluation when the three indices are in range, as the code
    accumulates it. *)
Lemma eval_in_range dm i0 i1 i2 (w0 w1 w2 : float) p1 p2 p3 :
  mverts dm !! N.to_nat i0 = Some p1 ->
  mverts dm !! N.to_nat i1 = Some p2 ->
  mverts dm !! N.to_nat i2 = Some p3 ->
  BKE_mesh_sample_eval dm {| orig_verts := (i0, i1, i2); orig_weights := (w0, w1, w2) |} =
  Some (true,
        BLI_math.madd_v3_v3fl
          (BLI_math.madd_v3_v3fl
             (BLI_math.madd_v3_v3fl BLI_math.zero_v3 (co p1) w0) (co p2) w1)
          (co p3) w2,
        (BLI_math.normalize_v3
           (BLI_math.madd_v3_v3fl
              (BLI_math.madd_v3_v3fl
                 (BLI_math.madd_v3_v3fl BLI_math.zero_v3 (vert_normal p1) w0)
                 (vert_normal p2) w1)
              (vert_normal p3) w2)).1).
Proof.
  intros H1 H2 H3. unfold BKE_mesh_sample_eval. cbn [orig_verts orig_weights].
  rewrite (index_in_range _ _ _ H1), (index_in_range _ _ _ H2), (index_in_range _ _ _ H3).
  cbn [orb]. unfold getVertArray. by rewrite H1, H2, H3.
Qed.
End Eval.

(** C1, as the specification states it, fails: the returned normal is not the
    weighted sum of the three vertex normals.  On the example triangle with
    the weights (0.5, 0.25, 0.25) all three indices are in range and the
    position is the weighted sum, yet the normal differs from the weighted
    sum of the normals. *)
Lemma normal_is_not_weighted_sum :
  let dm := Examples.triangle in
  let w := (Examples.half, Examples.quarter, Examples.quarter) in
  let sample := {| orig_verts := (0, 1, 2)%N; orig_weights := w |} in
  exists p1 p2 p3 loc nor,
    mverts dm !! 0%nat = Some p1 /\ mverts dm !! 1%nat = Some p2 /\
    mverts dm !! 2%nat = Some p3 /\
    BKE_mesh_sample_eval dm sample = Some (true, loc, nor) /\
    loc = weighted_sum w (co p1) (co p2) (co p3) /\
    nor <> weighted_sum w (vert_normal p1) (vert_normal p2) (vert_normal p3).
Proof.
  cbn zeta. do 5 eexists. repeat split; try reflexivity.
  vm_compute. discriminate.
Qed.

(** C1, amended: for every sample whose three vertex indices are in range,
    the evaluation returns true, the position is the single-precision
    weighted sum of the three vertex positions, and the normal is the
    weighted sum of the three vertex normals after [normalize_v3]. *)
Theorem eval_weighted_sum dm i0 i1 i2 w p1 p2 p3 :
  mverts dm !! N.to_nat i0 = Some p1 ->
  mverts dm !! N.to_nat i1 = Some p2 ->
  mverts dm !! N.to_nat i2 = Some p3 ->
  BKE_mesh_sample_eval dm {| orig_verts := (i0, i1, i2); orig_weights := w |} =
  Some (true,
        weighted_sum w (co p1) (co p2) (co p3),
        (BLI_math.normalize_v3
           (weighted_sum w (vert_normal p1) (vert_normal p2) (vert_normal p3))).1).
Proof.
  intros H1 H2 H3.
  pose proof (madd3_weighted_sum w (co p1) (co p2) (co p3)) as Hloc.
  pose proof (madd3_weighted_sum w (vert_normal p1) (vert_normal p2) (vert_normal p3))
    as Hnor.
  destruct w as [[w0 w1] w2].
  rewrite (eval_in_range dm i0 i1 i2 w0 w1 w2 p1 p2 p3 H1 H2 H3).
  by rewrite Hloc, Hnor.
Qed.

Lemma eval_weighted_sum_witness :
  let w := (Examples.half, Examples.quarter, Examples.quarter) in
  let p1 := Examples.vert 1 2 3 (23170, 23170, 0) in
  let p2 := Examples.vert 4 5 6 (0, 32767, 0) in
  let p3 := Examples.vert 7 8 9 (0, 0, 32767) in
  BKE_mesh_sample_eval Examples.triangle
    {| orig_verts := (0, 1, 2)%N; orig_weights := w |} =
  Some (true,
        weighted_sum w (co p1) (co p2) (co p3),
        (BLI_math.normalize_v3
           (weighted_sum w (vert_normal p1) (vert_normal p2) (vert_normal p3))).1).
Proof. cbn zeta. apply eval_weighted_sum; reflexivity. Defined.

(** C8: when one of the three vertex indices is not below the vertex count of
    the mesh, the evaluation returns false and leaves (0,0,0) in both the
    position and the normal. *)
Theorem eval_out_of_range dm i0 i1 i2 w :
  getNumVerts dm <= Z.of_N i0 \/ getNumVerts dm <= Z.of_N i1 \/
  getNumVerts dm <= Z.of_N i2 ->
  BKE_mesh_sample_eval dm {| orig_verts := (i0, i1, i2); orig_weights := w |} =
  Some (false,
        (Float32.zero, Float32.zero, Float32.zero),
        (Float32.zero, Float32.zero, Float32.zero)).
Proof.
  intros Hout. unfold BKE_mesh_sample_eval. cbn [orig_verts orig_weights].
  destruct w as [[w0 w1] w2].
  assert ((Z.to_N (getNumVerts dm) <=? i0)%N || (Z.to_N (getNumVerts dm) <=? i1)%N
          || (Z.to_N (getNumVerts dm) <=? i2)%N = true) as ->; [|done].
  rewrite !orb_true_iff, !N.leb_le. unfold getNumVerts in *. lia.
Qed.

Lemma eval_out_of_range_witness :
  BKE_mesh_sample_eval Examples.triangle
    {| orig_verts := (0, 1, 3)%N;
       orig_weights := (Examples.half, Examples.quarter, Examples.quarter) |} =
  Some (false,
        (Float32.zero, Float32.zero, Float32.zero),
        (Float32.zero, Float32.zero, Float32.zero)).
Proof. apply eval_out_of_range. right; right. vm_compute. discriminate. Defined.

(** ** Evaluation at a vertex *)

Section AtVertex.
Import Float32 Float32_facts.

Lemma in_Z_range n a s : a <= s < a + Z.of_nat n -> In s (Z_range n a).
Proof.
  revert a. induction n as [|n IH]; intros a Hs; [lia|].
  cbn [Z_range]. destruct (decide (a = s)) as [->|]; [by left|].
  right. apply IH. lia.
Qed.

Lemma inv_32767 : div one (of_Z 32767) = S754_finite false 8388864 (-38).
Proof. vm_compute. reflexivity. Qed.

Lemma all_shorts_ok :
  forallb (fun s => let x := mul (of_Z s) (S754_finite false 8388864 (-38)) in
                    valid x && is_finite x)
          all_shorts = true.
Proof. vm_compute. reflexivity. Qed.

Lemma short_to_float_ok s :
  -32768 <= s <= 32767 ->
  valid (short_to_float s) = true /\ is_finite (short_to_float s) = true.
Proof.
  intros Hs. unfold short_to_float. rewrite inv_32767. apply andb_true_iff.
  apply (proj1 (forallb_forall _ _) all_shorts_ok).
  apply in_Z_range. lia.
Qed.

Lemma vert_normal_ok p :
  short3_in_range (no p) ->
  float3_all valid (vert_normal p) = true /\
  float3_all is_finite (vert_normal p) = true.
Proof.
  unfold vert_normal. destruct (no p) as [[x y] z]. intros (Hx & Hy & Hz).
  destruct (short_to_float_ok x Hx) as [Vx Fx], (short_to_float_ok y Hy) as [Vy Fy],
    (short_to_float_ok z Hz) as [Vz Fz].
  unfold short_to_float in *. cbn [BLI_math.normal_short_to_float_v3 float3_all].
  by rewrite Vx, Vy, Vz, Fx, Fy, Fz.
Qed.

(** The weighted sum of three points under the weights of a vertex is
    that vertex's point, up to the sign of zeros. *)
Lemma weighted_sum_at_vertex k w a0 a1 a2 ak :
  weight_one_at k w ->
  [a0; a1; a2] !! k = Some ak ->
  float3_all valid ak = true ->
  (forall j a, j <> k -> [a0; a1; a2] !! j = Some a -> float3_all is_finite a = true) ->
  weighted_sum w a0 a1 a2 = float3_map unsigned_zero ak.
Proof.
  intros Hw Hk Hv Hfin.
  destruct w as [[w0 w1] w2], a0 as [[x0 y0] z0], a1 as [[x1 y1] z1],
    a2 as [[x2 y2] z2].
  destruct k as [|[|[|k]]]; cbn in Hw; [| | |done];
    injection Hk as <-; cbn [float3_all] in Hv;
    apply andb_true_iff in Hv as [[Vx Vy]%andb_true_iff Vz].
  - destruct Hw as (-> & Z1 & Z2).
    pose proof (Hfin 1%nat _ ltac:(lia) eq_refl) as [[??]%andb_true_iff ?]%andb_true_iff.
    pose proof (Hfin 2%nat _ ltac:(lia) eq_refl) as [[??]%andb_true_iff ?]%andb_true_iff.
    cbn [weighted_sum float3_map]. by rewrite !sum_unit_0.
  - destruct Hw as (Z0 & -> & Z2).
    pose proof (Hfin 0%nat _ ltac:(lia) eq_refl) as [[??]%andb_true_iff ?]%andb_true_iff.
    pose proof (Hfin 2%nat _ ltac:(lia) eq_refl) as [[??]%andb_true_iff ?]%andb_true_iff.
    cbn [weighted_sum float3_map]. by rewrite !sum_unit_1.
  - destruct Hw as (Z0 & Z1 & ->).
    pose proof (Hfin 0%nat _ ltac:(lia) eq_refl) as [[??]%andb_true_iff ?]%andb_true_iff.
    pose proof (Hfin 1%nat _ ltac:(lia) eq_refl) as [[??]%andb_true_iff ?]%andb_true_iff.
    cbn [weighted_sum float3_map]. by rewrite !sum_unit_2.
Qed.
End AtVertex.

(** C2, as the specification states it, fails in four ways, each shown on an
    example with weight 1 at vertex 0 and weight 0 at the other two:
    the returned normal went through [normalize_v3] and differs from the
    vertex normal even for a normal of unit length; when another index of
    the sample is out of range the result is false and (0,0,0); an infinite
    coordinate at another vertex turns the position into a NaN; a negative
    zero coordinate comes back as a positive zero. *)
Lemma vertex_eval_not_exact :
  let zero3 := (Float32.zero, Float32.zero, Float32.zero) in
  let at0 i1 i2 := Examples.sample_at 0 i1 i2 Float32.one Float32.zero Float32.zero in
  (exists p loc nor,
     mverts Examples.triangle !! 0%nat = Some p /\
     BKE_mesh_sample_eval Examples.triangle (at0 1 2)%N = Some (true, loc, nor) /\
     loc = co p /\ nor <> vert_normal p) /\
  (exists p,
     mverts Examples.triangle !! 0%nat = Some p /\
     BKE_mesh_sample_eval Examples.triangle (at0 7 7)%N = Some (false, zero3, zero3) /\
     co p <> zero3) /\
  (exists p loc nor,
     mverts Examples.triangle_inf !! 0%nat = Some p /\
     BKE_mesh_sample_eval Examples.triangle_inf (at0 1 2)%N = Some (true, loc, nor) /\
     loc <> co p) /\
  (exists p loc nor,
     mverts Examples.triangle_negzero !! 0%nat = Some p /\
     BKE_mesh_sample_eval Examples.triangle_negzero (at0 1 2)%N = Some (true, loc, nor) /\
     loc <> co p).
Proof.
  cbn zeta. repeat split.
  - do 3 eexists. repeat split; try reflexivity. vm_compute. discriminate.
  - eexists. repeat split; try reflexivity. vm_compute. discriminate.
  - do 3 eexists. repeat split; try reflexivity. vm_compute. discriminate.
  - do 3 eexists. repeat split; try reflexivity. vm_compute. discriminate.
Qed.

(** C2, amended: for every sample whose three vertex indices are in range,
    with weight 1 at one of them, vertex k, and a zero weight at the other
    two, whose other two vertices have finite coordinates, the evaluation
    returns true, the position of vertex k and the normal of vertex k after
    [normalize_v3], a negative zero component being read as a positive zero.
    (The coordinates are binary32 values and the normals are shorts.) *)
Theorem eval_at_vertex dm i0 i1 i2 w p0 p1 p2 k pk :
  mverts dm !! N.to_nat i0 = Some p0 ->
  mverts dm !! N.to_nat i1 = Some p1 ->
  mverts dm !! N.to_nat i2 = Some p2 ->
  weight_one_at k w ->
  [p0; p1; p2] !! k = Some pk ->
  float3_all Float32.valid (co pk) = true ->
  (forall j p, j <> k -> [p0; p1; p2] !! j = Some p ->
               float3_all Float32.is_finite (co p) = true) ->
  (forall j p, [p0; p1; p2] !! j = Some p -> short3_in_range (no p)) ->
  BKE_mesh_sample_eval dm {| orig_verts := (i0, i1, i2); orig_weights := w |} =
  Some (true,
        float3_map Float32.unsigned_zero (co pk),
        (BLI_math.normalize_v3
           (float3_map Float32.unsigned_zero (vert_normal pk))).1).
Proof.
  intros H0 H1 H2 Hw Hk Hv Hfin Hno.
  pose proof (madd3_weighted_sum w (co p0) (co p1) (co p2)) as Hloc.
  pose proof (madd3_weighted_sum w (vert_normal p0) (vert_normal p1) (vert_normal p2))
    as Hnor.
  destruct w as [[w0 w1] w2].
  rewrite (eval_in_range dm i0 i1 i2 w0 w1 w2 p0 p1 p2 H0 H1 H2), Hloc, Hnor.
  set (w := (w0, w1, w2)) in *.
  rewrite (weighted_sum_at_vertex k w (co p0) (co p1) (co p2) (co pk)); [|done| |done|].
  - rewrite (weighted_sum_at_vertex k w (vert_normal p0) (vert_normal p1)
               (vert_normal p2) (vert_normal pk)); [done|done| | |].
    + change ((vert_normal <$> [p0; p1; p2]) !! k = Some (vert_normal pk)).
      by rewrite list_lookup_fmap, Hk.
    + apply vert_normal_ok. eauto.
    + intros j a _ Hj.
      change ((vert_normal <$> [p0; p1; p2]) !! j = Some a) in Hj.
      rewrite list_lookup_fmap in Hj.
      destruct ([p0; p1; p2] !! j) as [p|] eqn:Hp; [|done].
      injection Hj as <-. apply vert_normal_ok. eauto.
  - change ((co <$> [p0; p1; p2]) !! k = Some (co pk)). by rewrite list_lookup_fmap, Hk.
  - intros j a Hjk Hj.
    change ((co <$> [p0; p1; p2]) !! j = Some a) in Hj.
    rewrite list_lookup_fmap in Hj.
    destruct ([p0; p1; p2] !! j) as [p|] eqn:Hp; [|done].
    injection Hj as <-. eauto.
Qed.

Lemma eval_at_vertex_witness :
  BKE_mesh_sample_eval Examples.triangle
    (Examples.sample_at 0 1 2 Float32.zero Float32.one Float32.zero) =
  Some (true,
        (Float32.of_Z 4, Float32.of_Z 5, Float32.of_Z 6),
        (Float32.zero, Float32.one, Float32.zero)).
Proof.
  apply (eval_at_vertex Examples.triangle 0 1 2 _
           (Examples.vert 1 2 3 (23170, 23170, 0))
           (Examples.vert 4 5 6 (0, 32767, 0))
           (Examples.vert 7 8 9 (0, 0, 32767))
           1%nat (Examples.vert 4 5 6 (0, 32767, 0))); try reflexivity.
  - by cbn.
  - intros [|[|[|j]]] p Hj Hp; try done; by injection Hp as <-.
  - intros [|[|[|j]]] p Hp; try done; injection Hp as <-; cbn; lia.
Defined.


(** ** Random sampling into an array *)

Section RandomArray.
Context `{BLI_rand}.
Implicit Types (d : list MSurfaceSample) (rng : RNG) (mfaces : list MFace).

Lemma store_array_below d c i s :
  0 <= i < c -> c <= Z.of_nat (length d) ->
  mesh_sample_store_array_sample d c i s = Some (true, <[Z.to_nat i := s]> d).
Proof.
  intros Hi Hc. unfold mesh_sample_store_array_sample, array_set.
  destruct (Z.leb_spec c i); [lia|].
  destruct (Z.leb_spec 0 i); [|lia].
  by destruct (Z.ltb_spec i (Z.of_nat (length d))); [|lia].
Qed.

Lemma store_array_full d c i s :
  c <= i -> mesh_sample_store_array_sample d c i s = Some (false, d).
Proof.
  intros Hi. unfold mesh_sample_store_array_sample.
  by destruct (Z.leb_spec c i); [|lia].
Qed.

Lemma overwrite_cons d (i : nat) s l :
  (i < length d)%nat ->
  overwrite (<[i := s]> d) (S i) l = overwrite d i (s :: l).
Proof.
  intros Hi. unfold overwrite.
  rewrite take_S_r with (x := s) by by apply list_lookup_insert_eq.
  rewrite take_insert_ge by lia.
  rewrite drop_insert_lt by lia.
  cbn [length]. rewrite <- app_assoc. cbn [app].
  by replace (i + S (length l))%nat with (S i + length l)%nat by lia.
Qed.

Lemma overwrite_nil d i : overwrite d i [] = d.
Proof. unfold overwrite. cbn. by rewrite Nat.add_0_r, take_drop. Qed.

(** The loop on an array of capacity [c]: it stores the samples of the
    iterations that fit below [c], and when iterations are left after
    that it builds one more sample, fails to store it and stops. *)
Lemma generate_random_loop_array n d0 c mfaces totfaces i stored rng d :
  0 <= i -> c <= Z.of_nat (length d) ->
  generate_random_loop n (BKE_mesh_sample_storage_array d0 c) mfaces totfaces
    i stored rng d =
  let k := Nat.min n (Z.to_nat (c - i)) in
  '(l, rng) ← random_samples k mfaces totfaces rng;
  let d := overwrite d (Z.to_nat i) l in
  if (n <=? k)%nat then Some (i + Z.of_nat k, stored + Z.of_nat k, rng, d)
  else
    '(_, rng) ← random_sample mfaces totfaces rng;
    Some (i + Z.of_nat k, stored + Z.of_nat k, rng, d).
Proof.
  revert i stored rng d. induction n as [|n IH]; intros i stored rng d Hi Hc.
  { cbn. by rewrite overwrite_nil, !Z.add_0_r. }
  cbn [generate_random_loop BKE_mesh_sample_storage_array store_sample capacity].
  destruct (Z.le_gt_cases c i) as [Hfull|Hroom].
  - replace (Z.to_nat (c - i)) with 0%nat by lia.
    cbn [Nat.min random_samples mbind option_bind mret option_ret Nat.leb length].
    cbn. rewrite overwrite_nil, !Z.add_0_r.
    destruct (random_sample mfaces totfaces rng) as [[s rng1]|]; [|done].
    cbn. by rewrite store_array_full.
  - replace (Z.to_nat (c - i)) with (S (Z.to_nat (c - (i + 1)))) by lia.
    cbn [Nat.min random_samples Nat.leb].
    destruct (random_sample mfaces totfaces rng) as [[s rng1]|]; [|done].
    cbn [mbind option_bind].
    rewrite store_array_below by lia. cbn [mbind option_bind].
    rewrite IH by (rewrite ?length_insert; lia).
    cbn zeta.
    destruct (random_samples _ mfaces totfaces rng1) as [[l rng2]|]; [|done].
    cbn [mbind option_bind].
    replace (Z.to_nat (i + 1)) with (S (Z.to_nat i)) by lia.
    rewrite overwrite_cons by lia.
    replace (i + 1 + Z.of_nat (n `min` Z.to_nat (c - (i + 1))))
      with (i + Z.of_nat (S (n `min` Z.to_nat (c - (i + 1))))) by lia.
    replace (stored + 1 + Z.of_nat (n `min` Z.to_nat (c - (i + 1))))
      with (stored + Z.of_nat (S (n `min` Z.to_nat (c - (i + 1))))) by lia.
    done.
Qed.

(** [BKE_mesh_sample_generate_random] on an array of capacity [c]. *)
Lemma generate_random_array d c dm seed totsample :
  c <= Z.of_nat (length d) ->
  BKE_mesh_sample_generate_random (BKE_mesh_sample_storage_array d c) dm seed totsample =
  let n := Z.to_nat totsample in
  let k := Nat.min n (Z.to_nat c) in
  '(l, rng) ← random_samples k (mfaces dm) (getNumTessFaces dm) (BLI_rng_new seed);
  let d := overwrite d 0 l in
  if (n <=? k)%nat then Some (Z.of_nat k, d)
  else
    '(_, rng) ← random_sample (mfaces dm) (getNumTessFaces dm) rng;
    Some (Z.of_nat k, d).
Proof.
  intros Hc. unfold BKE_mesh_sample_generate_random.
  cbn [data BKE_mesh_sample_storage_array]. unfold getTessFaceArray.
  rewrite generate_random_loop_array by lia. cbn zeta.
  rewrite Z.sub_0_r.
  destruct (random_samples _ _ _ _) as [[l rng]|]; [|done].
  cbn [mbind option_bind]. change (Z.to_nat 0) with 0%nat.
  destruct (_ <=? _)%nat; [done|].
  by destruct (random_sample _ _ _) as [[s rng']|].
Qed.

Lemma random_samples_length n mfaces totfaces rng l rng' :
  random_samples n mfaces totfaces rng = Some (l, rng') -> length l = n.
Proof.
  revert rng l rng'. induction n as [|n IH]; intros rng l rng' Hl.
  { by injection Hl as <- _. }
  cbn [random_samples] in Hl.
  destruct (random_sample _ _ _) as [[s rng1]|]; [|done]. cbn in Hl.
  destruct (random_samples n _ _ _) as [[l1 rng2]|] eqn:Hl1; [|done].
  injection Hl as <- _. cbn. f_equal. eauto.
Qed.

(** An iteration is defined on a mesh with a face. *)
Lemma random_sample_defined mfaces rng :
  rng_int_range -> mfaces <> [] ->
  is_Some (random_sample mfaces (Z.of_nat (length mfaces)) rng).
Proof.
  intros Hrng Hne. unfold random_sample.
  pose proof (Hrng rng) as Hr.
  destruct (BLI_rng_get_int rng) as [r rng1]. cbn [fst] in Hr.
  assert (0 < Z.of_nat (length mfaces)) as Hlen by (destruct mfaces; [done|cbn; lia]).
  unfold c_rem. destruct (Z.eqb_spec (Z.of_nat (length mfaces)) 0); [lia|].
  cbn [mbind option_bind].
  pose proof (Z.rem_bound_pos r (Z.of_nat (length mfaces)) ltac:(lia) Hlen) as Hk.
  unfold array_get. destruct (Z.ltb_spec (Z.rem r (Z.of_nat (length mfaces))) 0); [lia|].
  destruct (lookup_lt_is_Some_2 mfaces (Z.to_nat (Z.rem r (Z.of_nat (length mfaces))))
              ltac:(lia)) as [mface ->].
  cbn [mbind option_bind].
  destruct (v4 mface =? 0)%N; [|destruct (BLI_rng_get_int rng1)];
    repeat destruct (BLI_rng_get_float _); done.
Qed.

Lemma random_samples_defined n mfaces rng :
  rng_int_range -> mfaces <> [] ->
  is_Some (random_samples n mfaces (Z.of_nat (length mfaces)) rng).
Proof.
  intros Hrng Hne. revert rng. induction n as [|n IH]; intros rng; [done|].
  cbn [random_samples].
  destruct (random_sample_defined mfaces rng Hrng Hne) as [[s rng1] ->].
  cbn [mbind option_bind]. by destruct (IH rng1) as [[l rng2] ->].
Qed.

(** Without a face the first iteration is undefined. *)
Lemma random_sample_no_face rng : random_sample [] 0 rng = None.
Proof. unfold random_sample. by destruct (BLI_rng_get_int rng). Qed.

Lemma lookup_overwrite_ge d (l : list MSurfaceSample) (j : nat) :
  (length l <= j)%nat -> overwrite d 0 l !! j = d !! j.
Proof.
  intros Hj. unfold overwrite. simpl.
  rewrite lookup_app_r by lia. rewrite lookup_drop. f_equal. lia.
Qed.

Lemma length_overwrite d (l : list MSurfaceSample) :
  (length l <= length d)%nat -> length (overwrite d 0 l) = length d.
Proof.
  intros Hl. unfold overwrite. simpl.
  rewrite length_app, length_drop. lia.
Qed.

Lemma take_overwrite d (l : list MSurfaceSample) :
  take (length l) (overwrite d 0 l) = l.
Proof. unfold overwrite. simpl. by rewrite take_app_length. Qed.
End RandomArray.

(** The upstream generator draws non-negative integers below 2^31. *)
Lemma rand48_int_range : @rng_int_range Rand48.rand48.
Proof.
  intros X. cbn [BLI_rng_get_int Rand48.rand48 Rand48.rng_get_int fst].
  unfold Rand48.rng_step.
  change Rand48.MASK with (Z.ones 48). rewrite Z.land_ones by lia.
  rewrite Z.shiftr_div_pow2 by lia.
  pose proof (Z.mod_pos_bound ((Rand48.MULTIPLIER * X + Rand48.ADDEND) mod 2 ^ 64)
                (2 ^ 48) ltac:(lia)) as Hm.
  split; [apply Z.div_pos; lia|].
  apply Z.div_lt_upper_bound; lia.
Qed.

(** C4: with [totsample = 0], whatever the mesh and the storage, the random
    generation returns 0 and leaves the storage data as it was. *)
Theorem generate_random_zero `{BLI_rand} {D : Type}
    (dst : MSurfaceSampleStorage D) (dm : DerivedMesh) (seed : N) :
  BKE_mesh_sample_generate_random dst dm seed 0 = Some (0, data dst).
Proof.
  unfold BKE_mesh_sample_generate_random.
  change (Z.to_nat 0) with 0%nat. by cbn [generate_random_loop mbind option_bind].
Qed.

(** C3: on a mesh with at least one tessellated face and an array storage of
    capacity [c >= 0] (the array holding at least [c] entries), when
    [totsample > c] the random generation returns exactly [c]; its loop stops
    at the first failed store, with [i = c] and in the state that [c + 1]
    iterations reach; and every array entry at an index [>= c] is as before.
    The draws of the generator are non-negative [int]s. *)
Theorem generate_random_over_capacity `{BLI_rand}
    (dm : DerivedMesh) (d : list MSurfaceSample) (c : Z) (seed : N) (totsample : Z) :
  rng_int_range ->
  mfaces dm <> [] ->
  0 <= c -> c <= Z.of_nat (length d) ->
  c < totsample ->
  let dst := BKE_mesh_sample_storage_array d c in
  exists rng' d',
    BKE_mesh_sample_generate_random dst dm seed totsample = Some (c, d') /\
    generate_random_loop (Z.to_nat totsample) dst (mfaces dm) (getNumTessFaces dm)
      0 0 (BLI_rng_new seed) d = Some (c, c, rng', d') /\
    generate_random_loop (Z.to_nat (c + 1)) dst (mfaces dm) (getNumTessFaces dm)
      0 0 (BLI_rng_new seed) d = Some (c, c, rng', d') /\
    (forall s, mesh_sample_store_array_sample d' c c s = Some (false, d')) /\
    length d' = length d /\
    (forall j : nat, c <= Z.of_nat j -> d' !! j = d !! j).
Proof.
  intros Hrng Hne Hc0 Hc Htot dst.
  destruct (random_samples_defined (Z.to_nat c) (mfaces dm) (BLI_rng_new seed) Hrng Hne)
    as [[l rng1] Hl].
  destruct (random_sample_defined (mfaces dm) rng1 Hrng Hne) as [[s rng2] Hs].
  pose proof (random_samples_length _ _ _ _ _ _ Hl) as Hlen.
  exists rng2, (overwrite d 0 l). repeat split.
  - unfold dst. rewrite generate_random_array by done. cbn zeta.
    replace (Z.to_nat totsample `min` Z.to_nat c)%nat with (Z.to_nat c) by lia.
    unfold getNumTessFaces. rewrite Hl. cbn [mbind option_bind].
    destruct (Nat.leb_spec (Z.to_nat totsample) (Z.to_nat c)); [lia|].
    rewrite Hs. cbn. do 2 f_equal. lia.
  - unfold dst. rewrite generate_random_loop_array by lia. cbn zeta.
    rewrite Z.sub_0_r.
    replace (Z.to_nat totsample `min` Z.to_nat c)%nat with (Z.to_nat c) by lia.
    unfold getNumTessFaces. rewrite Hl. cbn [mbind option_bind].
    destruct (Nat.leb_spec (Z.to_nat totsample) (Z.to_nat c)); [lia|].
    rewrite Hs. cbn. do 4 f_equal; lia.
  - unfold dst. rewrite generate_random_loop_array by lia. cbn zeta.
    rewrite Z.sub_0_r.
    replace (Z.to_nat (c + 1) `min` Z.to_nat c)%nat with (Z.to_nat c) by lia.
    unfold getNumTessFaces. rewrite Hl. cbn [mbind option_bind].
    destruct (Nat.leb_spec (Z.to_nat (c + 1)) (Z.to_nat c)); [lia|].
    rewrite Hs. cbn. do 4 f_equal; lia.
  - intros s'. by apply store_array_full.
  - apply length_overwrite. lia.
  - intros j Hj. apply lookup_overwrite_ge. lia.
Qed.

Lemma generate_random_over_capacity_witness :
  let d := [Examples.blank; Examples.blank; Examples.blank] in
  let dst := BKE_mesh_sample_storage_array d 2 in
  exists rng' d',
    BKE_mesh_sample_generate_random (H := Rand48.rand48) dst Examples.quad_tri 1 5
      = Some (2, d') /\
    generate_random_loop (H := Rand48.rand48) (Z.to_nat 5) dst (mfaces Examples.quad_tri)
      (getNumTessFaces Examples.quad_tri) 0 0 (BLI_rng_new 1) d = Some (2, 2, rng', d') /\
    generate_random_loop (H := Rand48.rand48) (Z.to_nat (2 + 1)) dst (mfaces Examples.quad_tri)
      (getNumTessFaces Examples.quad_tri) 0 0 (BLI_rng_new 1) d = Some (2, 2, rng', d') /\
    (forall s, mesh_sample_store_array_sample d' 2 2 s = Some (false, d')) /\
    length d' = length d /\
    (forall j : nat, 2 <= Z.of_nat j -> d' !! j = d !! j).
Proof.
  apply (generate_random_over_capacity (H := Rand48.rand48) Examples.quad_tri
           [Examples.blank; Examples.blank; Examples.blank] 2 1 5).
  - apply rand48_int_range.
  - discriminate.
  - lia.
  - cbn. lia.
  - lia.
Defined.

(** C6: the random generation is a function of the mesh, the capacity, the
    seed and [totsample]: two runs into arrays of the same capacity, whatever
    the arrays held before, return the same count and store the same
    samples (or are both undefined). *)
Theorem generate_random_deterministic `{BLI_rand}
    (dm : DerivedMesh) (c : Z) (seed : N) (totsample : Z) (d1 d2 : list MSurfaceSample) :
  c <= Z.of_nat (length d1) -> c <= Z.of_nat (length d2) ->
  stored_samples
    (BKE_mesh_sample_generate_random (BKE_mesh_sample_storage_array d1 c) dm seed totsample) =
  stored_samples
    (BKE_mesh_sample_generate_random (BKE_mesh_sample_storage_array d2 c) dm seed totsample).
Proof.
  intros H1 H2. rewrite !generate_random_array by done. cbn zeta.
  destruct (random_samples _ _ _ _) as [[l rng]|] eqn:Hl; [|done].
  apply random_samples_length in Hl.
  cbn [mbind option_bind].
  assert (forall d, stored_samples
            (Some (Z.of_nat (Z.to_nat totsample `min` Z.to_nat c), overwrite d 0 l)) =
          Some (Z.of_nat (Z.to_nat totsample `min` Z.to_nat c), l)) as Hst.
  { intros d. cbn. rewrite Nat2Z.id, <- Hl. by rewrite take_overwrite. }
  destruct (_ <=? _)%nat; [by rewrite !Hst|].
  destruct (random_sample _ _ _) as [[s rng']|]; [|done].
  cbn [mbind option_bind]. by rewrite !Hst.
Qed.

Lemma generate_random_deterministic_witness :
  stored_samples
    (BKE_mesh_sample_generate_random (H := Rand48.rand48)
       (BKE_mesh_sample_storage_array [Examples.blank; Examples.blank; Examples.blank] 2)
       Examples.quad_tri 7 5) =
  stored_samples
    (BKE_mesh_sample_generate_random (H := Rand48.rand48)
       (BKE_mesh_sample_storage_array
          [Examples.sample_at 0 1 2 Float32.one Float32.zero Float32.zero; Examples.blank] 2)
       Examples.quad_tri 7 5).
Proof.
  apply (generate_random_deterministic (H := Rand48.rand48)); cbn; lia.
Defined.

(** C10: with [totsample >= 1] the random generation needs a mesh with at
    least one tessellated face.  Without one the remainder by [totfaces] of
    the first iteration is undefined, whatever the storage; with one, on an
    array storage and a generator of non-negative [int]s, the call is
    defined. *)
Theorem generate_random_face_precondition `{BLI_rand}
    (dm : DerivedMesh) (seed : N) (totsample : Z) :
  1 <= totsample ->
  (forall (D : Type) (dst : MSurfaceSampleStorage D),
     getNumTessFaces dm = 0 ->
     BKE_mesh_sample_generate_random dst dm seed totsample = None) /\
  (forall (d : list MSurfaceSample) (c : Z),
     rng_int_range -> c <= Z.of_nat (length d) ->
     1 <= getNumTessFaces dm ->
     is_Some (BKE_mesh_sample_generate_random
                (BKE_mesh_sample_storage_array d c) dm seed totsample)).
Proof.
  intros Htot. split.
  - intros D dst Hnone. unfold BKE_mesh_sample_generate_random.
    destruct (Z.to_nat totsample) as [|n] eqn:Hn; [lia|].
    cbn [generate_random_loop]. unfold getTessFaceArray.
    unfold getNumTessFaces in *. destruct (mfaces dm); [|cbn in Hnone; lia].
    cbn [length]. change (Z.of_nat 0) with 0.
    by rewrite random_sample_no_face.
  - intros d c Hrng Hc Hface.
    assert (mfaces dm <> []) as Hne.
    { unfold getNumTessFaces in Hface. destruct (mfaces dm); [cbn in Hface; lia|done]. }
    rewrite generate_random_array by done. cbn zeta. unfold getNumTessFaces.
    destruct (random_samples_defined (Z.to_nat totsample `min` Z.to_nat c)
                (mfaces dm) (BLI_rng_new seed) Hrng Hne) as [[l rng1] ->].
    cbn [mbind option_bind].
    destruct (_ <=? _)%nat; [done|].
    by destruct (random_sample_defined (mfaces dm) rng1 Hrng Hne) as [[s rng2] ->].
Qed.

Lemma generate_random_face_precondition_witness :
  (forall (D : Type) (dst : MSurfaceSampleStorage D),
     getNumTessFaces Examples.no_faces = 0 ->
     BKE_mesh_sample_generate_random (H := Rand48.rand48) dst Examples.no_faces 3 1 = None) /\
  (forall (d : list MSurfaceSample) (c : Z),
     @rng_int_range Rand48.rand48 -> c <= Z.of_nat (length d) ->
     1 <= getNumTessFaces Examples.no_faces ->
     is_Some (BKE_mesh_sample_generate_random (H := Rand48.rand48)
                (BKE_mesh_sample_storage_array d c) Examples.no_faces 3 1)).
Proof.
  apply (generate_random_face_precondition (H := Rand48.rand48) Examples.no_faces 3 1).
  lia.
Defined.

(** ** Raycast sampling into an array *)

Section RaycastArray.
Context `{BLI_math_interp} `{BKE_bvhutils} {U : Type}.
Implicit Types (d : list MSurfaceSample) (ray_cb : MeshSampleRayCallback U).


Lemma take_pred_cons {A} (k : Z) (x : A) (l : list A) :
  0 < k -> take (Z.to_nat k) (x :: l) = x :: take (Z.to_nat (k - 1)) l.
Proof. intros Hk. by replace (Z.to_nat k) with (S (Z.to_nat (k - 1))) by lia. Qed.

Lemma take_nonpos {A} (k : Z) (l : list A) : k <= 0 -> take (Z.to_nat k) l = [].
Proof. intros Hk. by replace (Z.to_nat k) with 0%nat by lia. Qed.

(** The count of a defined run of the loop on an array of capacity [c]. *)
Lemma generate_raycast_loop_array n d0 c dm bvhdata ray_cb i stored u rs re d
    i' stored' u' d' :
  0 <= i -> c <= Z.of_nat (length d) ->
  generate_raycast_loop n (BKE_mesh_sample_storage_array d0 c) dm bvhdata ray_cb
    i stored u rs re d = Some (i', stored', u', d') ->
  stored' = stored +
    count_true (take (Z.to_nat (c - i)) (raycast_hits n dm bvhdata ray_cb u rs re)) /\
  length d' = length d.
Proof.
  revert i stored u rs re d.
  induction n as [|n IH]; intros i stored u rs re d Hi Hc Hrun.
  { injection Hrun as <- <- <- <-. cbn. rewrite take_nil. cbn. lia. }
  cbn [generate_raycast_loop raycast_hits] in *.
  destruct (ray_cb u rs re) as [[[ok rs1] re1] u1].
  assert (forall st, generate_raycast_loop n (BKE_mesh_sample_storage_array d0 c) dm
            bvhdata ray_cb (i + 1) st u1 rs1 re1 d = Some (i', stored', u', d') ->
          stored' = st + count_true (take (Z.to_nat (c - i))
                      (false :: raycast_hits n dm bvhdata ray_cb u1 rs1 re1)) /\
          length d' = length d) as Hskip.
  { intros st Hst. apply IH in Hst as [-> ->]; [|lia|done]. split; [|done].
    destruct (Z.le_gt_cases c i).
    - by rewrite !take_nonpos by lia.
    - rewrite take_pred_cons by lia. cbn [count_true].
      by replace (c - i - 1) with (c - (i + 1)) by lia. }
  destruct ok; [|by apply Hskip].
  cbn [andb].
  destruct (sample_bvh_raycast dm bvhdata rs1 re1) as [[s|]|]; [| by apply Hskip |done].
  cbn [mbind option_bind BKE_mesh_sample_storage_array store_sample capacity] in Hrun.
  destruct (Z.le_gt_cases c i).
  - rewrite store_array_full in Hrun by done. cbn in Hrun.
    injection Hrun as <- <- <- <-. rewrite take_nonpos by lia. cbn. lia.
  - rewrite store_array_below in Hrun by lia. cbn [mbind option_bind] in Hrun.
    apply IH in Hrun as [-> ->]; [|lia|rewrite length_insert; lia].
    rewrite length_insert. split; [|done].
    rewrite take_pred_cons by lia. cbn [count_true].
    replace (c - i - 1) with (c - (i + 1)) by lia. lia.
Qed.

(** The loop on an array is defined when each raycast is. *)
Lemma generate_raycast_loop_defined n d0 c dm bvhdata ray_cb i stored u rs re d :
  0 <= i -> c <= Z.of_nat (length d) ->
  (forall rs re, is_Some (sample_bvh_raycast dm bvhdata rs re)) ->
  is_Some (generate_raycast_loop n (BKE_mesh_sample_storage_array d0 c) dm bvhdata
             ray_cb i stored u rs re d).
Proof.
  intros Hi Hc Hdef. revert i stored u rs re d Hi Hc.
  induction n as [|n IH]; intros i stored u rs re d Hi Hc; [done|].
  cbn [generate_raycast_loop].
  destruct (ray_cb u rs re) as [[[ok rs1] re1] u1].
  destruct ok; [|apply IH; lia].
  destruct (Hdef rs1 re1) as [[s|] ->]; [|apply IH; lia].
  cbn [mbind option_bind BKE_mesh_sample_storage_array store_sample capacity].
  destruct (Z.le_gt_cases c i).
  - by rewrite store_array_full.
  - rewrite store_array_below by lia. cbn [mbind option_bind].
    apply IH; [lia|rewrite length_insert; lia].
Qed.

End RaycastArray.

Section RaycastAny.
Context `{BLI_math_interp} `{BKE_bvhutils} {D U : Type}.

End RaycastAny.



Lemma first_face_raycast_defined (tree : list MFace) (rs re : float3) :
  is_Some (sample_bvh_raycast (H := FirstFace.interp) (H0 := FirstFace.bvh)
             Examples.triangle tree rs re).
Proof.
  unfold sample_bvh_raycast.
  destruct (BLI_math.normalize_v3 _) as [ray_normal dist].
  cbn [BLI_bvhtree_ray_cast FirstFace.bvh].
  by destruct (Float32.gtb dist Float32.zero).
Qed.


(** A run of the raycast generation: of six iterations the first stores a
    sample, the second has no ray, and the third hits with the array full. *)
Example generate_raycast_run :
  BKE_mesh_sample_generate_raycast (H := FirstFace.interp) (H0 := FirstFace.bvh)
    (BKE_mesh_sample_storage_array [Examples.blank; Examples.blank; Examples.blank] 2)
    Examples.triangle RayExamples.every_other 0%nat 6
    RayExamples.origin RayExamples.origin =
  Some (1, [Examples.sample_at 0 1 2 Float32.one Float32.zero Float32.zero;
            Examples.blank; Examples.blank]).
Proof. vm_compute. reflexivity. Qed.

(** ** Solver options *)

(** C5: the default-constructed options satisfy the invariant of the data
    model: the three iteration caps are at least 1 and the time step is
    positive. *)
Theorem Options_default_invariant :
  admmpd.Options_invariant admmpd.Options_default.
Proof.
  unfold admmpd.Options_invariant. cbn [admmpd.max_admm_iters admmpd.max_cg_iters
    admmpd.max_gs_iters admmpd.timestep_s admmpd.Options_default].
  split; [lia|]. split; [lia|]. split; [lia|]. vm_compute. reflexivity.
Qed.

(** The default time step is the double nearest to 1/24. *)
Example Options_default_timestep :
  admmpd.timestep_s admmpd.Options_default = S754_finite false 6004799503160661 (-57).
Proof. vm_compute. reflexivity. Qed.

(** ** The weights of the random samples *)

Section RandomWeights.
Context `{BLI_rand}.

(** The weights of a sample of the loop come from two draws of floats. *)
Lemma random_sample_weights mfaces totfaces rng s rng' :
  random_sample mfaces totfaces rng = Some (s, rng') ->
  exists rng1 rng2,
    orig_weights s =
    random_weights (BLI_rng_get_float rng1).1 (BLI_rng_get_float rng2).1.
Proof.
  unfold random_sample. destruct (BLI_rng_get_int rng) as [r rng0].
  destruct (c_rem r totfaces) as [k|]; [|done]. cbn [mbind option_bind].
  destruct (array_get mfaces k) as [mface|]; [|done]. cbn [mbind option_bind].
  destruct (if (v4 mface =? 0)%N then _ else _) as [second_half rng1].
  destruct (BLI_rng_get_float rng1) as [a rng2] eqn:Ha.
  destruct (BLI_rng_get_float rng2) as [b rng3] eqn:Hb.
  intros [= <- _]. exists rng1, rng2. by rewrite Ha, Hb.
Qed.

Lemma random_samples_weights n mfaces totfaces rng l rng' s :
  random_samples n mfaces totfaces rng = Some (l, rng') -> s ∈ l ->
  exists rng1 rng2,
    orig_weights s =
    random_weights (BLI_rng_get_float rng1).1 (BLI_rng_get_float rng2).1.
Proof.
  revert rng l. induction n as [|n IH]; intros rng l Hl Hs.
  { injection Hl as <- _. by apply elem_of_nil in Hs. }
  cbn [random_samples] in Hl.
  destruct (random_sample mfaces totfaces rng) as [[s1 rng1]|] eqn:Hs1; [|done].
  cbn [mbind option_bind] in Hl.
  destruct (random_samples n mfaces totfaces rng1) as [[l1 rng2]|] eqn:Hl1; [|done].
  injection Hl as <- <-.
  apply elem_of_cons in Hs as [->|Hs]; [by eapply random_sample_weights|by eapply IH].
Qed.

(** The samples an array holds after the call, below the returned count,
    are samples the loop built. *)
Lemma generate_random_array_stored d c dm seed totsample stored d' (j : nat) s :
  c <= Z.of_nat (length d) ->
  BKE_mesh_sample_generate_random (BKE_mesh_sample_storage_array d c) dm seed totsample =
    Some (stored, d') ->
  (Z.of_nat j < stored) -> d' !! j = Some s ->
  exists n l rng',
    random_samples n (mfaces dm) (getNumTessFaces dm) (BLI_rng_new seed) = Some (l, rng') /\
    s ∈ l.
Proof.
  intros Hc Hrun Hj Hs. rewrite generate_random_array in Hrun by done. cbn zeta in Hrun.
  destruct (random_samples _ _ _ _) as [[l rng1]|] eqn:Hl; [|done].
  cbn [mbind option_bind] in Hrun.
  assert (stored = Z.of_nat (length l) /\ d' = overwrite d 0 l) as [-> ->].
  { rewrite (random_samples_length _ _ _ _ _ _ Hl).
    destruct (_ <=? _)%nat; [by injection Hrun as <- <-|].
    destruct (random_sample _ _ _) as [[s' rng2]|]; [|done].
    by injection Hrun as <- <-. }
  eexists _, l, rng1. split; [exact Hl|].
  unfold overwrite in Hs. simpl in Hs.
  rewrite lookup_app_l in Hs by lia. by eapply list_elem_of_lookup_2.
Qed.
End RandomWeights.

(** ** The floats of the upstream generator *)

Lemma in_unit_intro (x : float) :
  Float32.nonneg_finite x = true -> Float32.units x <= 2 ^ 149 ->
  Float32.in_unit x = true.
Proof.
  intros Hx Hle. unfold Float32.in_unit, Float32.leb.
  assert (Float32.valid x = true) as -> by by destruct x as [| | |[]].
  assert (SFleb Float32.zero x = true) as -> by by destruct x as [| | |[]].
  unfold SFleb. rewrite compare_one_r by done.
  by destruct (Z.compare_spec (Float32.units x) (2 ^ 149)); [| |lia].
Qed.

(** Rounding is monotone across a power of two. *)
Lemma rounds_to_pow2 (v u B : Z) :
  rounds_to v u -> 0 < v -> 0 <= B ->
  (v <= 2 ^ B -> u <= 2 ^ B) /\ (2 ^ B <= v -> 2 ^ B <= u).
Proof.
  intros (q & k & Hk & -> & Hlt & Hge & Herr & _) Hv HB.
  destruct (Z.eq_dec k 0) as [->|Hk0].
  { change (2 ^ 0) with 1 in *. lia. }
  specialize (Hge ltac:(lia)).
  pose proof (pow2_pos k Hk) as Hg.
  split; intros Hle.
  - assert (k + 23 <= B) as Hk' by (apply pow2_le_inv; lia).
    replace (2 ^ B) with (2 ^ (B - k) * 2 ^ k) in *
      by (rewrite <- Z.pow_add_r by lia; f_equal; lia).
    apply Z.mul_le_mono_nonneg_r; [lia|].
    apply (grid_le q _ (2 ^ k) v); lia.
  - assert (B < k + 24) as Hk' by (apply pow2_lt_inv; lia).
    assert (2 ^ B <= 2 ^ (k + 23)) as HB' by (apply pow2_le; lia).
    eapply Z.le_trans; [exact HB'|].
    replace (k + 23) with (23 + k) in * by lia.
    rewrite Z.pow_add_r in * by lia.
    apply Z.mul_le_mono_nonneg_r; [lia|].
    apply (grid_ge q _ (2 ^ k) v); lia.
Qed.

Lemma div_eucl_mul (a b : Z) : 0 < b -> Z.div_eucl (a * b) b = (a, 0).
Proof.
  intros Hb. pose proof (Z.div_mul a b ltac:(lia)) as Hd.
  pose proof (Z.mod_mul a b ltac:(lia)) as Hm.
  unfold Z.div, Z.modulo in *. destruct (Z.div_eucl (a * b) b). by subst.
Qed.

(** A normal binary32 number between 1 and 2^31, divided by 2^31. *)
Lemma div_pow31 (m : positive) (e : Z) :
  bounded 24 128 m e = true -> -23 <= e <= 8 ->
  let r := Float32.div (S754_finite false m e) (S754_finite false 8388608 8) in
  Float32.nonneg_finite r = true /\
  Float32.units r * 2 ^ 31 = Zpos m * 2 ^ (e + 149).
Proof.
  intros Hb He. cbn zeta.
  pose proof (bounded_digits _ _ Hb) as (_ & _ & Hd). specialize (Hd ltac:(lia)).
  unfold Float32.div, SFdiv, SFdiv_core_binary, Float32.prec, Float32.emax.
  cbn [Zdigits2 xorb]. rewrite Hd.
  change (Zpos (digits2_pos 8388608)) with 24.
  rewrite fexp_normal by lia.
  replace (Z.min (24 + e - (24 + 8) - 24) (e - 8)) with (e - 32) by lia.
  replace (e - 8 - (e - 32)) with 24 by lia.
  rewrite Z.shiftl_mul_pow2 by lia.
  change (2 ^ 24) with (2 * 8388608). rewrite Z.mul_assoc.
  rewrite div_eucl_mul by lia.
  change (new_location 8388608 0) with loc_Exact.
  destruct (round_aux_long (m~0) (e - 32) 1 ltac:(lia)
              ltac:(rewrite (proj1 (Zpos_digits_succ m)); lia) ltac:(lia) ltac:(lia))
    as (m' & e' & q & Hr & Hb' & Hu & Hq & _).
  replace (Zpos m * 2) with (Zpos m~0) by lia. rewrite Hr.
  split; [done|]. cbn [Float32.units]. rewrite Z.mul_1_l, Hu.
  change (2 ^ 1) with 2 in Hq. change (2 ^ (1 - 1)) with 1 in Hq.
  assert (q = Zpos m) as -> by lia.
  rewrite <- Z.mul_assoc, <- Z.pow_add_r by lia. do 2 f_equal. lia.
Qed.

Lemma of_Z_pow31 : Float32.of_Z 0x80000000 = S754_finite false 8388608 8.
Proof. vm_compute. reflexivity. Qed.

(** [(float)n / 0x80000000] lies in [0, 1] for a non-negative [int] [n]. *)
Lemma int_to_unit_float (n : Z) :
  0 <= n < 2 ^ 31 ->
  Float32.in_unit (Float32.div (Float32.of_Z n) (Float32.of_Z 0x80000000)) = true.
Proof.
  intros Hn. rewrite of_Z_pow31.
  destruct (Z.eq_dec n 0) as [->|Hn0]; [done|].
  assert (0 < 2 ^ 149) as H149 by (apply pow2_pos; lia).
  assert (2 ^ 180 = 2 ^ 31 * 2 ^ 149) as E180 by reflexivity.
  assert (2 ^ 180 < 2 ^ 200) as E200 by (apply pow2_lt; lia).
  destruct (normalize_spec n 0 ltac:(lia) ltac:(lia) ltac:(change (0 + 149) with 149; nia))
    as (m & e & Hr & Hb & He & Hrt).
  unfold Float32.of_Z, Float32.prec, Float32.emax. rewrite Hr.
  change (0 + 149) with 149 in Hrt.
  destruct (rounds_to_pow2 _ _ 180 Hrt ltac:(nia) ltac:(lia)) as [Hhi _].
  destruct (rounds_to_pow2 _ _ 149 Hrt ltac:(nia) ltac:(lia)) as [_ Hlo].
  specialize (Hhi ltac:(nia)). specialize (Hlo ltac:(nia)).
  pose proof (units_bounds m e Hb) as [Hsmall _].
  assert (-23 <= e) as He23 by lia.
  assert (e <= 8) as He8.
  { pose proof (bounded_digits _ _ Hb) as (_ & _ & Hd). specialize (Hd ltac:(lia)).
    pose proof (digits2_pos_spec m) as Hm. rewrite Hd in Hm.
    change (2 ^ (24 - 1)) with (2 ^ 23) in Hm.
    destruct (Z.le_gt_cases e 8) as [|Hgt]; [done|].
    assert (2 ^ 158 <= 2 ^ (e + 149)) by (apply pow2_le; lia).
    change (2 ^ 180) with (2 ^ 22 * 2 ^ 158) in Hhi.
    assert (0 < 2 ^ 158) by (apply pow2_pos; lia).
    change (2 ^ 23) with (2 * 2 ^ 22) in Hm.
    assert (0 < 2 ^ 22) by (apply pow2_pos; lia). nia. }
  destruct (div_pow31 m e Hb ltac:(lia)) as [Hnn Hu].
  apply in_unit_intro; [done|]. nia.
Qed.

(** The upstream generator draws its floats from [0, 1]. *)
Lemma rand48_float_range : @rng_float_range Rand48.rand48.
Proof.
  intros X. cbn [BLI_rng_get_float Rand48.rand48]. unfold Rand48.rng_get_float.
  pose proof (rand48_int_range X) as Hn.
  cbn [BLI_rng_get_int Rand48.rand48] in Hn.
  destruct (Rand48.rng_get_int X) as [n X']. cbn [fst] in *.
  by apply int_to_unit_float.
Qed.

(** C9, as the specification states it, fails: the weights need not sum to
    1.  For a = 0.1f and b = 0.2f the exact sum of (1 - (a + b), a, b) is not
    1 (not 2^149 in units of 2^-149); and with the upstream generator and
    seed 202 the first sample on the example triangle has weights whose
    exact sum is not 1 and whose single-precision sum is not 1.0f either. *)
Lemma random_weights_sum_not_one :
  (let '(w0, w1, w2) := random_weights Examples.tenth Examples.fifth in
   Float32.units w0 + Float32.units w1 + Float32.units w2 <> 2 ^ 149) /\
  exists s,
    BKE_mesh_sample_generate_random (H := Rand48.rand48)
      (BKE_mesh_sample_storage_array [Examples.blank] 1) Examples.triangle 202 1 =
    Some (1, [s]) /\
    let '(w0, w1, w2) := orig_weights s in
    Float32.units w0 + Float32.units w1 + Float32.units w2 <> 2 ^ 149 /\
    sum_f32 [w0; w1; w2] <> Float32.one.
Proof.
  split; [vm_compute; discriminate|].
  eexists. split; [vm_compute; reflexivity|].
  cbn [orig_weights]. split; vm_compute; discriminate.
Qed.

(** C9, amended: every sample the random generation stores in its array has
    the weights (1 - (a + b), a, b), computed in single precision from two
    floats a and b of the generator, the pair being reflected to
    (1 - a, 1 - b) when a + b > 1; the generator drawing its floats from
    [0, 1], each weight is non-negative and the exact sum of the three is
    within 2^-24 of 1. *)
Theorem generate_random_weights `{BLI_rand}
    (dm : DerivedMesh) (d : list MSurfaceSample) (c : Z) (seed : N) (totsample : Z)
    (stored : Z) (d' : list MSurfaceSample) (j : nat) (s : MSurfaceSample) :
  rng_float_range ->
  c <= Z.of_nat (length d) ->
  BKE_mesh_sample_generate_random (BKE_mesh_sample_storage_array d c) dm seed totsample =
    Some (stored, d') ->
  Z.of_nat j < stored -> d' !! j = Some s ->
  (exists a b,
     Float32.in_unit a = true /\ Float32.in_unit b = true /\
     orig_weights s = random_weights a b) /\
  weights_ok (orig_weights s).
Proof.
  intros Hrng Hc Hrun Hj Hs.
  destruct (generate_random_array_stored d c dm seed totsample stored d' j s Hc Hrun Hj Hs)
    as (n & l & rng' & Hl & Hin).
  destruct (random_samples_weights _ _ _ _ _ _ _ Hl Hin) as (rng1 & rng2 & Hw).
  split.
  - exists (BLI_rng_get_float rng1).1, (BLI_rng_get_float rng2).1. by repeat split.
  - rewrite Hw. by apply random_weights_ok.
Qed.

Lemma generate_random_weights_witness :
  let s := Examples.sample_at 0 1 2
             (S754_finite false 11080494 (-24))
             (S754_finite false 10358355 (-27))
             (S754_finite false 8803854 (-25)) in
  (exists a b,
     Float32.in_unit a = true /\ Float32.in_unit b = true /\
     orig_weights s = random_weights a b) /\
  weights_ok (orig_weights s).
Proof.
  cbn zeta.
  apply (generate_random_weights (H := Rand48.rand48) Examples.triangle
           [Examples.blank] 1 202 1 1
           [Examples.sample_at 0 1 2
              (S754_finite false 11080494 (-24))
              (S754_finite false 10358355 (-27))
              (S754_finite false 8803854 (-25))] 0%nat).
  - apply rand48_float_range.
  - cbn. lia.
  - vm_compute. reflexivity.
  - lia.
  - reflexivity.
Defined.

(** * Further properties of the code *)

(** ** Evaluation: definedness, locality and the degenerate sample *)

Section EvalMore.
Implicit Types (dm : DerivedMesh) (p : MVert).

(** The range guard of the evaluation is the bounds check of the array. *)
Lemma eval_guard dm (i : N) :
  (Z.to_N (getNumVerts dm) <=? i)%N =
  match mverts dm !! N.to_nat i with Some _ => false | None => true end.
Proof.
  unfold getNumVerts.
  destruct (mverts dm !! N.to_nat i) as [p|] eqn:Hp.
  - apply lookup_lt_Some in Hp. apply N.leb_gt. lia.
  - apply lookup_ge_None in Hp. apply N.leb_le. lia.
Qed.

Lemma lookup_in_range dm (i : N) :
  Z.of_N i < getNumVerts dm <-> is_Some (mverts dm !! N.to_nat i).
Proof. unfold getNumVerts. rewrite lookup_lt_is_Some. lia. Qed.

(** A weighted sum with three zero weights is (0, 0, 0). *)
Lemma madd3_zero_weights (a1 a2 a3 : float3) (w0 w1 w2 : float) :
  float3_all Float32.is_finite a1 = true ->
  float3_all Float32.is_finite a2 = true ->
  float3_all Float32.is_finite a3 = true ->
  Float32.is_zero w0 = true -> Float32.is_zero w1 = true -> Float32.is_zero w2 = true ->
  BLI_math.madd_v3_v3fl
    (BLI_math.madd_v3_v3fl (BLI_math.madd_v3_v3fl BLI_math.zero_v3 a1 w0) a2 w1)
    a3 w2 = BLI_math.zero_v3.
Proof.
  assert (forall x1 x2 x3 : float,
            Float32.is_finite x1 = true -> Float32.is_finite x2 = true ->
            Float32.is_finite x3 = true ->
            Float32.is_zero w0 = true -> Float32.is_zero w1 = true ->
            Float32.is_zero w2 = true ->
            Float32.add (Float32.add (Float32.add Float32.zero (Float32.mul x1 w0))
                           (Float32.mul x2 w1)) (Float32.mul x3 w2) = Float32.zero)
    as Hc.
  { intros x1 x2 x3 F1 F2 F3 Z0 Z1 Z2.
    rewrite Float32_facts.add_zero_l.
    rewrite !Float32_facts.add_zero_r by by apply Float32_facts.mul_zero_r.
    apply Float32_facts.unsigned_zero_is_zero. by apply Float32_facts.mul_zero_r. }
  destruct a1 as [[x1 y1] z1], a2 as [[x2 y2] z2], a3 as [[x3 y3] z3].
  cbn [float3_all].
  intros [[??]%andb_true_iff ?]%andb_true_iff [[??]%andb_true_iff ?]%andb_true_iff
    [[??]%andb_true_iff ?]%andb_true_iff Z0 Z1 Z2.
  cbn [BLI_math.madd_v3_v3fl BLI_math.zero_v3].
  by rewrite !Hc.
Qed.
End EvalMore.

(** The evaluation has no undefined behaviour: for every mesh and every
    sample it returns, and the flag it returns tells whether the three
    vertex indices of the sample are below the vertex count. *)
Theorem eval_defined (dm : DerivedMesh) (sample : MSurfaceSample) :
  exists (ok : bool) (loc nor : float3),
    BKE_mesh_sample_eval dm sample = Some (ok, loc, nor) /\
    (ok = true <-> sample_in_range dm sample).
Proof.
  destruct sample as [[[i0 i1] i2] [[w0 w1] w2]].
  unfold sample_in_range, BKE_mesh_sample_eval. cbn [orig_verts orig_weights].
  rewrite !eval_guard. unfold getVertArray.
  pose proof (lookup_in_range dm i0) as R0. pose proof (lookup_in_range dm i1) as R1.
  pose proof (lookup_in_range dm i2) as R2.
  destruct (mverts dm !! N.to_nat i0) as [p0|], (mverts dm !! N.to_nat i1) as [p1|],
    (mverts dm !! N.to_nat i2) as [p2|];
    cbn [orb mbind option_bind]; eexists _, _, _; (split; [reflexivity|]);
    rewrite R0, R1, R2.
  - split; [|done]. intros _. repeat split; by eexists.
  - split; [done|]. by intros (_ & _ & [??]).
  - split; [done|]. by intros (_ & [??] & _).
  - split; [done|]. by intros (_ & [??] & _).
  - split; [done|]. by intros ([??] & _).
  - split; [done|]. by intros ([??] & _).
  - split; [done|]. by intros ([??] & _).
  - split; [done|]. by intros ([??] & _).
Qed.

(** The evaluation reads the mesh at the three vertices of the sample only:
    on two meshes that agree there, a rest mesh and a deformed one or two
    meshes with different faces, it gives the same result. *)
Theorem eval_local (dm dm' : DerivedMesh) (i0 i1 i2 : N) (w : float3) :
  mverts dm !! N.to_nat i0 = mverts dm' !! N.to_nat i0 ->
  mverts dm !! N.to_nat i1 = mverts dm' !! N.to_nat i1 ->
  mverts dm !! N.to_nat i2 = mverts dm' !! N.to_nat i2 ->
  BKE_mesh_sample_eval dm {| orig_verts := (i0, i1, i2); orig_weights := w |} =
  BKE_mesh_sample_eval dm' {| orig_verts := (i0, i1, i2); orig_weights := w |}.
Proof.
  intros H0 H1 H2. unfold BKE_mesh_sample_eval. cbn [orig_verts orig_weights].
  rewrite !eval_guard. unfold getVertArray. by rewrite H0, H1, H2.
Qed.

Lemma eval_local_witness :
  BKE_mesh_sample_eval Examples.triangle
    (Examples.sample_at 0 1 2 Examples.half Examples.quarter Examples.quarter) =
  BKE_mesh_sample_eval Examples.no_faces
    (Examples.sample_at 0 1 2 Examples.half Examples.quarter Examples.quarter).
Proof. apply eval_local; reflexivity. Defined.

(** A sample whose three weights are zero, on vertices with finite
    coordinates, evaluates to the origin with a zero normal, and the
    evaluation still returns true: the vanishing normal is not divided by
    its length. *)
Theorem eval_zero_weights (dm : DerivedMesh) (i0 i1 i2 : N) (w0 w1 w2 : float)
    (p0 p1 p2 : MVert) :
  mverts dm !! N.to_nat i0 = Some p0 ->
  mverts dm !! N.to_nat i1 = Some p1 ->
  mverts dm !! N.to_nat i2 = Some p2 ->
  Float32.is_zero w0 = true -> Float32.is_zero w1 = true -> Float32.is_zero w2 = true ->
  (forall p, p ∈ [p0; p1; p2] ->
             float3_all Float32.is_finite (co p) = true /\ short3_in_range (no p)) ->
  BKE_mesh_sample_eval dm {| orig_verts := (i0, i1, i2); orig_weights := (w0, w1, w2) |} =
  Some (true, BLI_math.zero_v3, BLI_math.zero_v3).
Proof.
  intros H0 H1 H2 Z0 Z1 Z2 Hfin.
  rewrite (eval_in_range dm i0 i1 i2 w0 w1 w2 p0 p1 p2 H0 H1 H2).
  destruct (Hfin p0 ltac:(repeat constructor)) as [F0 N0].
  destruct (Hfin p1 ltac:(repeat constructor)) as [F1 N1].
  destruct (Hfin p2 ltac:(repeat constructor)) as [F2 N2].
  rewrite madd3_zero_weights by done.
  rewrite madd3_zero_weights by (done || by apply vert_normal_ok).
  reflexivity.
Qed.

Lemma eval_zero_weights_witness :
  BKE_mesh_sample_eval Examples.triangle
    (Examples.sample_at 0 1 2 Float32.zero (S754_zero true) Float32.zero) =
  Some (true, BLI_math.zero_v3, BLI_math.zero_v3).
Proof.
  apply (eval_zero_weights Examples.triangle 0 1 2 _ _ _
           (Examples.vert 1 2 3 (23170, 23170, 0))
           (Examples.vert 4 5 6 (0, 32767, 0))
           (Examples.vert 7 8 9 (0, 0, 32767))); try reflexivity.
  intros p Hp.
  repeat (apply elem_of_cons in Hp as [->|Hp]); [| | |by apply elem_of_nil in Hp];
    (split; [reflexivity|cbn; lia]).
Defined.

(** ** Evaluation on a shape key *)

Section ShapeKey.
Import DNA_key_types.
Implicit Types (elems : list float3) (kb : KeyBlock).

Lemma array_get_cons {A} (x : A) (a : list A) (off : Z) :
  0 <= off -> array_get (x :: a) (off + 1) = array_get a off.
Proof.
  intros Hoff. unfold array_get.
  destruct (Z.ltb_spec (off + 1) 0); [lia|]. destruct (Z.ltb_spec off 0); [lia|].
  by replace (Z.to_nat (off + 1)) with (S (Z.to_nat off)) by lia.
Qed.

Lemma float3_at_cons (x : float) (a : list float) (off : Z) :
  0 <= off -> float3_at (x :: a) (off + 1) = float3_at a off.
Proof.
  intros Hoff. unfold float3_at.
  replace (off + 1 + 2) with (off + 2 + 1) by lia.
  rewrite (array_get_cons x a off), (array_get_cons x a (off + 1)),
    (array_get_cons x a (off + 2)) by lia.
  by replace (off + 1 + 1) with (off + 2) by lia.
Qed.

(** Element [i] of a key block starts at float [3 * i] of its data. *)
Lemma float3_at_flatten elems (i : nat) :
  float3_at (flatten_v3 elems) (3 * Z.of_nat i) = elems !! i.
Proof.
  revert i. induction elems as [|[[x y] z] elems IH]; intros i.
  { unfold float3_at, array_get. cbn [flatten_v3 flat_map].
    rewrite !lookup_nil. by destruct (3 * Z.of_nat i <? 0). }
  destruct i as [|i]; [reflexivity|].
  cbn [flatten_v3 flat_map app lookup list_lookup]. fold (flatten_v3 elems).
  replace (3 * Z.of_nat (S i)) with (3 * Z.of_nat i + 1 + 1 + 1) by lia.
  rewrite !float3_at_cons by lia. apply IH.
Qed.

(** Below 2^32 / 3 the unsigned product of an index and 3 does not wrap. *)
Lemma uint_mul_3 (i : N) :
  3 * Z.of_N i < 2 ^ 32 -> uint_mul (Z.of_N i) 3 = 3 * Z.of_nat (N.to_nat i).
Proof. intros Hi. unfold uint_mul. rewrite Z.mod_small; lia. Qed.

(** Element [i] of a key block of at most 2^32 floats, as the shape-key
    evaluation reads it. *)
Lemma key_element kb elems (i : N) (p : float3) :
  data kb = flatten_v3 elems ->
  3 * Z.of_nat (length elems) <= 2 ^ 32 ->
  elems !! N.to_nat i = Some p ->
  float3_at (data kb) (uint_mul (Z.of_N i) 3) = Some p.
Proof.
  intros -> Hlen Hp. pose proof (lookup_lt_Some _ _ _ Hp).
  by rewrite uint_mul_3, float3_at_flatten by lia.
Qed.

(** The assertion on an index below a [totelem] that is not negative. *)
Lemma key_index_assert kb (i : N) :
  0 <= totelem kb < 2 ^ 31 -> Z.of_N i < totelem kb ->
  BLI_assert (Z.of_N i <? uint_of_int (totelem kb)) = Some tt.
Proof.
  intros Htot Hi. unfold uint_of_int. rewrite Z.mod_small by lia.
  by destruct (Z.ltb_spec (Z.of_N i) (totelem kb)); [|lia].
Qed.
End ShapeKey.

(** The shape-key evaluation adds to [loc]: on a key block of three-float
    elements, for a sample whose indices are below [totelem], it returns true
    and leaves in [loc] what was there plus the three elements times their
    weights, added in the order of the sample.  (The key block holds at most
    2^32 floats, so that the unsigned offset [index * 3] does not wrap.) *)
Theorem shapekey_accumulates (key : DNA_key_types.Key) (kb : DNA_key_types.KeyBlock)
    (elems : list float3) (i0 i1 i2 : N) (w0 w1 w2 : float) (p0 p1 p2 loc : float3) :
  DNA_key_types.elemsize key = 3 * sizeof_float ->
  0 <= DNA_key_types.totelem kb < 2 ^ 31 ->
  DNA_key_types.data kb = flatten_v3 elems ->
  3 * Z.of_nat (length elems) <= 2 ^ 32 ->
  Z.of_N i0 < DNA_key_types.totelem kb ->
  Z.of_N i1 < DNA_key_types.totelem kb ->
  Z.of_N i2 < DNA_key_types.totelem kb ->
  elems !! N.to_nat i0 = Some p0 ->
  elems !! N.to_nat i1 = Some p1 ->
  elems !! N.to_nat i2 = Some p2 ->
  BKE_mesh_sample_shapekey key kb
    {| orig_verts := (i0, i1, i2); orig_weights := (w0, w1, w2) |} loc =
  Some (true,
        BLI_math.madd_v3_v3fl
          (BLI_math.madd_v3_v3fl (BLI_math.madd_v3_v3fl loc p0 w0) p1 w1) p2 w2).
Proof.
  intros Hsize Htot Hdata Hlen Hi0 Hi1 Hi2 H0 H1 H2.
  unfold BKE_mesh_sample_shapekey. cbn [orig_verts orig_weights].
  rewrite Hsize, Z.eqb_refl.
  rewrite !key_index_assert by done.
  cbn [BLI_assert mbind option_bind].
  rewrite (key_element kb elems i0 p0), (key_element kb elems i1 p1),
    (key_element kb elems i2 p2) by done.
  done.
Qed.

Lemma shapekey_accumulates_witness :
  BKE_mesh_sample_shapekey {| DNA_key_types.elemsize := 12 |}
    {| DNA_key_types.totelem := 2;
       DNA_key_types.data :=
         flatten_v3 [(Float32.of_Z 1, Float32.of_Z 2, Float32.of_Z 3);
                     (Float32.of_Z 4, Float32.of_Z 5, Float32.of_Z 6)] |}
    (Examples.sample_at 0 1 1 Float32.one Float32.one Float32.zero)
    (Float32.one, Float32.one, Float32.one) =
  Some (true, (Float32.of_Z 6, Float32.of_Z 8, Float32.of_Z 10)).
Proof.
  apply (shapekey_accumulates _ _
           [(Float32.of_Z 1, Float32.of_Z 2, Float32.of_Z 3);
            (Float32.of_Z 4, Float32.of_Z 5, Float32.of_Z 6)] 0 1 1
           Float32.one Float32.one Float32.zero
           (Float32.of_Z 1, Float32.of_Z 2, Float32.of_Z 3)
           (Float32.of_Z 4, Float32.of_Z 5, Float32.of_Z 6)
           (Float32.of_Z 4, Float32.of_Z 5, Float32.of_Z 6)
           (Float32.one, Float32.one, Float32.one)); try reflexivity; cbn; lia.
Defined.

(** On the key block that holds the vertex coordinates of a mesh and from a
    cleared [loc], the shape-key evaluation of a sample whose indices are in
    range returns the position that the evaluation on the mesh returns.
    (The mesh has at most 2^32 / 3 vertices.) *)
Theorem shapekey_matches_eval (key : DNA_key_types.Key) (dm : DerivedMesh)
    (sample : MSurfaceSample) :
  DNA_key_types.elemsize key = 3 * sizeof_float ->
  3 * getNumVerts dm <= 2 ^ 32 ->
  sample_in_range dm sample ->
  exists loc nor,
    BKE_mesh_sample_eval dm sample = Some (true, loc, nor) /\
    BKE_mesh_sample_shapekey key (key_of_mesh dm) sample BLI_math.zero_v3 =
      Some (true, loc).
Proof.
  destruct sample as [[[i0 i1] i2] [[w0 w1] w2]]. unfold sample_in_range.
  cbn [orig_verts]. intros Hsize Hlen (Hi0 & Hi1 & Hi2).
  destruct (proj1 (lookup_in_range dm i0) Hi0) as [p0 H0].
  destruct (proj1 (lookup_in_range dm i1) Hi1) as [p1 H1].
  destruct (proj1 (lookup_in_range dm i2) Hi2) as [p2 H2].
  eexists _, _. split; [by apply eval_in_range|].
  assert (0 <= DNA_key_types.totelem (key_of_mesh dm) < 2 ^ 31) as Htot.
  { cbn. unfold getNumVerts in *. lia. }
  assert (3 * Z.of_nat (length (co <$> mverts dm)) <= 2 ^ 32) as Hlen'.
  { rewrite length_fmap. unfold getNumVerts in Hlen. lia. }
  unfold BKE_mesh_sample_shapekey. cbn [orig_verts orig_weights].
  rewrite Hsize, Z.eqb_refl.
  rewrite !key_index_assert by done.
  cbn [BLI_assert mbind option_bind].
  rewrite (key_element _ (co <$> mverts dm) i0 (co p0)),
    (key_element _ (co <$> mverts dm) i1 (co p1)),
    (key_element _ (co <$> mverts dm) i2 (co p2))
    by (done || by rewrite list_lookup_fmap, ?H0, ?H1, ?H2).
  done.
Qed.

Lemma shapekey_matches_eval_witness :
  exists loc nor,
    BKE_mesh_sample_eval Examples.triangle
      (Examples.sample_at 0 1 2 Examples.half Examples.quarter Examples.quarter) =
      Some (true, loc, nor) /\
    BKE_mesh_sample_shapekey {| DNA_key_types.elemsize := 12 |}
      (key_of_mesh Examples.triangle)
      (Examples.sample_at 0 1 2 Examples.half Examples.quarter Examples.quarter)
      BLI_math.zero_v3 = Some (true, loc).
Proof.
  apply shapekey_matches_eval; [reflexivity|by vm_compute|].
  repeat split; by vm_compute.
Defined.

(** From 2^32 / 3 on the offset [index * 3] wraps: index 1431655766 reads
    the floats from offset 2 on. *)
Example shapekey_offset_wraps :
  BKE_mesh_sample_shapekey {| DNA_key_types.elemsize := 12 |}
    {| DNA_key_types.totelem := 1431655767;
       DNA_key_types.data := Float32.of_Z <$> [1; 2; 3; 4; 5; 6] |}
    (Examples.sample_at 1431655766 0 0 Float32.one Float32.zero Float32.zero)
    BLI_math.zero_v3 =
  Some (true, (Float32.of_Z 3, Float32.of_Z 4, Float32.of_Z 5)).
Proof. vm_compute. reflexivity. Qed.

(** ** The array store *)

(** The array store tests the index against the capacity only.  With an
    index at or above the capacity it returns false and leaves the array as
    it was.  With an index below the capacity that lies inside the array it
    returns true, and the array then holds the sample at that index and is
    otherwise as before, with the same length.  (An index below the capacity
    and outside the array, a negative one included, is a write out of
    bounds.) *)
Theorem store_array_sample_spec (d : list MSurfaceSample) (c i : Z)
    (s : MSurfaceSample) :
  (c <= i -> mesh_sample_store_array_sample d c i s = Some (false, d)) /\
  (i < c -> 0 <= i < Z.of_nat (length d) ->
   exists d',
     mesh_sample_store_array_sample d c i s = Some (true, d') /\
     length d' = length d /\
     d' !! Z.to_nat i = Some s /\
     (forall j : nat, j <> Z.to_nat i -> d' !! j = d !! j)) /\
  (i < c -> ~ 0 <= i < Z.of_nat (length d) ->
   mesh_sample_store_array_sample d c i s = None).
Proof.
  unfold mesh_sample_store_array_sample, array_set. repeat split.
  - intros Hfull. by destruct (Z.leb_spec c i); [|lia].
  - intros Hroom Hi. destruct (Z.leb_spec c i); [lia|].
    destruct (Z.leb_spec 0 i); [|lia].
    destruct (Z.ltb_spec i (Z.of_nat (length d))); [|lia].
    cbn. eexists. split; [reflexivity|]. rewrite length_insert. split; [done|]. split.
    + apply list_lookup_insert_eq. lia.
    + intros j Hj. by apply list_lookup_insert_ne.
  - intros Hroom Hi. destruct (Z.leb_spec c i); [lia|].
    destruct (Z.leb_spec 0 i); [|done].
    by destruct (Z.ltb_spec i (Z.of_nat (length d))); [lia|].
Qed.

Lemma store_array_sample_spec_witness :
  let d := [Examples.blank; Examples.blank] in
  let s := Examples.sample_at 0 1 2 Float32.one Float32.zero Float32.zero in
  (exists d',
     mesh_sample_store_array_sample d 2 1 s = Some (true, d') /\
     length d' = length d /\
     d' !! Z.to_nat 1 = Some s /\
     (forall j : nat, j <> Z.to_nat 1 -> d' !! j = d !! j)) /\
  mesh_sample_store_array_sample d 2 2 s = Some (false, d) /\
  mesh_sample_store_array_sample d 2 (-1) s = None.
Proof.
  cbn zeta. split; [|split].
  - apply (store_array_sample_spec [Examples.blank; Examples.blank] 2 1); cbn; lia.
  - apply (store_array_sample_spec [Examples.blank; Examples.blank] 2 2). lia.
  - apply (store_array_sample_spec [Examples.blank; Examples.blank] 2 (-1)); cbn; lia.
Defined.

(** The array store checks the index against the capacity only: it is
    defined when the index is at or above the capacity, or inside the array;
    a negative index, or a capacity beyond the end of the array, is not
    caught. *)
Theorem store_array_sample_defined (d : list MSurfaceSample) (c i : Z)
    (s : MSurfaceSample) :
  is_Some (mesh_sample_store_array_sample d c i s) <->
  c <= i \/ 0 <= i < Z.of_nat (length d).
Proof.
  unfold mesh_sample_store_array_sample, array_set.
  destruct (Z.leb_spec c i) as [Hfull|Hroom]; [split; [by left|done]|].
  destruct (Z.leb_spec 0 i) as [H0|];
    [|split; [by intros [??]|intros [?|?]; lia]].
  destruct (Z.ltb_spec i (Z.of_nat (length d))) as [Hlen|];
    [|split; [by intros [??]|intros [?|?]; lia]].
  cbn. split; [by right|done].
Qed.

(** ** Releasing a storage *)

(** The storages set up over a caller's sample or array do not own it:
    releasing them hands nothing to [MEM_freeN]. *)
Lemma storage_release_keeps_buffer (samples : list MSurfaceSample) (c : Z)
    (sample : MSurfaceSample) :
  BKE_mesh_sample_storage_release (BKE_mesh_sample_storage_array samples c) = false /\
  BKE_mesh_sample_storage_release (BKE_mesh_sample_storage_single sample) = false.
Proof. done. Qed.

(** ** Random sampling: the count, the samples and their faces *)

Section RandomMore.
Context `{BLI_rand}.
Implicit Types (d : list MSurfaceSample) (rng : RNG) (dm : DerivedMesh).

(** A defined run into an array, on a mesh with a face. *)
Lemma generate_random_array_run d c dm seed totsample :
  rng_int_range -> mfaces dm <> [] -> c <= Z.of_nat (length d) ->
  let k := Nat.min (Z.to_nat totsample) (Z.to_nat c) in
  exists l rng',
    random_samples k (mfaces dm) (getNumTessFaces dm) (BLI_rng_new seed) = Some (l, rng') /\
    length l = k /\
    BKE_mesh_sample_generate_random (BKE_mesh_sample_storage_array d c) dm seed totsample =
      Some (Z.of_nat k, overwrite d 0 l).
Proof.
  intros Hrng Hne Hc k.
  destruct (random_samples_defined k (mfaces dm) (BLI_rng_new seed) Hrng Hne)
    as [[l rng1] Hl].
  exists l, rng1. split; [done|]. split; [by eapply random_samples_length|].
  rewrite generate_random_array by done. cbn zeta. fold k.
  unfold getNumTessFaces. rewrite Hl. cbn [mbind option_bind].
  destruct (_ <=? _)%nat; [done|].
  by destruct (random_sample_defined (mfaces dm) rng1 Hrng Hne) as [[s rng2] ->].
Qed.

Lemma lookup_overwrite_lt d (l : list MSurfaceSample) (j : nat) :
  (j < length l)%nat -> overwrite d 0 l !! j = l !! j.
Proof. intros Hj. unfold overwrite. simpl. by rewrite lookup_app_l. Qed.

(** The samples of a shorter run are the first samples of a longer one. *)
Lemma random_samples_prefix (n m : nat) mfaces totfaces rng l1 rng1 l2 rng2 :
  (n <= m)%nat ->
  random_samples n mfaces totfaces rng = Some (l1, rng1) ->
  random_samples m mfaces totfaces rng = Some (l2, rng2) ->
  l1 = take n l2.
Proof.
  revert m rng l1 rng1 l2 rng2.
  induction n as [|n IH]; intros m rng l1 rng1 l2 rng2 Hnm H1 H2.
  { by injection H1 as <- _. }
  destruct m as [|m]; [lia|]. cbn [random_samples] in H1, H2.
  destruct (random_sample mfaces totfaces rng) as [[s rng']|]; [|done].
  cbn [mbind option_bind] in H1, H2.
  destruct (random_samples n mfaces totfaces rng') as [[l1' r1]|] eqn:E1; [|done].
  destruct (random_samples m mfaces totfaces rng') as [[l2' r2]|] eqn:E2; [|done].
  injection H1 as <- _. injection H2 as <- _. cbn [take]. f_equal.
  eapply IH; [|done..]. lia.
Qed.

(** The sample of an iteration sits on a face of the mesh. *)
Lemma random_sample_on_face mfaces totfaces rng s rng' :
  random_sample mfaces totfaces rng = Some (s, rng') ->
  exists f, f ∈ mfaces /\ on_face_half f s.
Proof.
  unfold random_sample. destruct (BLI_rng_get_int rng) as [r rng0].
  destruct (c_rem r totfaces) as [k|]; [|done]. cbn [mbind option_bind].
  unfold array_get. destruct (k <? 0); [done|].
  destruct (mfaces !! Z.to_nat k) as [mface|] eqn:Hf; [|done]. cbn [mbind option_bind].
  apply list_elem_of_lookup_2 in Hf.
  destruct (N.eqb_spec (v4 mface) 0) as [Hv4|Hv4].
  - destruct (BLI_rng_get_float rng0) as [a rng2], (BLI_rng_get_float rng2) as [b rng3].
    intros [= <- _]. exists mface. split; [done|]. by left.
  - destruct (BLI_rng_get_int rng0) as [r1 rng1].
    destruct (BLI_rng_get_float rng1) as [a rng2], (BLI_rng_get_float rng2) as [b rng3].
    intros [= <- _]. exists mface. split; [done|].
    destruct (Z.rem r1 2 =? 0); [by right|by left].
Qed.

Lemma random_samples_on_face n mfaces totfaces rng l rng' s :
  random_samples n mfaces totfaces rng = Some (l, rng') -> s ∈ l ->
  exists f, f ∈ mfaces /\ on_face_half f s.
Proof.
  revert rng l. induction n as [|n IH]; intros rng l Hl Hs.
  { injection Hl as <- _. by apply elem_of_nil in Hs. }
  cbn [random_samples] in Hl.
  destruct (random_sample mfaces totfaces rng) as [[s1 rng1]|] eqn:Hs1; [|done].
  cbn [mbind option_bind] in Hl.
  destruct (random_samples n mfaces totfaces rng1) as [[l1 rng2]|] eqn:Hl1; [|done].
  injection Hl as <- <-.
  apply elem_of_cons in Hs as [->|Hs]; [by eapply random_sample_on_face|by eapply IH].
Qed.

(** A sample on a face of a mesh with valid faces has its indices in range. *)
Lemma on_face_in_range dm (f : MFace) s :
  faces_valid dm -> f ∈ mfaces dm -> on_face_half f s -> sample_in_range dm s.
Proof.
  intros Hv Hf Hs. unfold sample_in_range.
  assert (forall i, i ∈ face_corners f -> Z.of_N i < getNumVerts dm) as Hi by eauto.
  unfold face_corners in Hi.
  destruct Hs as [->|[_ ->]]; repeat split; apply Hi; repeat constructor.
Qed.
End RandomMore.

(** On a mesh with at least one face the random generation into an array of
    capacity [c] returns the smaller of [totsample] and [c], or 0 when that
    is negative, and the entries of the array below the returned count are
    the samples of its first iterations, in their order: with
    [totsample <= c] every requested sample is stored.  The array keeps its
    length and its entries from the returned count on. *)
Theorem generate_random_count `{BLI_rand}
    (dm : DerivedMesh) (d : list MSurfaceSample) (c : Z) (seed : N) (totsample : Z) :
  rng_int_range -> mfaces dm <> [] -> c <= Z.of_nat (length d) ->
  let stored := Z.max 0 (Z.min totsample c) in
  exists d' l rng',
    BKE_mesh_sample_generate_random (BKE_mesh_sample_storage_array d c) dm seed totsample =
      Some (stored, d') /\
    random_samples (Z.to_nat stored) (mfaces dm) (getNumTessFaces dm) (BLI_rng_new seed) =
      Some (l, rng') /\
    take (Z.to_nat stored) d' = l /\
    length d' = length d /\
    (forall j : nat, stored <= Z.of_nat j -> d' !! j = d !! j).
Proof.
  intros Hrng Hne Hc stored.
  destruct (generate_random_array_run d c dm seed totsample Hrng Hne Hc)
    as (l & rng' & Hl & Hlen & ->).
  assert (Z.to_nat stored = (Z.to_nat totsample `min` Z.to_nat c)%nat) as Hk
    by (unfold stored; lia).
  exists (overwrite d 0 l), l, rng'. rewrite Hk. split; [do 2 f_equal; lia|].
  split; [done|]. split; [rewrite <- Hlen; apply take_overwrite|]. split.
  - apply length_overwrite. lia.
  - intros j Hj. apply lookup_overwrite_ge. lia.
Qed.

Lemma generate_random_count_witness :
  let d := [Examples.blank; Examples.blank; Examples.blank] in
  let stored := Z.max 0 (Z.min 2 3) in
  exists d' l rng',
    BKE_mesh_sample_generate_random (H := Rand48.rand48)
      (BKE_mesh_sample_storage_array d 3) Examples.quad_tri 1 2 = Some (stored, d') /\
    random_samples (H := Rand48.rand48) (Z.to_nat stored) (mfaces Examples.quad_tri)
      (getNumTessFaces Examples.quad_tri) (BLI_rng_new 1) = Some (l, rng') /\
    take (Z.to_nat stored) d' = l /\
    length d' = length d /\
    (forall j : nat, stored <= Z.of_nat j -> d' !! j = d !! j).
Proof.
  apply (generate_random_count (H := Rand48.rand48) Examples.quad_tri
           [Examples.blank; Examples.blank; Examples.blank] 3 1 2).
  - apply rand48_int_range.
  - discriminate.
  - cbn. lia.
Defined.

(** Into the single-sample storage the random generation stores one sample,
    the sample of its first iteration, and returns 1, whatever
    [totsample >= 1] is. *)
Theorem generate_random_single `{BLI_rand}
    (dm : DerivedMesh) (s0 : MSurfaceSample) (seed : N) (totsample : Z) :
  rng_int_range -> mfaces dm <> [] -> 1 <= totsample ->
  exists s rng',
    random_sample (mfaces dm) (getNumTessFaces dm) (BLI_rng_new seed) = Some (s, rng') /\
    BKE_mesh_sample_generate_random (BKE_mesh_sample_storage_single s0) dm seed totsample =
      Some (1, [s]).
Proof.
  intros Hrng Hne Htot.
  change (BKE_mesh_sample_storage_single s0) with (BKE_mesh_sample_storage_array [s0] 1).
  destruct (generate_random_array_run [s0] 1 dm seed totsample Hrng Hne ltac:(cbn; lia))
    as (l & rng' & Hl & _ & ->).
  replace (Z.to_nat totsample `min` Z.to_nat 1)%nat with 1%nat in * by lia.
  cbn [random_samples] in Hl.
  destruct (random_sample _ _ _) as [[s rng1]|]; [|done].
  cbn in Hl. injection Hl as <- _. by exists s, rng1.
Qed.

Lemma generate_random_single_witness :
  exists s rng',
    random_sample (H := Rand48.rand48) (mfaces Examples.quad_tri)
      (getNumTessFaces Examples.quad_tri) (BLI_rng_new 7) = Some (s, rng') /\
    BKE_mesh_sample_generate_random (H := Rand48.rand48)
      (BKE_mesh_sample_storage_single Examples.blank) Examples.quad_tri 7 4 =
      Some (1, [s]).
Proof.
  apply (generate_random_single (H := Rand48.rand48)).
  - apply rand48_int_range.
  - discriminate.
  - lia.
Defined.

(** Asking for more samples, or giving more room, keeps the samples of the
    smaller run: with the same mesh and seed, a run with [n <= m] requested
    samples and capacity [c1 <= c2] stores no more samples than the larger
    run, and the samples it stores are the first ones the larger run
    stores. *)
Theorem generate_random_prefix `{BLI_rand}
    (dm : DerivedMesh) (d1 d2 : list MSurfaceSample) (c1 c2 : Z) (seed : N) (n m : Z) :
  rng_int_range -> mfaces dm <> [] ->
  c1 <= Z.of_nat (length d1) -> c2 <= Z.of_nat (length d2) ->
  n <= m -> c1 <= c2 ->
  exists stored1 d1' stored2 d2',
    BKE_mesh_sample_generate_random (BKE_mesh_sample_storage_array d1 c1) dm seed n =
      Some (stored1, d1') /\
    BKE_mesh_sample_generate_random (BKE_mesh_sample_storage_array d2 c2) dm seed m =
      Some (stored2, d2') /\
    stored1 <= stored2 /\
    (forall j : nat, Z.of_nat j < stored1 -> is_Some (d1' !! j) /\ d1' !! j = d2' !! j).
Proof.
  intros Hrng Hne Hc1 Hc2 Hnm Hc.
  destruct (generate_random_array_run d1 c1 dm seed n Hrng Hne Hc1)
    as (l1 & rng1 & Hl1 & Hlen1 & ->).
  destruct (generate_random_array_run d2 c2 dm seed m Hrng Hne Hc2)
    as (l2 & rng2 & Hl2 & Hlen2 & ->).
  eexists _, _, _, _. split; [done|]. split; [done|]. split; [lia|].
  intros j Hj.
  rewrite !lookup_overwrite_lt by lia.
  pose proof (random_samples_prefix (Z.to_nat n `min` Z.to_nat c1)
                (Z.to_nat m `min` Z.to_nat c2) _ _ _ _ _ _ _ ltac:(lia) Hl1 Hl2) as Hp.
  split; [apply lookup_lt_is_Some; lia|].
  rewrite Hp. apply lookup_take_lt. lia.
Qed.

Lemma generate_random_prefix_witness :
  exists stored1 d1' stored2 d2',
    BKE_mesh_sample_generate_random (H := Rand48.rand48)
      (BKE_mesh_sample_storage_array [Examples.blank; Examples.blank] 2)
      Examples.quad_tri 5 1 = Some (stored1, d1') /\
    BKE_mesh_sample_generate_random (H := Rand48.rand48)
      (BKE_mesh_sample_storage_array [Examples.blank; Examples.blank; Examples.blank] 3)
      Examples.quad_tri 5 4 = Some (stored2, d2') /\
    stored1 <= stored2 /\
    (forall j : nat, Z.of_nat j < stored1 -> is_Some (d1' !! j) /\ d1' !! j = d2' !! j).
Proof.
  apply (generate_random_prefix (H := Rand48.rand48)).
  - apply rand48_int_range.
  - discriminate.
  - cbn. lia.
  - cbn. lia.
  - lia.
  - lia.
Defined.

(** Every sample the random generation stores sits on a face of the mesh:
    its three vertices are (v1, v2, v3) of a face, or (v3, v4, v1) of a face
    that is a quad. *)
Theorem generate_random_on_faces `{BLI_rand}
    (dm : DerivedMesh) (d : list MSurfaceSample) (c : Z) (seed : N) (totsample : Z) :
  rng_int_range -> mfaces dm <> [] -> c <= Z.of_nat (length d) ->
  exists stored d',
    BKE_mesh_sample_generate_random (BKE_mesh_sample_storage_array d c) dm seed totsample =
      Some (stored, d') /\
    (forall j : nat, Z.of_nat j < stored ->
       exists s f, d' !! j = Some s /\ f ∈ mfaces dm /\ on_face_half f s).
Proof.
  intros Hrng Hne Hc.
  destruct (generate_random_array_run d c dm seed totsample Hrng Hne Hc)
    as (l & rng' & Hl & Hlen & ->).
  eexists _, _. split; [done|]. intros j Hj.
  destruct (lookup_lt_is_Some_2 l j ltac:(lia)) as [s Hs].
  rewrite lookup_overwrite_lt by lia.
  destruct (random_samples_on_face _ _ _ _ _ _ s Hl) as (f & Hf & Hon);
    [by eapply list_elem_of_lookup_2|].
  by exists s, f.
Qed.

Lemma generate_random_on_faces_witness :
  exists stored d',
    BKE_mesh_sample_generate_random (H := Rand48.rand48)
      (BKE_mesh_sample_storage_array [Examples.blank; Examples.blank] 2)
      Examples.quad_tri 5 2 = Some (stored, d') /\
    (forall j : nat, Z.of_nat j < stored ->
       exists s f, d' !! j = Some s /\ f ∈ mfaces Examples.quad_tri /\ on_face_half f s).
Proof.
  apply (generate_random_on_faces (H := Rand48.rand48)).
  - apply rand48_int_range.
  - discriminate.
  - cbn. lia.
Defined.

(** Generate, then evaluate: on a mesh whose faces refer to vertices of the
    mesh, every sample the random generation stores evaluates with the flag
    true, on the mesh itself and on every mesh with as many vertices, such
    as a deformed copy. *)
Theorem generate_random_then_eval `{BLI_rand}
    (dm dm' : DerivedMesh) (d : list MSurfaceSample) (c : Z) (seed : N) (totsample : Z) :
  rng_int_range -> mfaces dm <> [] -> faces_valid dm ->
  getNumVerts dm' = getNumVerts dm ->
  c <= Z.of_nat (length d) ->
  exists stored d',
    BKE_mesh_sample_generate_random (BKE_mesh_sample_storage_array d c) dm seed totsample =
      Some (stored, d') /\
    (forall j : nat, Z.of_nat j < stored ->
       exists s loc nor,
         d' !! j = Some s /\ BKE_mesh_sample_eval dm' s = Some (true, loc, nor)).
Proof.
  intros Hrng Hne Hvalid Hverts Hc.
  destruct (generate_random_array_run d c dm seed totsample Hrng Hne Hc)
    as (l & rng' & Hl & Hlen & ->).
  eexists _, _. split; [done|]. intros j Hj.
  destruct (lookup_lt_is_Some_2 l j ltac:(lia)) as [s Hs].
  rewrite lookup_overwrite_lt by lia.
  destruct (random_samples_on_face _ _ _ _ _ _ s Hl) as (f & Hf & Hon);
    [by eapply list_elem_of_lookup_2|].
  pose proof (on_face_in_range dm f s Hvalid Hf Hon) as Hin.
  destruct s as [[[i0 i1] i2] [[w0 w1] w2]].
  unfold sample_in_range in Hin. cbn [orig_verts] in Hin. rewrite <- Hverts in Hin.
  destruct Hin as (Hi0 & Hi1 & Hi2).
  destruct (proj1 (lookup_in_range dm' i0) Hi0) as [p0 H0].
  destruct (proj1 (lookup_in_range dm' i1) Hi1) as [p1 H1].
  destruct (proj1 (lookup_in_range dm' i2) Hi2) as [p2 H2].
  eexists _, _, _. split; [done|]. by apply eval_in_range.
Qed.

Lemma quad_tri_faces_valid : faces_valid Examples.quad_tri.
Proof.
  intros f i Hf Hi.
  repeat (apply elem_of_cons in Hf as [->|Hf]); [| |by apply elem_of_nil in Hf];
    repeat (apply elem_of_cons in Hi as [->|Hi]); try (by apply elem_of_nil in Hi);
    by vm_compute.
Qed.

Lemma generate_random_then_eval_witness :
  exists stored d',
    BKE_mesh_sample_generate_random (H := Rand48.rand48)
      (BKE_mesh_sample_storage_array [Examples.blank; Examples.blank] 2)
      Examples.quad_tri 5 2 = Some (stored, d') /\
    (forall j : nat, Z.of_nat j < stored ->
       exists s loc nor,
         d' !! j = Some s /\
         BKE_mesh_sample_eval DeformedExamples.quad_tri_moved s = Some (true, loc, nor)).
Proof.
  apply (generate_random_then_eval (H := Rand48.rand48)).
  - apply rand48_int_range.
  - discriminate.
  - apply quad_tri_faces_valid.
  - reflexivity.
  - cbn. lia.
Defined.

(** ** Random sampling: every weight lies in [0, 1] *)

Lemma random_weights_in_unit (a b : float) :
  Float32.in_unit a = true -> Float32.in_unit b = true ->
  float3_all Float32.in_unit (random_weights a b) = true.
Proof.
  intros Ha Hb.
  destruct (in_unit_spec a Ha) as [Hna HA], (in_unit_spec b Hb) as [Hnb HB].
  assert (0 < 2 ^ 124) as H124 by (apply pow2_pos; lia).
  assert (2 ^ 125 = 2 * 2 ^ 124) as E125 by reflexivity.
  assert (2 ^ 148 = 16777216 * 2 ^ 124) as E148 by reflexivity.
  assert (2 ^ 149 = 2 * 2 ^ 148) as E149 by reflexivity.
  assert (2 ^ 150 = 2 * 2 ^ 149) as E150 by reflexivity.
  assert (2 ^ 150 < 2 ^ 200) as E200 by (apply pow2_lt; lia).
  assert (forall x, Float32.nonneg_finite x = true -> Float32.units x <= 2 ^ 149 ->
                    Float32.in_unit (Float32.sub Float32.one x) = true) as Hsub.
  { intros x Hx Hle. destruct (sub_one_spec x Hx Hle) as [Hn Hr].
    apply in_unit_intro; [done|].
    apply (rounded_le_one _ _ Hr). pose proof (units_nonneg x Hx). lia. }
  destruct (add_spec a b Hna Hnb ltac:(lia)) as [Hns Hrs].
  unfold random_weights.
  destruct (Float32.gtb (Float32.add a b) Float32.one) eqn:Hgt.
  - apply gtb_one in Hgt; [|done].
    apply (rounded_gt_one _ _ Hrs) in Hgt.
    destruct (sub_one_spec a Hna ltac:(lia)) as [Hna' _].
    destruct (sub_one_spec b Hnb ltac:(lia)) as [Hnb' _].
    destruct (sub_one_units a Hna ltac:(lia)) as [Hea Hra].
    destruct (sub_one_units b Hnb ltac:(lia)) as [Heb Hrb].
    pose proof (units_nonneg _ Hna') as H0a. pose proof (units_nonneg _ Hnb') as H0b.
    pose proof (Hsub a Hna ltac:(lia)) as Ua. pose proof (Hsub b Hnb ltac:(lia)) as Ub.
    set (a' := Float32.sub Float32.one a) in *.
    set (b' := Float32.sub Float32.one b) in *.
    assert (Float32.units a' + Float32.units b' < 2 ^ 149) as Hsum.
    { destruct (Z.le_gt_cases (2 ^ 148) (Float32.units a)) as [Ha2|Ha2];
        destruct (Z.le_gt_cases (2 ^ 148) (Float32.units b)) as [Hb2|Hb2];
        try specialize (Hea Ha2); try specialize (Heb Hb2); lia. }
    destruct (add_spec a' b' Hna' Hnb' ltac:(lia)) as [Hns' Hrs'].
    pose proof (rounded_le_one _ _ Hrs' ltac:(lia)) as Hs1.
    cbn [float3_all]. by rewrite (Hsub _ Hns' Hs1), Ua, Ub.
  - assert (Float32.units (Float32.add a b) <= 2 ^ 149) as Hs1.
    { destruct (Z.le_gt_cases (Float32.units (Float32.add a b)) (2 ^ 149)); [done|].
      assert (Float32.gtb (Float32.add a b) Float32.one = true) by by apply gtb_one.
      congruence. }
    cbn [float3_all]. by rewrite (Hsub _ Hns Hs1), Ha, Hb.
Qed.

(** When the generator draws its floats from [0, 1], each of the three
    weights of every sample the random generation stores is a float in
    [0, 1]: no weight is negative, above 1, infinite or a NaN. *)
Theorem generate_random_weights_in_unit `{BLI_rand}
    (dm : DerivedMesh) (d : list MSurfaceSample) (c : Z) (seed : N) (totsample : Z) :
  rng_int_range -> rng_float_range -> mfaces dm <> [] -> c <= Z.of_nat (length d) ->
  exists stored d',
    BKE_mesh_sample_generate_random (BKE_mesh_sample_storage_array d c) dm seed totsample =
      Some (stored, d') /\
    (forall j : nat, Z.of_nat j < stored ->
       exists s, d' !! j = Some s /\
                 float3_all Float32.in_unit (orig_weights s) = true).
Proof.
  intros Hrng Hfl Hne Hc.
  destruct (generate_random_array_run d c dm seed totsample Hrng Hne Hc)
    as (l & rng' & Hl & Hlen & ->).
  eexists _, _. split; [done|]. intros j Hj.
  destruct (lookup_lt_is_Some_2 l j ltac:(lia)) as [s Hs].
  rewrite lookup_overwrite_lt by lia. exists s. split; [done|].
  destruct (random_samples_weights _ _ _ _ _ _ s Hl) as (rng1 & rng2 & ->);
    [by eapply list_elem_of_lookup_2|].
  apply random_weights_in_unit; apply Hfl.
Qed.

Lemma generate_random_weights_in_unit_witness :
  exists stored d',
    BKE_mesh_sample_generate_random (H := Rand48.rand48)
      (BKE_mesh_sample_storage_array [Examples.blank; Examples.blank] 2)
      Examples.quad_tri 202 2 = Some (stored, d') /\
    (forall j : nat, Z.of_nat j < stored ->
       exists s, d' !! j = Some s /\
                 float3_all Float32.in_unit (orig_weights s) = true).
Proof.
  apply (generate_random_weights_in_unit (H := Rand48.rand48)).
  - apply rand48_int_range.
  - apply rand48_float_range.
  - discriminate.
  - cbn. lia.
Defined.

(** ** Random sampling: the draws it relies on *)

(** The face choice relies on draws that are not negative: when the first
    integer the generator draws is negative and not a multiple of the face
    count, its remainder is a negative face index and a call with
    [totsample >= 1] reads before the face array, whatever the storage. *)
Theorem generate_random_negative_draw `{BLI_rand} {D : Type}
    (dst : MSurfaceSampleStorage D) (dm : DerivedMesh) (seed : N) (totsample : Z) :
  1 <= totsample ->
  (BLI_rng_get_int (BLI_rng_new seed)).1 < 0 ->
  Z.rem (BLI_rng_get_int (BLI_rng_new seed)).1 (getNumTessFaces dm) <> 0 ->
  BKE_mesh_sample_generate_random dst dm seed totsample = None.
Proof.
  intros Htot Hneg Hrem. unfold BKE_mesh_sample_generate_random.
  destruct (Z.to_nat totsample) as [|n] eqn:Hn; [lia|].
  cbn [generate_random_loop]. unfold random_sample.
  destruct (BLI_rng_get_int (BLI_rng_new seed)) as [r rng1]. cbn [fst] in *.
  unfold c_rem. destruct (Z.eqb_spec (getNumTessFaces dm) 0) as [|Hfaces]; [done|].
  cbn [mbind option_bind]. unfold array_get.
  pose proof (Z.rem_nonpos r (getNumTessFaces dm) Hfaces ltac:(lia)) as Hle.
  destruct (Z.ltb_spec (Z.rem r (getNumTessFaces dm)) 0) as [|Hge]; [done|lia].
Qed.

Lemma generate_random_negative_draw_witness :
  BKE_mesh_sample_generate_random (H := MinusOne.rand)
    (BKE_mesh_sample_storage_array [Examples.blank] 1) Examples.quad_tri 0 1 = None.
Proof.
  apply (generate_random_negative_draw (H := MinusOne.rand)); [lia|by vm_compute..].
Defined.

(** ** Random sampling: the capacity it trusts *)

Section CapacityBeyondArray.
Context `{BLI_rand}.

(** With a capacity beyond the end of the array, a loop with more iterations
    left than the array has entries from [i] on writes past its end. *)
Lemma generate_random_loop_past_end n d0 c mfaces i stored rng
    (d : list MSurfaceSample) :
  rng_int_range -> mfaces <> [] ->
  0 <= i <= Z.of_nat (length d) -> Z.of_nat (length d) < c ->
  Z.of_nat (length d) - i < Z.of_nat n ->
  generate_random_loop n (BKE_mesh_sample_storage_array d0 c) mfaces
    (Z.of_nat (length mfaces)) i stored rng d = None.
Proof.
  intros Hrng Hne. revert i stored rng d.
  induction n as [|n IH]; intros i stored rng d Hi Hc Hn; [lia|].
  cbn [generate_random_loop BKE_mesh_sample_storage_array store_sample capacity].
  destruct (random_sample_defined mfaces rng Hrng Hne) as [[s rng1] ->].
  cbn [mbind option_bind].
  unfold mesh_sample_store_array_sample, array_set.
  destruct (Z.leb_spec c i); [lia|]. destruct (Z.leb_spec 0 i); [|lia].
  destruct (Z.ltb_spec i (Z.of_nat (length d))); [|done].
  cbn [andb mbind option_bind]. apply IH; rewrite ?length_insert; lia.
Qed.
End CapacityBeyondArray.

(** The random generation trusts the capacity of the storage: with a
    capacity beyond the end of the array, a call that asks for more samples
    than the array has entries writes past the end of the array. *)
Theorem generate_random_capacity_beyond_array `{BLI_rand}
    (dm : DerivedMesh) (d : list MSurfaceSample) (c : Z) (seed : N) (totsample : Z) :
  rng_int_range -> mfaces dm <> [] ->
  Z.of_nat (length d) < c -> Z.of_nat (length d) < totsample ->
  BKE_mesh_sample_generate_random (BKE_mesh_sample_storage_array d c) dm seed totsample =
    None.
Proof.
  intros Hrng Hne Hc Htot. unfold BKE_mesh_sample_generate_random.
  cbn [data BKE_mesh_sample_storage_array]. unfold getTessFaceArray, getNumTessFaces.
  by rewrite (generate_random_loop_past_end (Z.to_nat totsample) d c (mfaces dm) 0 0
               (BLI_rng_new seed) d Hrng Hne ltac:(lia) Hc ltac:(lia)).
Qed.

Lemma generate_random_capacity_beyond_array_witness :
  BKE_mesh_sample_generate_random (H := Rand48.rand48)
    (BKE_mesh_sample_storage_array [Examples.blank] 2) Examples.quad_tri 1 2 = None.
Proof.
  apply (generate_random_capacity_beyond_array (H := Rand48.rand48)).
  - apply rand48_int_range.
  - discriminate.
  - cbn. lia.
  - cbn. lia.
Defined.

(** ** Samples from a location on a face *)

Section WeightsFromLoc.
Context `{BLI_math_interp}.
Implicit Types (dm : DerivedMesh) (f : MFace).

Lemma array_get_elem_of {A} (a : list A) (t : Z) (x : A) :
  array_get a t = Some x -> x ∈ a.
Proof.
  unfold array_get. destruct (t <? 0); [done|]. apply list_elem_of_lookup_2.
Qed.

Lemma array_get_defined {A} (a : list A) (t : Z) :
  0 <= t < Z.of_nat (length a) -> is_Some (array_get a t).
Proof.
  intros Ht. unfold array_get. destruct (Z.ltb_spec t 0); [lia|].
  apply lookup_lt_is_Some. lia.
Qed.

(** The sample built from a location on a face refers to corners of that
    face, which are vertices of the mesh. *)
Lemma weights_from_loc_sample dm (face_index : Z) (loc : float3) s :
  mesh_sample_weights_from_loc dm face_index loc = Some s ->
  exists f,
    array_get (mfaces dm) face_index = Some f /\
    (let '(i0, i1, i2) := orig_verts s in
     i0 ∈ face_corners f /\ i1 ∈ face_corners f /\ i2 ∈ face_corners f) /\
    sample_in_range dm s.
Proof.
  unfold mesh_sample_weights_from_loc, getTessFaceArray, getVertArray.
  destruct (array_get (mfaces dm) face_index) as [f|]; [|done].
  cbn [mbind option_bind].
  destruct (mverts dm !! N.to_nat (v1 f)) as [q1|] eqn:H1; [|done].
  destruct (mverts dm !! N.to_nat (v2 f)) as [q2|] eqn:H2; [|done].
  destruct (mverts dm !! N.to_nat (v3 f)) as [q3|] eqn:H3; [|done].
  cbn [fmap option_fmap option_map mbind option_bind].
  assert (forall i, i ∈ face_corners f ->
                    (v4 f = 0%N \/ is_Some (mverts dm !! N.to_nat (v4 f))) ->
                    Z.of_N i < getNumVerts dm) as Hcorner.
  { intros i Hi H4. apply lookup_in_range. unfold face_corners in Hi.
    repeat (apply elem_of_cons in Hi as [->|Hi]); [by eexists..| |by apply elem_of_nil in Hi].
    destruct H4 as [->|?]; [|done].
    apply lookup_lt_is_Some. apply lookup_lt_Some in H1. lia. }
  intros Hs.
  assert (v4 f = 0%N \/ is_Some (mverts dm !! N.to_nat (v4 f))) as H4.
  { destruct (N.eqb_spec (v4 f) 0) as [?|_]; [by left|right].
    destruct (mverts dm !! N.to_nat (v4 f)); [by eexists|done]. }
  destruct (if (v4 f =? 0)%N then _ else _) as [p4|]; [|done].
  cbn [mbind option_bind] in Hs.
  destruct (interp_weights_face_v3_index _ _ _ _ _) as [[[t0 t1] t2] [[[w0 w1] w2] w3]].
  fold (face_corners f) in Hs.
  destruct (array_get (face_corners f) t0) as [i0|] eqn:E0; [|done].
  destruct (array_get (face_corners f) t1) as [i1|] eqn:E1; [|done].
  destruct (array_get (face_corners f) t2) as [i2|] eqn:E2; [|done].
  cbn [mbind option_bind] in Hs.
  destruct (array_get [w0; w1; w2; w3] t0) as [x0|]; [|done].
  destruct (array_get [w0; w1; w2; w3] t1) as [x1|]; [|done].
  destruct (array_get [w0; w1; w2; w3] t2) as [x2|]; [|done].
  injection Hs as <-. apply array_get_elem_of in E0, E1, E2.
  exists f. split; [done|]. split; [done|].
  unfold sample_in_range. cbn [orig_verts]. repeat split; by apply Hcorner.
Qed.
End WeightsFromLoc.

(** For a face of the mesh whose corners are vertices of the mesh, and an
    interpolation helper whose corner numbers are 0 to 3, the sample built
    from a location on the face is defined, its three vertices are corners
    of that face, and its indices are below the vertex count. *)
Theorem weights_from_loc_corners `{BLI_math_interp}
    (dm : DerivedMesh) (face_index : Z) (loc : float3) (f : MFace) :
  interp_in_range ->
  array_get (mfaces dm) face_index = Some f ->
  (forall i, i ∈ face_corners f -> Z.of_N i < getNumVerts dm) ->
  exists s,
    mesh_sample_weights_from_loc dm face_index loc = Some s /\
    (let '(i0, i1, i2) := orig_verts s in
     i0 ∈ face_corners f /\ i1 ∈ face_corners f /\ i2 ∈ face_corners f) /\
    sample_in_range dm s.
Proof.
  intros Hinterp Hf Hvalid.
  assert (is_Some (mesh_sample_weights_from_loc dm face_index loc)) as [s Hs].
  { unfold mesh_sample_weights_from_loc, getTessFaceArray, getVertArray.
    rewrite Hf. cbn [mbind option_bind].
    assert (forall i, i ∈ face_corners f -> is_Some (mverts dm !! N.to_nat i)) as Hl.
    { intros i Hi. apply lookup_in_range. auto. }
    unfold face_corners in Hl.
    destruct (Hl (v1 f) ltac:(repeat constructor)) as [q1 ->].
    destruct (Hl (v2 f) ltac:(repeat constructor)) as [q2 ->].
    destruct (Hl (v3 f) ltac:(repeat constructor)) as [q3 ->].
    destruct (Hl (v4 f) ltac:(repeat constructor)) as [q4 ->].
    cbn [fmap option_fmap option_map mbind option_bind].
    assert (exists p4, (if (v4 f =? 0)%N then Some None else Some (Some (co q4))) = Some p4)
      as [p4 ->] by (destruct (v4 f =? 0)%N; eauto).
    cbn [mbind option_bind].
    pose proof (Hinterp (co q1) (co q2) (co q3) p4 loc) as Ht.
    destruct (interp_weights_face_v3_index _ _ _ _ _) as [[[t0 t1] t2] [[[w0 w1] w2] w3]].
    cbn [fst] in Ht. destruct Ht as (T0 & T1 & T2).
    destruct (array_get_defined [v1 f; v2 f; v3 f; v4 f] t0 ltac:(cbn; lia)) as [i0 ->].
    destruct (array_get_defined [v1 f; v2 f; v3 f; v4 f] t1 ltac:(cbn; lia)) as [i1 ->].
    destruct (array_get_defined [v1 f; v2 f; v3 f; v4 f] t2 ltac:(cbn; lia)) as [i2 ->].
    destruct (array_get_defined [w0; w1; w2; w3] t0 ltac:(cbn; lia)) as [x0 ->].
    destruct (array_get_defined [w0; w1; w2; w3] t1 ltac:(cbn; lia)) as [x1 ->].
    destruct (array_get_defined [w0; w1; w2; w3] t2 ltac:(cbn; lia)) as [x2 ->].
    by eexists. }
  exists s. split; [done|].
  destruct (weights_from_loc_sample dm face_index loc s Hs) as (f' & Hf' & Hc & Hin).
  rewrite Hf in Hf'. by injection Hf' as <-.
Qed.

Lemma first_face_interp_in_range : @interp_in_range FirstFace.interp.
Proof. intros p1 p2 p3 p4 loc. cbn. lia. Qed.

Lemma weights_from_loc_corners_witness :
  let f := {| v1 := 1; v2 := 4; v3 := 2; v4 := 0 |}%N in
  exists s,
    mesh_sample_weights_from_loc (H := FirstFace.interp) Examples.quad_tri 1
      RayExamples.origin = Some s /\
    (let '(i0, i1, i2) := orig_verts s in
     i0 ∈ face_corners f /\ i1 ∈ face_corners f /\ i2 ∈ face_corners f) /\
    sample_in_range Examples.quad_tri s.
Proof.
  cbn zeta.
  apply (weights_from_loc_corners (H := FirstFace.interp) Examples.quad_tri 1
           RayExamples.origin).
  - apply first_face_interp_in_range.
  - reflexivity.
  - intros i Hi. apply (quad_tri_faces_valid {| v1 := 1; v2 := 4; v3 := 2; v4 := 0 |}%N);
      [|done]. repeat constructor.
Defined.

(** ** Raycast sampling: where the samples go *)

Section RaycastMore.
Context `{BLI_math_interp} `{BKE_bvhutils} {U : Type}.
Implicit Types (d : list MSurfaceSample) (ray_cb : MeshSampleRayCallback U)
  (dm : DerivedMesh).

(** The array after a run of the loop: the sample of the iteration with loop
    index [j] is at index [j] when that is below the capacity; every other
    entry is as before. *)
Lemma generate_raycast_loop_contents n d0 c dm bvhdata ray_cb i stored u rs re d
    i' stored' u' d' :
  0 <= i -> c <= Z.of_nat (length d) ->
  generate_raycast_loop n (BKE_mesh_sample_storage_array d0 c) dm bvhdata ray_cb
    i stored u rs re d = Some (i', stored', u', d') ->
  forall j : nat,
    d' !! j =
    if (j <? Z.to_nat i)%nat then d !! j
    else match raycast_samples n dm bvhdata ray_cb u rs re !! (j - Z.to_nat i)%nat with
         | Some (Some s) => if Z.of_nat j <? c then Some s else d !! j
         | _ => d !! j
         end.
Proof.
  revert i stored u rs re d.
  induction n as [|n IH]; intros i stored u rs re d Hi Hc Hrun j.
  { injection Hrun as <- <- <- <-. cbn [raycast_samples]. rewrite lookup_nil.
    by destruct (_ <? _)%nat. }
  cbn [generate_raycast_loop raycast_samples] in *.
  destruct (ray_cb u rs re) as [[[ok rs1] re1] u1].
  assert (forall st, generate_raycast_loop n (BKE_mesh_sample_storage_array d0 c) dm
            bvhdata ray_cb (i + 1) st u1 rs1 re1 d = Some (i', stored', u', d') ->
          d' !! j =
          if (j <? Z.to_nat i)%nat then d !! j
          else match (None :: raycast_samples n dm bvhdata ray_cb u1 rs1 re1)
                       !! (j - Z.to_nat i)%nat with
               | Some (Some s) => if Z.of_nat j <? c then Some s else d !! j
               | _ => d !! j
               end) as Hskip.
  { intros st Hst. rewrite (IH (i + 1) st u1 rs1 re1 d ltac:(lia) Hc Hst j).
    destruct (Nat.ltb_spec j (Z.to_nat i)).
    - by destruct (Nat.ltb_spec j (Z.to_nat (i + 1))); [|lia].
    - destruct (Nat.ltb_spec j (Z.to_nat (i + 1))).
      + by replace (j - Z.to_nat i)%nat with 0%nat by lia.
      + replace (j - Z.to_nat i)%nat with (S (j - Z.to_nat (i + 1))) by lia.
        done. }
  destruct ok; [|by eapply Hskip].
  destruct (sample_bvh_raycast dm bvhdata rs1 re1) as [[s|]|]; [| by eapply Hskip |done].
  cbn [mbind option_bind BKE_mesh_sample_storage_array store_sample capacity
       from_option id] in *.
  destruct (Z.le_gt_cases c i).
  - rewrite store_array_full in Hrun by done. cbn in Hrun.
    injection Hrun as <- <- <- <-.
    destruct (Nat.ltb_spec j (Z.to_nat i)); [done|].
    destruct (Z.ltb_spec (Z.of_nat j) c); [lia|].
    by destruct ((Some s :: _) !! _) as [[?|]|].
  - rewrite store_array_below in Hrun by lia. cbn [mbind option_bind] in Hrun.
    rewrite (IH (i + 1) (stored + 1) u1 rs1 re1 (<[Z.to_nat i := s]> d) ltac:(lia)
               ltac:(rewrite length_insert; lia) Hrun j).
    destruct (Nat.ltb_spec j (Z.to_nat i)).
    + destruct (Nat.ltb_spec j (Z.to_nat (i + 1))); [|lia].
      apply list_lookup_insert_ne. lia.
    + destruct (Nat.ltb_spec j (Z.to_nat (i + 1))).
      * replace (j - Z.to_nat i)%nat with 0%nat by lia. cbn [lookup list_lookup].
        assert (j = Z.to_nat i) as -> by lia.
        destruct (Z.ltb_spec (Z.of_nat (Z.to_nat i)) c); [|lia].
        apply list_lookup_insert_eq. lia.
      * replace (j - Z.to_nat i)%nat with (S (j - Z.to_nat (i + 1))) by lia.
        cbn [lookup list_lookup].
        rewrite list_lookup_insert_ne by lia. done.
Qed.

(** Where the loop on an array ends: no later than the first iteration that
    has a ray that hits and a loop index at or above the capacity, whose
    failed store is the [break]. *)
Lemma generate_raycast_loop_break n d0 c dm bvhdata ray_cb i stored u rs re d
    i' stored' u' d' :
  0 <= i -> c <= Z.of_nat (length d) ->
  generate_raycast_loop n (BKE_mesh_sample_storage_array d0 c) dm bvhdata ray_cb
    i stored u rs re d = Some (i', stored', u', d') ->
  i <= i' <= i + Z.of_nat n /\
  (forall j : nat,
     raycast_hits n dm bvhdata ray_cb u rs re !! j = Some true ->
     c <= i + Z.of_nat j -> i' <= i + Z.of_nat j).
Proof.
  revert i stored u rs re d.
  induction n as [|n IH]; intros i stored u rs re d Hi Hc Hrun.
  { injection Hrun as <- <- <- <-. split; [lia|]. intros j Hj. lia. }
  cbn [generate_raycast_loop raycast_hits] in *.
  destruct (ray_cb u rs re) as [[[ok rs1] re1] u1].
  assert (forall st (b : bool) d1,
            c <= Z.of_nat (length d1) -> (b = true -> i < c) ->
            generate_raycast_loop n (BKE_mesh_sample_storage_array d0 c) dm
              bvhdata ray_cb (i + 1) st u1 rs1 re1 d1 = Some (i', stored', u', d') ->
            i <= i' <= i + Z.of_nat (S n) /\
            (forall j : nat,
               (b :: raycast_hits n dm bvhdata ray_cb u1 rs1 re1) !! j = Some true ->
               c <= i + Z.of_nat j -> i' <= i + Z.of_nat j)) as Hnext.
  { intros st b d1 Hc1 Hb Hst.
    destruct (IH (i + 1) st u1 rs1 re1 d1 ltac:(lia) Hc1 Hst) as [Hi' Hj'].
    split; [lia|]. intros [|j] Hj Hcj.
    - injection Hj as ->. specialize (Hb eq_refl). lia.
    - specialize (Hj' j Hj ltac:(lia)). lia. }
  destruct ok; cbn [andb]; [|by apply (Hnext stored false d)].
  destruct (sample_bvh_raycast dm bvhdata rs1 re1) as [[s|]|];
    [|by apply (Hnext stored false d)|done].
  cbn [mbind option_bind BKE_mesh_sample_storage_array store_sample capacity] in Hrun.
  destruct (Z.le_gt_cases c i).
  - rewrite store_array_full in Hrun by done. cbn in Hrun.
    injection Hrun as <- <- <- <-. split; [lia|]. intros j _ _. lia.
  - rewrite store_array_below in Hrun by lia. cbn [mbind option_bind] in Hrun.
    apply (Hnext (stored + 1) true (<[Z.to_nat i := s]> d));
      [rewrite length_insert; lia|done|done].
Qed.

(** The sample of a raycast that hits has its indices in range. *)
Lemma raycast_samples_in_range n dm bvhdata ray_cb u rs re (j : nat) s :
  raycast_samples n dm bvhdata ray_cb u rs re !! j = Some (Some s) ->
  sample_in_range dm s.
Proof.
  revert u rs re j. induction n as [|n IH]; intros u rs re j; [done|].
  cbn [raycast_samples]. destruct (ray_cb u rs re) as [[[ok rs1] re1] u1].
  destruct j as [|j]; [|by apply IH].
  cbn [lookup list_lookup]. destruct ok; [|done].
  unfold sample_bvh_raycast.
  destruct (BLI_math.normalize_v3 _) as [ray_normal dist].
  destruct (BLI_bvhtree_ray_cast _ _ _ _ _ _) as [r hit].
  destruct (0 <=? r); [|done].
  destruct (mesh_sample_weights_from_loc dm (hit_index hit) (hit_co hit)) as [s'|] eqn:Hs;
    [|done].
  cbn. intros [= <-].
  by destruct (weights_from_loc_sample _ _ _ _ Hs) as (f & _ & _ & Hin).
Qed.
End RaycastMore.

(** The raycast generation stores the sample of the iteration with loop
    index [j] at index [j] of the array, not at the running count: after the
    call, entry [j] holds the sample of iteration [j] when that iteration had
    a ray that hit and [j] is below the capacity, and its former content
    otherwise, so that the stored samples need not be the first entries. *)
Theorem generate_raycast_stores_at_index `{BLI_math_interp} `{BKE_bvhutils} {U : Type}
    (dm : DerivedMesh) (d : list MSurfaceSample) (c : Z)
    (ray_cb : MeshSampleRayCallback U) (u : U) (totsample : Z) (rs re : float3) :
  c <= Z.of_nat (length d) ->
  (forall tree rs re,
     bvhtree_from_mesh_faces dm Float32.zero 4 6 = Some tree ->
     is_Some (sample_bvh_raycast dm tree rs re)) ->
  exists stored d',
    BKE_mesh_sample_generate_raycast (BKE_mesh_sample_storage_array d c) dm ray_cb u
      totsample rs re = Some (stored, d') /\
    forall j : nat,
      d' !! j =
      match bvhtree_from_mesh_faces dm Float32.zero 4 6 with
      | Some tree =>
        match raycast_samples (Z.to_nat totsample) dm tree ray_cb u rs re !! j with
        | Some (Some s) => if Z.of_nat j <? c then Some s else d !! j
        | _ => d !! j
        end
      | None => d !! j
      end.
Proof.
  intros Hc Hdef. unfold BKE_mesh_sample_generate_raycast.
  destruct (bvhtree_from_mesh_faces dm Float32.zero 4 6) as [tree|] eqn:Htree.
  2:{ by exists 0, d. }
  cbn [data BKE_mesh_sample_storage_array].
  destruct (generate_raycast_loop_defined (Z.to_nat totsample) d c dm tree ray_cb
              0 0 u rs re d ltac:(lia) Hc (fun rs re => Hdef tree rs re eq_refl))
    as [[[[i' stored'] u'] d'] Hrun].
  rewrite Hrun. cbn [mbind option_bind]. exists stored', d'. split; [done|].
  intros j.
  rewrite (generate_raycast_loop_contents (Z.to_nat totsample) d c dm tree ray_cb
             0 0 u rs re d i' stored' u' d' ltac:(lia) Hc Hrun j).
  change (Z.to_nat 0) with 0%nat. cbn [Nat.ltb Nat.leb]. by rewrite Nat.sub_0_r.
Qed.

Lemma generate_raycast_stores_at_index_witness :
  exists stored d',
    BKE_mesh_sample_generate_raycast (H := FirstFace.interp) (H0 := FirstFace.bvh)
      (BKE_mesh_sample_storage_array [Examples.blank; Examples.blank; Examples.blank] 3)
      Examples.triangle RayExamples.every_other 0%nat 3
      RayExamples.origin RayExamples.origin = Some (stored, d') /\
    forall j : nat,
      d' !! j =
      match bvhtree_from_mesh_faces (BKE_bvhutils := FirstFace.bvh)
              Examples.triangle Float32.zero 4 6 with
      | Some tree =>
        match raycast_samples (H := FirstFace.interp) (H0 := FirstFace.bvh)
                (Z.to_nat 3) Examples.triangle tree RayExamples.every_other 0%nat
                RayExamples.origin RayExamples.origin !! j with
        | Some (Some s) =>
          if Z.of_nat j <? 3 then Some s
          else [Examples.blank; Examples.blank; Examples.blank] !! j
        | _ => [Examples.blank; Examples.blank; Examples.blank] !! j
        end
      | None => [Examples.blank; Examples.blank; Examples.blank] !! j
      end.
Proof.
  apply (generate_raycast_stores_at_index (H := FirstFace.interp) (H0 := FirstFace.bvh)
           Examples.triangle [Examples.blank; Examples.blank; Examples.blank] 3
           RayExamples.every_other 0%nat 3 RayExamples.origin RayExamples.origin).
  - cbn. lia.
  - intros tree rs re _. apply first_face_raycast_defined.
Defined.

(** A run that leaves a gap: of three iterations the first and the third
    store a sample, at indices 0 and 2; the count is 2 and entry 1 is as it
    was. *)
Example generate_raycast_gap :
  BKE_mesh_sample_generate_raycast (H := FirstFace.interp) (H0 := FirstFace.bvh)
    (BKE_mesh_sample_storage_array [Examples.blank; Examples.blank; Examples.blank] 3)
    Examples.triangle RayExamples.every_other 0%nat 3
    RayExamples.origin RayExamples.origin =
  Some (2, [Examples.sample_at 0 1 2 Float32.one Float32.zero Float32.zero;
            Examples.blank;
            Examples.sample_at 0 1 2 Float32.one Float32.zero Float32.zero]).
Proof. vm_compute. reflexivity. Qed.

(** The hits of the loop are the iterations that have a sample. *)
Lemma raycast_hits_samples `{BLI_math_interp} `{BKE_bvhutils} {U : Type} (n : nat)
    (dm : DerivedMesh) (bvhdata : BVHTreeFromMesh) (ray_cb : MeshSampleRayCallback U)
    (u : U) (rs re : float3) :
  raycast_hits n dm bvhdata ray_cb u rs re =
  (fun o : option MSurfaceSample => match o with Some _ => true | None => false end) <$>
    raycast_samples n dm bvhdata ray_cb u rs re.
Proof.
  revert u rs re. induction n as [|n IH]; intros u rs re; [done|].
  cbn [raycast_hits raycast_samples].
  destruct (ray_cb u rs re) as [[[ok rs1] re1] u1].
  cbn [fmap list_fmap]. rewrite IH. f_equal.
  destruct ok; [|done]. by destruct (sample_bvh_raycast _ _ _ _) as [[?|]|].
Qed.

(** Into the single-sample storage the raycast generation stores a sample
    only when its first iteration has a ray that hits, and then returns 1
    with that sample; otherwise it returns 0 and leaves the sample of the
    storage as it was.  A later iteration with a ray that hits has a loop
    index at or above the capacity 1: its sample is not stored and its
    failed store ends the loop, whose final index is at most the index of
    that iteration. *)
Theorem generate_raycast_single `{BLI_math_interp} `{BKE_bvhutils} {U : Type}
    (dm : DerivedMesh) (s0 : MSurfaceSample) (tree : BVHTreeFromMesh)
    (ray_cb : MeshSampleRayCallback U) (u : U) (totsample : Z) (rs re : float3) :
  bvhtree_from_mesh_faces dm Float32.zero 4 6 = Some tree ->
  (forall rs re, is_Some (sample_bvh_raycast dm tree rs re)) ->
  let result :=
    match raycast_samples (Z.to_nat totsample) dm tree ray_cb u rs re with
    | Some s :: _ => (1, [s])
    | _ => (0, [s0])
    end in
  BKE_mesh_sample_generate_raycast (BKE_mesh_sample_storage_single s0) dm ray_cb u
    totsample rs re = Some result /\
  exists i' u',
    generate_raycast_loop (Z.to_nat totsample) (BKE_mesh_sample_storage_single s0) dm
      tree ray_cb 0 0 u rs re [s0] = Some (i', result.1, u', result.2) /\
    (forall j : nat,
       (1 <= j)%nat ->
       raycast_hits (Z.to_nat totsample) dm tree ray_cb u rs re !! j = Some true ->
       i' <= Z.of_nat j).
Proof.
  intros Htree Hdef result. unfold BKE_mesh_sample_generate_raycast. rewrite Htree.
  change (BKE_mesh_sample_storage_single s0) with (BKE_mesh_sample_storage_array [s0] 1).
  cbn [data BKE_mesh_sample_storage_array].
  destruct (generate_raycast_loop_defined (Z.to_nat totsample) [s0] 1 dm tree ray_cb
              0 0 u rs re [s0] ltac:(lia) ltac:(cbn; lia) Hdef)
    as [[[[i' stored'] u'] d'] Hrun].
  rewrite Hrun. cbn [mbind option_bind].
  pose proof (generate_raycast_loop_contents (Z.to_nat totsample) [s0] 1 dm tree ray_cb
                0 0 u rs re [s0] i' stored' u' d' ltac:(lia) ltac:(cbn; lia) Hrun 0%nat)
    as Hd.
  pose proof (generate_raycast_loop_break (Z.to_nat totsample) [s0] 1 dm tree ray_cb
                0 0 u rs re [s0] i' stored' u' d' ltac:(lia) ltac:(cbn; lia) Hrun)
    as [_ Hbreak].
  pose proof Hrun as Hloop.
  apply generate_raycast_loop_array in Hrun as [-> Hlen]; [|lia|cbn; lia].
  assert ((0 + count_true
                 (take (Z.to_nat (1 - 0))
                    (raycast_hits (Z.to_nat totsample) dm tree ray_cb u rs re)), d') =
          result) as E.
  { unfold result. rewrite raycast_hits_samples.
    change (Z.to_nat 0) with 0%nat in Hd. change (Z.to_nat (1 - 0)) with 1%nat.
    destruct d' as [|x [|??]]; try done.
    by destruct (raycast_samples _ _ _ _ _ _ _) as [|[s|] l]; cbn in Hd;
      injection Hd as ->. }
  split; [by rewrite E|]. exists i', u'. split; [by rewrite <- E|].
  intros j Hj Hhit. specialize (Hbreak j Hhit ltac:(lia)). lia.
Qed.

Lemma generate_raycast_single_witness :
  let result :=
    match raycast_samples (H := FirstFace.interp) (H0 := FirstFace.bvh) (Z.to_nat 5)
            Examples.triangle (mfaces Examples.triangle)
            RayExamples.every_other 1%nat RayExamples.origin RayExamples.origin with
    | Some s :: _ => (1, [s])
    | _ => (0, [Examples.blank])
    end in
  BKE_mesh_sample_generate_raycast (H := FirstFace.interp) (H0 := FirstFace.bvh)
    (BKE_mesh_sample_storage_single Examples.blank) Examples.triangle
    RayExamples.every_other 1%nat 5 RayExamples.origin RayExamples.origin =
    Some result /\
  exists i' u',
    generate_raycast_loop (H := FirstFace.interp) (H0 := FirstFace.bvh) (Z.to_nat 5)
      (BKE_mesh_sample_storage_single Examples.blank) Examples.triangle
      (mfaces Examples.triangle) RayExamples.every_other 0 0 1%nat
      RayExamples.origin RayExamples.origin [Examples.blank] =
      Some (i', result.1, u', result.2) /\
    (forall j : nat,
       (1 <= j)%nat ->
       raycast_hits (H := FirstFace.interp) (H0 := FirstFace.bvh) (Z.to_nat 5)
         Examples.triangle (mfaces Examples.triangle) RayExamples.every_other 1%nat
         RayExamples.origin RayExamples.origin !! j = Some true ->
       i' <= Z.of_nat j).
Proof.
  apply (generate_raycast_single (H := FirstFace.interp) (H0 := FirstFace.bvh)
           Examples.triangle Examples.blank (mfaces Examples.triangle)).
  - reflexivity.
  - intros rs re. apply first_face_raycast_defined.
Defined.

(** With the single-sample storage, a first iteration without a ray loses
    the hit of the second, which ends the loop at index 1 after two calls of
    the ray callback. *)
Example generate_raycast_single_miss :
  BKE_mesh_sample_generate_raycast (H := FirstFace.interp) (H0 := FirstFace.bvh)
    (BKE_mesh_sample_storage_single Examples.blank) Examples.triangle
    RayExamples.every_other 1%nat 5 RayExamples.origin RayExamples.origin =
    Some (0, [Examples.blank]) /\
  generate_raycast_loop (H := FirstFace.interp) (H0 := FirstFace.bvh) (Z.to_nat 5)
    (BKE_mesh_sample_storage_single Examples.blank) Examples.triangle
    (mfaces Examples.triangle) RayExamples.every_other 0 0 1%nat
    RayExamples.origin RayExamples.origin [Examples.blank] =
    Some (1, 0, 3%nat, [Examples.blank]).
Proof. split; vm_compute; reflexivity. Qed.

(** Cast, then evaluate: every sample the raycast generation writes into
    the array has its three indices below the vertex count, and evaluates
    with the flag true on every mesh with as many vertices as the sampled
    one. *)
Theorem generate_raycast_then_eval `{BLI_math_interp} `{BKE_bvhutils} {U : Type}
    (dm dm' : DerivedMesh) (d : list MSurfaceSample) (c : Z)
    (ray_cb : MeshSampleRayCallback U) (u : U) (totsample : Z) (rs re : float3) :
  c <= Z.of_nat (length d) ->
  getNumVerts dm' = getNumVerts dm ->
  (forall tree rs re,
     bvhtree_from_mesh_faces dm Float32.zero 4 6 = Some tree ->
     is_Some (sample_bvh_raycast dm tree rs re)) ->
  exists stored d',
    BKE_mesh_sample_generate_raycast (BKE_mesh_sample_storage_array d c) dm ray_cb u
      totsample rs re = Some (stored, d') /\
    forall j : nat,
      d' !! j = d !! j \/
      exists s loc nor,
        d' !! j = Some s /\ BKE_mesh_sample_eval dm' s = Some (true, loc, nor).
Proof.
  intros Hc Hverts Hdef. unfold BKE_mesh_sample_generate_raycast.
  destruct (bvhtree_from_mesh_faces dm Float32.zero 4 6) as [tree|] eqn:Htree.
  2:{ exists 0, d. split; [done|]. by left. }
  cbn [data BKE_mesh_sample_storage_array].
  destruct (generate_raycast_loop_defined (Z.to_nat totsample) d c dm tree ray_cb
              0 0 u rs re d ltac:(lia) Hc (fun rs re => Hdef tree rs re eq_refl))
    as [[[[i' stored'] u'] d'] Hrun].
  rewrite Hrun. cbn [mbind option_bind]. exists stored', d'. split; [done|].
  intros j.
  rewrite (generate_raycast_loop_contents (Z.to_nat totsample) d c dm tree ray_cb
             0 0 u rs re d i' stored' u' d' ltac:(lia) Hc Hrun j).
  change (Z.to_nat 0) with 0%nat. cbn [Nat.ltb Nat.leb]. rewrite Nat.sub_0_r.
  destruct (raycast_samples _ _ _ _ _ _ _ !! j) as [[s|]|] eqn:Hs; [|by left..].
  destruct (Z.of_nat j <? c); [|by left]. right.
  apply raycast_samples_in_range in Hs.
  destruct s as [[[i0 i1] i2] [[w0 w1] w2]].
  unfold sample_in_range in Hs. cbn [orig_verts] in Hs. rewrite <- Hverts in Hs.
  destruct Hs as (Hi0 & Hi1 & Hi2).
  destruct (proj1 (lookup_in_range dm' i0) Hi0) as [p0 H0'].
  destruct (proj1 (lookup_in_range dm' i1) Hi1) as [p1 H1'].
  destruct (proj1 (lookup_in_range dm' i2) Hi2) as [p2 H2'].
  eexists _, _, _. split; [done|]. by apply eval_in_range.
Qed.

Lemma generate_raycast_then_eval_witness :
  exists stored d',
    BKE_mesh_sample_generate_raycast (H := FirstFace.interp) (H0 := FirstFace.bvh)
      (BKE_mesh_sample_storage_array [Examples.blank; Examples.blank; Examples.blank] 3)
      Examples.triangle RayExamples.every_other 0%nat 3
      RayExamples.origin RayExamples.origin = Some (stored, d') /\
    forall j : nat,
      d' !! j = [Examples.blank; Examples.blank; Examples.blank] !! j \/
      exists s loc nor,
        d' !! j = Some s /\
        BKE_mesh_sample_eval Examples.triangle_negzero s = Some (true, loc, nor).
Proof.
  apply (generate_raycast_then_eval (H := FirstFace.interp) (H0 := FirstFace.bvh)
           Examples.triangle Examples.triangle_negzero
           [Examples.blank; Examples.blank; Examples.blank] 3
           RayExamples.every_other 0%nat 3 RayExamples.origin RayExamples.origin).
  - cbn. lia.
  - reflexivity.
  - intros tree rs re _. apply first_face_raycast_defined.
Defined.

(** With [totsample <= 0] the raycast generation returns 0 and leaves the
    storage data as it was, whatever the mesh, the storage and the ray
    callback: its loop runs no iteration, and ends at loop index 0 with the
    user data of the ray callback as it was given. *)
Theorem generate_raycast_zero `{BLI_math_interp} `{BKE_bvhutils} {D U : Type}
    (dst : MSurfaceSampleStorage D) (dm : DerivedMesh)
    (ray_cb : MeshSampleRayCallback U) (u : U) (totsample : Z) (rs re : float3) :
  totsample <= 0 ->
  BKE_mesh_sample_generate_raycast dst dm ray_cb u totsample rs re =
    Some (0, data dst) /\
  (forall bvhdata : BVHTreeFromMesh,
     generate_raycast_loop (Z.to_nat totsample) dst dm bvhdata ray_cb 0 0 u rs re
       (data dst) = Some (0, 0, u, data dst)).
Proof.
  intros Htot. unfold BKE_mesh_sample_generate_raycast.
  replace (Z.to_nat totsample) with 0%nat by lia. split; [|done].
  by destruct (bvhtree_from_mesh_faces dm Float32.zero 4 6).
Qed.

Lemma generate_raycast_zero_witness :
  let dst := BKE_mesh_sample_storage_array [Examples.blank] 1 in
  BKE_mesh_sample_generate_raycast (H := FirstFace.interp) (H0 := FirstFace.bvh)
    dst Examples.triangle RayExamples.every_other 0%nat (-2)
    RayExamples.origin RayExamples.origin = Some (0, data dst) /\
  (forall bvhdata : list MFace,
     generate_raycast_loop (H := FirstFace.interp) (H0 := FirstFace.bvh)
       (Z.to_nat (-2)) dst Examples.triangle bvhdata RayExamples.every_other 0 0 0%nat
       RayExamples.origin RayExamples.origin (data dst) = Some (0, 0, 0%nat, data dst)).
Proof.
  apply (generate_raycast_zero (H := FirstFace.interp) (H0 := FirstFace.bvh)). lia.
Defined.

